(** * ferry.fyi: the cache and refresh layer of the server (lib/wsf)

    A shallow embedding of the data-access module that polls the Washington
    State Ferries APIs, keeps the normalised in-memory maps, persists the
    capacity readings and derives estimates and corrections from them.

    JavaScript objects used as dictionaries over terminal and vessel ids
    are finite maps keyed by the number whose decimal string is the property
    name; the schedule of a route is keyed by the property names themselves,
    because the module reads them back with [_.keys].  Objects used as
    records are ordered field lists; objects that are mutated through more
    than one reference (cached vessels, capacity instances) live in a heap
    and are named by their location.  A run of one function reads the wall
    clock once. *)

From stdpp Require Import gmap strings list fin_maps sorting.
From Stdlib Require Import ZArith String Ascii DecimalString DecimalZ DecimalPos Lia.

Open Scope string_scope.
Open Scope Z_scope.

Set Warnings "-register-all".

(** ** JavaScript values *)

Inductive value : Type :=
| VUndefined
| VNull
| VBool (b : bool)
| VNum (n : Z)
| VNaN
| VStr (s : string)
| VDate (millis : Z)
| VArr (items : list value)
| VObj (fields : list (string * value)).

(** An object used as a record: its own properties in insertion order. *)
Abbreviation obj := (list (string * value)).

Fixpoint get_field (o : obj) (k : string) : option value :=
  match o with
  | [] => None
  | (k', v) :: rest => if String.eqb k' k then Some v else get_field rest k
  end.

(** [o[k] = v]: an existing property keeps its place, a new one goes last. *)
Fixpoint set_field (k : string) (v : value) (o : obj) : obj :=
  match o with
  | [] => [(k, v)]
  | (k', v') :: rest =>
      if String.eqb k' k then (k, v) :: rest else (k', v') :: set_field k v rest
  end.

(** [_.get(o, k)]: a missing property reads as [undefined]. *)
Definition prop (o : obj) (k : string) : value :=
  match get_field o k with Some v => v | None => VUndefined end.

(** [_.get(o, k, dflt)]: the default replaces [undefined] only. *)
Definition prop_or (o : obj) (k : string) (dflt : value) : value :=
  match prop o k with VUndefined => dflt | v => v end.

(** [_.omit(o, k)]. *)
Definition omit (k : string) (o : obj) : obj :=
  filter (fun kv => String.eqb kv.1 k = false) o.

(** [_.assign(dst, src)]: every own property of [src] is written to [dst]. *)
Definition assign (dst src : obj) : obj :=
  fold_left (fun o kv => set_field kv.1 kv.2 o) src dst.

(** ToBoolean. *)
Definition truthy (v : value) : bool :=
  match v with
  | VUndefined | VNull | VNaN => false
  | VBool b => b
  | VNum n => negb (n =? 0)
  | VStr s => negb (String.eqb s "")
  | VDate _ | VArr _ | VObj _ => true
  end.

(** The decimal string of an integer-valued number, as [String(n)] gives it
    and as a number used as a property name is converted. *)
Definition string_of_Z (n : Z) : string := NilZero.string_of_int (Z.to_int n).

(** ToString on the scalars an upstream JSON field can hold. *)
Definition to_string (v : value) : string :=
  match v with
  | VUndefined => "undefined"
  | VNull => "null"
  | VBool true => "true"
  | VBool false => "false"
  | VNum n => string_of_Z n
  | VNaN => "NaN"
  | VStr s => s
  | VDate _ | VArr _ | VObj _ => "[object Object]"
  end.

(** ToNumber on scalars; [None] is NaN. *)
Definition to_number (v : value) : option Z :=
  match v with
  | VNull => Some 0
  | VBool true => Some 1
  | VBool false => Some 0
  | VNum n => Some n
  | _ => None
  end.

(** The binary [+] on scalars: concatenation as soon as one side is a
    string, addition of numbers otherwise. *)
Definition js_plus (a b : value) : value :=
  match a, b with
  | VStr s, _ => VStr (String.append s (to_string b))
  | _, VStr s => VStr (String.append (to_string a) s)
  | _, _ =>
      match to_number a, to_number b with
      | Some x, Some y => VNum (x + y)
      | _, _ => VNaN
      end
  end.

(** [a || b]. *)
Definition js_or (a b : value) : value := if truthy a then a else b.

(** [v === n] for a number literal [n]. *)
Definition is_number (v : value) (n : Z) : bool :=
  match v with VNum m => m =? n | _ => false end.

(** [_.merge(object, source)] on plain data.  A source property that is a
    plain object or an array is merged recursively into the destination
    property (or into a fresh [{}] / [[]] when the destination holds none);
    any other source value replaces the destination, except [undefined],
    which is skipped when the destination already has the key.  The result
    of [mergeValue] is what is stored at the key, [None] when the key is
    left as it is. *)
Fixpoint mergeValue (objValue : option value) (srcValue : value) {struct srcValue}
  : option value :=
  match srcValue with
  | VObj sf =>
      let base := match objValue with Some (VObj df) => df | _ => [] end in
      Some (VObj
        ((fix go (sf : list (string * value)) (acc : obj) {struct sf} : obj :=
            match sf with
            | [] => acc
            | (k, sv) :: rest =>
                go rest (match mergeValue (get_field acc k) sv with
                         | Some v => set_field k v acc
                         | None => acc
                         end)
            end) sf base))
  | VArr si =>
      let base := match objValue with Some (VArr di) => di | _ => [] end in
      Some (VArr
        ((fix go (si : list value) (di : list value) {struct si} : list value :=
            match si with
            | [] => di
            | sv :: rest =>
                match di with
                | [] =>
                    (match mergeValue None sv with Some v => v | None => VUndefined end)
                      :: go rest []
                | dv :: drest =>
                    (match mergeValue (Some dv) sv with Some v => v | None => dv end)
                      :: go rest drest
                end
            end) si base))
  | VUndefined =>
      match objValue with Some _ => None | None => Some VUndefined end
  | v => Some v
  end.

Definition merge (object source : obj) : obj :=
  match mergeValue (Some (VObj object)) (VObj source) with
  | Some (VObj o) => o
  | _ => object
  end.

(** ** Capacity records *)

(** A row of the [Crossing] model, one per (departureId, arrivalId,
    departureTime); times are in seconds, [departureDelta] is [null] when no
    delay is known. *)
Module Capacity.
Record t : Type := mk {
  arrivalId : Z;
  departureId : Z;
  departureDelta : option Z;
  departureTime : Z;
  driveUpCapacity : Z;
  hasDriveUp : bool;
  hasReservations : bool;
  isCancelled : bool;
  reservableCapacity : Z;
  totalCapacity : Z
}.

Definition key (c : t) : Z * Z * Z := (departureId c, arrivalId c, departureTime c).

Definition with_counts (driveUp reservable : Z) (c : t) : t :=
  mk (arrivalId c) (departureId c) (departureDelta c) (departureTime c)
     driveUp (hasDriveUp c) (hasReservations c) (isCancelled c)
     reservable (totalCapacity c).
End Capacity.

Definition isEmpty (capacity : Capacity.t) : bool :=
  Capacity.driveUpCapacity capacity + Capacity.reservableCapacity capacity
    =? Capacity.totalCapacity capacity.

Definition isFull (capacity : Capacity.t) : bool :=
  (Capacity.driveUpCapacity capacity =? 0)
    && (Capacity.reservableCapacity capacity =? 0).

(** [hasPassed(capacity)] for a capacity object: the scheduled departure,
    moved by the delay when one is known and not zero, lies before the
    wall clock [now] (milliseconds). *)
Definition hasPassed (now : Z) (capacity : Capacity.t) : bool :=
  let estimatedTime :=
    match Capacity.departureDelta capacity with
    | Some delta =>
        if delta =? 0 then Capacity.departureTime capacity * 1000
        else Capacity.departureTime capacity * 1000 + delta * 1000
    | None => Capacity.departureTime capacity * 1000
    end in
  estimatedTime <? now.

(** ** Scheduled crossings *)

(** [crossing.estimate]: absent until the first recomputation, then [null]
    or the two counts picked from last week's record. *)
Inductive Estimate : Type :=
| EstimateUnset
| EstimateNull
| EstimateOf (driveUpCapacity reservableCapacity : Z).

(** Heap locations of the objects that are reached through more than one
    reference. *)
Abbreviation loc := positive.

Module Crossing.
Record t : Type := mk {
  allowsPassengers : bool;
  allowsVehicles : bool;
  hasPassed : bool;
  time : Z;
  vessel : option loc;
  capacity : option loc;
  estimate : Estimate
}.

Definition with_capacity (l : loc) (c : t) : t :=
  mk (allowsPassengers c) (allowsVehicles c) (hasPassed c) (time c) (vessel c)
     (Some l) (estimate c).

Definition with_estimate (e : Estimate) (c : t) : t :=
  mk (allowsPassengers c) (allowsVehicles c) (hasPassed c) (time c) (vessel c)
     (capacity c) e.
End Crossing.

(** ** Upstream payloads

    The responses of the WSF REST families as the module reads them.  Date
    fields are given after [wsfDateToTimestamp] (lib/date): seconds as a
    number.  Fields the module only copies are kept as parsed JSON. *)

Module Mate.
Record t : Type := mk { DepartingTerminalID : Z; ArrivingTerminalID : Z }.
End Mate.

Module Departure.
Record t : Type := mk { DepartingTime : Z; LoadingRule : value; VesselID : Z }.
End Departure.

(** One element of [response.TerminalCombos]. *)
Module Combo.
Record t : Type := mk { Times : list Departure.t }.
End Combo.

Module VesselVerbose.
Record t : Type := mk { VesselID : Z; data : obj }.
End VesselVerbose.

Module VesselLocation.
Record t : Type := mk {
  VesselID : Z;
  LeftDock : value;
  ScheduledDeparture : value;
  Eta : value;
  AtDock : value;
  data : obj
}.
End VesselLocation.

Module Bulletin.
Record t : Type := mk {
  BulletinTitle : value; BulletinText : value; BulletinLastUpdated : value
}.
End Bulletin.

Module WaitTime.
Record t : Type := mk {
  RouteName : value; WaitTimeNotes : value; WaitTimeLastUpdated : value
}.
End WaitTime.

Module TerminalVerbose.
Record t : Type := mk {
  TerminalID : Z;
  Bulletins : list Bulletin.t;
  WaitTimes : list WaitTime.t;
  data : obj
}.
End TerminalVerbose.

Module ArrivalSpace.
Record t : Type := mk {
  TerminalID : Z;
  DriveUpSpaceCount : Z;
  DisplayDriveUpSpace : bool;
  DisplayReservableSpace : bool;
  ReservableSpaceCount : Z;
  MaxSpaceCount : Z
}.
End ArrivalSpace.

Module DepartingSpace.
Record t : Type := mk {
  Departure : Z;
  VesselID : Z;
  IsCancelled : bool;
  SpaceForArrivalTerminals : list ArrivalSpace.t
}.
End DepartingSpace.

Module TerminalSpace.
Record t : Type := mk { TerminalID : Z; DepartingSpaces : list DepartingSpace.t }.
End TerminalSpace.

(** The requests the module issues. *)
Inductive request : Type :=
| API_SCHEDULE_CACHE
| apiScheduleMates
| apiScheduleRoute (departingId arrivingId : Z)
| apiScheduleToday (departingId arrivingId : Z)
| API_VESSELS_CACHE
| API_VESSELS_LOCATIONS
| API_VESSELS_VERBOSE
| API_TERMINALS_CACHE
| API_TERMINALS_SPACE
| API_TERMINALS_VERBOSE.

(** What upstream answers at one instant; [None] is a request that fails.
    The cache-flush dates are given after [wsfDateToTimestamp]. *)
Module Upstream.
Record t : Type := mk {
  scheduleCacheFlushDate : option value;
  mates : option (list Mate.t);
  routeDetails : Z -> Z -> option (list obj);
  scheduleToday : Z -> Z -> option (list Combo.t);
  vesselsCacheFlushDate : option value;
  vesselLocations : option (list VesselLocation.t);
  vesselVerbose : option (list VesselVerbose.t);
  terminalsCacheFlushDate : option value;
  terminalSailingSpace : option (list TerminalSpace.t);
  terminalVerbose : option (list TerminalVerbose.t)
}.
End Upstream.

(** ** The module's state *)

Module FlushDates.
Record t : Type := mk { schedule : value; vessels : value; terminals : value }.
End FlushDates.

Inductive error : Type :=
| TypeError (what : string)
| RequestError (r : request).

(** The module-level variables, the two heaps, the [Crossing] table of the
    relational store with the log of the rows handed to [saveCapacity], the
    log of upstream requests, and the rejections of promises that nothing
    awaits. *)
Record State : Type := mkState {
  cacheFlushDates : FlushDates.t;
  matesByTerminalId : list (Z * list Z);
  vesselsById : gmap Z loc;
  previousCapacityByTerminal : gmap Z (gmap Z (gmap Z Capacity.t));
  terminalsById : gmap Z obj;
  scheduleByTerminal : gmap Z (gmap Z (gmap string Crossing.t));
  vesselHeap : gmap loc obj;
  capacityHeap : gmap loc Capacity.t;
  table : list Capacity.t;
  saved : list Capacity.t;
  requests : list request;
  unhandled : list error
}.

Definition initialState : State :=
  mkState (FlushDates.mk VNull VNull VNull) [] ∅ ∅ ∅ ∅ ∅ ∅ [] [] [] [].

Definition set_cacheFlushDates f (s : State) : State :=
  mkState f (matesByTerminalId s) (vesselsById s) (previousCapacityByTerminal s)
    (terminalsById s) (scheduleByTerminal s) (vesselHeap s) (capacityHeap s)
    (table s) (saved s) (requests s) (unhandled s).

Definition set_matesByTerminalId m (s : State) : State :=
  mkState (cacheFlushDates s) m (vesselsById s) (previousCapacityByTerminal s)
    (terminalsById s) (scheduleByTerminal s) (vesselHeap s) (capacityHeap s)
    (table s) (saved s) (requests s) (unhandled s).

Definition set_vesselsById m (s : State) : State :=
  mkState (cacheFlushDates s) (matesByTerminalId s) m (previousCapacityByTerminal s)
    (terminalsById s) (scheduleByTerminal s) (vesselHeap s) (capacityHeap s)
    (table s) (saved s) (requests s) (unhandled s).

Definition set_previousCapacityByTerminal m (s : State) : State :=
  mkState (cacheFlushDates s) (matesByTerminalId s) (vesselsById s) m
    (terminalsById s) (scheduleByTerminal s) (vesselHeap s) (capacityHeap s)
    (table s) (saved s) (requests s) (unhandled s).

Definition set_terminalsById m (s : State) : State :=
  mkState (cacheFlushDates s) (matesByTerminalId s) (vesselsById s)
    (previousCapacityByTerminal s) m (scheduleByTerminal s) (vesselHeap s)
    (capacityHeap s) (table s) (saved s) (requests s) (unhandled s).

Definition set_scheduleByTerminal m (s : State) : State :=
  mkState (cacheFlushDates s) (matesByTerminalId s) (vesselsById s)
    (previousCapacityByTerminal s) (terminalsById s) m (vesselHeap s)
    (capacityHeap s) (table s) (saved s) (requests s) (unhandled s).

Definition set_vesselHeap h (s : State) : State :=
  mkState (cacheFlushDates s) (matesByTerminalId s) (vesselsById s)
    (previousCapacityByTerminal s) (terminalsById s) (scheduleByTerminal s) h
    (capacityHeap s) (table s) (saved s) (requests s) (unhandled s).

Definition set_capacityHeap h (s : State) : State :=
  mkState (cacheFlushDates s) (matesByTerminalId s) (vesselsById s)
    (previousCapacityByTerminal s) (terminalsById s) (scheduleByTerminal s)
    (vesselHeap s) h (table s) (saved s) (requests s) (unhandled s).

Definition set_table t (s : State) : State :=
  mkState (cacheFlushDates s) (matesByTerminalId s) (vesselsById s)
    (previousCapacityByTerminal s) (terminalsById s) (scheduleByTerminal s)
    (vesselHeap s) (capacityHeap s) t (saved s) (requests s) (unhandled s).

Definition set_saved l (s : State) : State :=
  mkState (cacheFlushDates s) (matesByTerminalId s) (vesselsById s)
    (previousCapacityByTerminal s) (terminalsById s) (scheduleByTerminal s)
    (vesselHeap s) (capacityHeap s) (table s) l (requests s) (unhandled s).

Definition set_requests l (s : State) : State :=
  mkState (cacheFlushDates s) (matesByTerminalId s) (vesselsById s)
    (previousCapacityByTerminal s) (terminalsById s) (scheduleByTerminal s)
    (vesselHeap s) (capacityHeap s) (table s) (saved s) l (unhandled s).

Definition set_unhandled l (s : State) : State :=
  mkState (cacheFlushDates s) (matesByTerminalId s) (vesselsById s)
    (previousCapacityByTerminal s) (terminalsById s) (scheduleByTerminal s)
    (vesselHeap s) (capacityHeap s) (table s) (saved s) (requests s) l.

(** ** Computations: state that survives an exception *)

Inductive outcome (A : Type) : Type :=
| Ok (a : A)
| Throw (e : error).
Arguments Ok {A} a.
Arguments Throw {A} e.

Definition M (A : Type) : Type := State -> outcome A * State.

Definition ret {A} (a : A) : M A := fun s => (Ok a, s).

Definition throw {A} (e : error) : M A := fun s => (Throw e, s).

Definition bind {A B} (c : M A) (k : A -> M B) : M B :=
  fun s =>
    match c s with
    | (Ok a, s') => k a s'
    | (Throw e, s') => (Throw e, s')
    end.

Definition gets {A} (f : State -> A) : M A := fun s => (Ok (f s), s).

Definition modify (f : State -> State) : M unit := fun s => (Ok tt, f s).

Notation "'let!' x ':=' c 'in' k" := (bind c (fun x => k))
  (at level 10, x pattern, c at level 100, k at level 200).
Notation "c ';;;' k" := (bind c (fun _ => k))
  (at level 100, k at level 200, right associativity).

(** [_.each(list, f)] for a callback that may throw: the first exception
    ends the loop. *)
Fixpoint each {A} (l : list A) (f : A -> M unit) : M unit :=
  match l with
  | [] => ret tt
  | x :: rest => f x ;;; each rest f
  end.

(** [await Promise.all(_.map(list, f))] and the series loops: the results
    in order, the first exception rejecting the whole. *)
Fixpoint mapM {A B} (f : A -> M B) (l : list A) : M (list B) :=
  match l with
  | [] => ret []
  | x :: rest =>
      let! y := f x in
      let! ys := mapM f rest in
      ret (y :: ys)
  end.

(** [await request(url, {json: true})]: the request is logged, a failed one
    throws. *)
Definition fetch {A} (r : request) (response : option A) : M A :=
  modify (fun s => set_requests (requests s ++ [r])%list s) ;;;
  match response with
  | Some a => ret a
  | None => throw (RequestError r)
  end.

(** ** Helpers on values and lists *)

(** [a === b] between two values of which at least one was just computed:
    primitives compare by value (NaN equals nothing), two objects are never
    the same reference. *)
Definition strict_eq (a b : value) : bool :=
  match a, b with
  | VUndefined, VUndefined => true
  | VNull, VNull => true
  | VBool x, VBool y => Bool.eqb x y
  | VNum x, VNum y => x =? y
  | VStr x, VStr y => String.eqb x y
  | _, _ => false
  end.

(** [a - b]. *)
Definition js_minus (a b : value) : value :=
  match to_number a, to_number b with
  | Some x, Some y => VNum (x - y)
  | _, _ => VNaN
  end.

(** [v.k]: reading a property of [undefined] or [null] throws, any other
    value that is not an object has no such property. *)
Definition member (v : value) (k : string) : outcome value :=
  match v with
  | VObj o => Ok (prop o k)
  | VUndefined => Throw (TypeError ("Cannot read property of undefined"))
  | VNull => Throw (TypeError ("Cannot read property of null"))
  | _ => Ok VUndefined
  end.

(** [_.toNumber(v)] within the integers: a string that is not an integer
    literal reads as NaN. *)
Definition toNumber (v : value) : value :=
  match v with
  | VStr s =>
      if String.eqb s "" then VNum 0
      else match NilZero.int_of_string s with
           | Some d => VNum (Z.of_int d)
           | None => VNaN
           end
  | _ => match to_number v with Some n => VNum n | None => VNaN end
  end.

(** [_.includes(numbers, v)]: SameValueZero against number literals. *)
Definition includes (numbers : list Z) (v : value) : bool :=
  match v with
  | VNum n => existsb (Z.eqb n) numbers
  | _ => false
  end.

(** [_.sortBy(strings)]: ascending by code units. *)
Fixpoint insert_sorted (k : string) (l : list string) : list string :=
  match l with
  | [] => [k]
  | k' :: rest => if String.leb k k' then k :: l else k' :: insert_sorted k rest
  end.

Definition sortBy (l : list string) : list string :=
  fold_right insert_sorted [] l.

(** [_.indexOf(strings, v)]: strict equality, so only a string can be
    found; -1 when nothing matches. *)
Fixpoint indexOf (l : list string) (v : value) : Z :=
  match l with
  | [] => -1
  | k :: rest =>
      if strict_eq (VStr k) v then 0
      else let i := indexOf rest v in if i <? 0 then -1 else i + 1
  end.

(** [array[i]]: [undefined] outside the array. *)
Definition element (l : list string) (i : Z) : value :=
  if i <? 0 then VUndefined
  else match l !! Z.to_nat i with Some k => VStr k | None => VUndefined end.

(** ** The cache store *)

Definition TERMINAL_DATA_OVERRIDES (id : Z) : option obj :=
  let link url := Some [("location", VObj [("link", VStr url)])] in
  if id =? 5 then
    link "https://www.google.com/maps/place/Clinton+Ferry+Terminal/@47.9750653,-122.3514909,18.57z/data=!4m8!1m2!2m1!1sclinton+ferry!3m4!1s0x0:0xfc1a9b74eba33fab!8m2!3d47.9751021!4d-122.350086"
  else if id =? 13 then
    link "https://www.google.com/maps/place/Lopez+Ferry+Landing/@48.5706056,-122.9007289,14z/data=!4m8!1m2!2m1!1slopez+island+ferry+terminal!3m4!1s0x548581184141c77d:0xb95765067fe72167!8m2!3d48.5706056!4d-122.8834068"
  else if id =? 15 then
    link "https://www.google.com/maps/place/Orcas+Island+Ferry+Terminal/@48.597361,-122.9458067,17z/data=!3m1!4b1!4m5!3m4!1s0x548587ff7781be87:0xb6eeeac287820785!8m2!3d48.597361!4d-122.9436127"
  else if id =? 17 then
    link "https://www.google.com/maps/place/Port+Townsend+Terminal/@48.1121633,-122.7627137,17z/data=!3m1!4b1!4m5!3m4!1s0x548fedcf67a53163:0xd61a6301e962de31!8m2!3d48.1121633!4d-122.7605197"
  else if id =? 18 then
    link "https://www.google.com/maps/place/https://www.google.com/maps/place/Shaw+Island+Terminal/@48.584393,-122.9321401,17z/data=!3m1!4b1!4m5!3m4!1s0x548587290b11c709:0xb4bf5a7be8d73b0d!8m2!3d48.584393!4d-122.9299461linton+Ferry+Terminal/@47.9750653,-122.3514909,18.57z/data=!4m8!1m2!2m1!1sclinton+ferry!3m4!1s0x0:0xfc1a9b74eba33fab!8m2!3d47.9751021!4d-122.350086"
  else None.

(** [matesByTerminalId] is enumerated by the series loops; its integer
    property names come in ascending order. *)
Fixpoint initMates (id : Z) (mates : list (Z * list Z)) : list (Z * list Z) :=
  match mates with
  | [] => [(id, [])]
  | (k, ms) :: rest =>
      if k =? id then mates
      else if id <? k then (id, []) :: mates
      else (k, ms) :: initMates id rest
  end.

Fixpoint pushMate (id mateId : Z) (mates : list (Z * list Z)) : list (Z * list Z) :=
  match mates with
  | [] => []
  | (k, ms) :: rest =>
      if k =? id then (k, (ms ++ [mateId])%list) :: rest
      else (k, ms) :: pushMate id mateId rest
  end.

Definition addMate (id mateId : Z) (mates : list (Z * list Z)) : list (Z * list Z) :=
  pushMate id mateId (initMates id mates).

(** The cached vessel object of [id], when there is one. *)
Definition vesselObject (s : State) (id : Z) : option obj :=
  vesselsById s !! id ≫= (fun l => vesselHeap s !! l).

Definition initVessel (id : Z) : M unit :=
  fun s =>
    match vesselsById s !! id with
    | Some _ => (Ok tt, s)
    | None =>
        let l := fresh (dom (vesselHeap s)) in
        (Ok tt, set_vesselsById (<[id := l]> (vesselsById s))
                  (set_vesselHeap (<[l := []]> (vesselHeap s)) s))
    end.

(** merge the given data into the vessel cache *)
Definition assignVessel (id : Z) (data : obj) : M unit :=
  initVessel id ;;;
  modify (fun s =>
    match vesselsById s !! id with
    | Some l => set_vesselHeap (alter (fun o => assign o data) l (vesselHeap s)) s
    | None => s
    end).

Definition initTerminal (id : Z) : M unit :=
  modify (fun s =>
    match terminalsById s !! id with
    | Some _ => s
    | None => set_terminalsById (<[id := []]> (terminalsById s)) s
    end).

(** merge the given data into the terminal cache *)
Definition assignTerminal (id : Z) (data : obj) : M unit :=
  initTerminal id ;;;
  modify (fun s =>
    set_terminalsById
      (alter (fun o =>
                let o' := assign o data in
                match TERMINAL_DATA_OVERRIDES id with
                | Some overrides => merge o' overrides
                | None => o'
                end) id (terminalsById s)) s).

(** The readers below are the part of each accessor that follows its
    [await]; the wait itself is modelled with the refresh promises further
    down. *)
Definition getMates : M (list (Z * list Z)) := gets matesByTerminalId.

(** [_.get(scheduleByTerminal, [departureId, arrivalId])], an object
    without properties when there is none. *)
Definition routeSchedule (s : State) (departureId arrivalId : Z) : gmap string Crossing.t :=
  default ∅ (scheduleByTerminal s !! departureId
               ≫= (fun mates : gmap Z (gmap string Crossing.t) => mates !! arrivalId)).

Fixpoint insert_by_time (c : Crossing.t) (l : list Crossing.t) : list Crossing.t :=
  match l with
  | [] => [c]
  | c' :: rest =>
      if Crossing.time c' <=? Crossing.time c then c' :: insert_by_time c rest
      else c :: l
  end.

(** [_.sortBy(_.map(schedule), 'time')]. *)
Definition getSchedule (departingId arrivingId : Z) : M (list Crossing.t) :=
  gets (fun s =>
    fold_left (fun sorted kc => insert_by_time kc.2 sorted)
      (map_to_list (routeSchedule s departingId arrivingId)) []).

Definition getVessels : M (gmap Z loc) := gets vesselsById.

(** fetches a vessel from the cache: the cached object itself, or with
    [resetDelay] a deep clone into which [{departureDelta: null}] is merged. *)
Definition getVessel (id : Z) (resetDelay : bool) : M (option loc) :=
  fun s =>
    let vessel := vesselsById s !! id in
    if resetDelay then
      let clone := default [] (vessel ≫= (fun l => vesselHeap s !! l)) in
      let l' := fresh (dom (vesselHeap s)) in
      (Ok (Some l'),
       set_vesselHeap (<[l' := merge clone [("departureDelta", VNull)]]> (vesselHeap s)) s)
    else (Ok vessel, s).

Definition getTerminals : M (gmap Z obj) := gets terminalsById.

Definition getTerminal (id : Z) : M (option obj) :=
  gets (fun s => terminalsById s !! id).

(** ** The relational store

    The [Crossing] model (models/crossing) and its database (lib/db) are
    not part of this module.  The table is a list of rows with at most one
    row per key; a write lands when it is issued. *)

Definition same_key (a b : Capacity.t) : bool :=
  (Capacity.arrivalId a =? Capacity.arrivalId b)
    && (Capacity.departureId a =? Capacity.departureId b)
    && (Capacity.departureTime a =? Capacity.departureTime b).

(** Modelled from the spec: [Crossing.findOne({where})] of the absent
    model, the row of the key (departureId, arrivalId, departureTime) when
    the table has one. *)
Definition findOne (where_ : Capacity.t) (rows : list Capacity.t) : option Capacity.t :=
  List.find (same_key where_) rows.

(** Modelled from the spec: [instance.update(capacity)] on the row found
    and [Crossing.create(capacity)] otherwise, of the absent model: the
    upsert by key. *)
Fixpoint upsert (capacity : Capacity.t) (rows : list Capacity.t) : list Capacity.t :=
  match rows with
  | [] => [capacity]
  | row :: rest =>
      if same_key capacity row then capacity :: rest else row :: upsert capacity rest
  end.

(** Modelled from the spec: [Crossing.findAll({where})] of the absent
    model, the query of the rows whose departure time is in a range. *)
Definition findAll (where_ : Capacity.t -> bool) : M (list Capacity.t) :=
  gets (fun s => List.filter where_ (table s)).

(** [saveCapacity(capacity)]: update the row of the same key or create it. *)
Definition saveCapacity (capacity : loc) : M unit :=
  modify (fun s =>
    match capacityHeap s !! capacity with
    | Some row => set_saved (saved s ++ [row])%list (set_table (upsert row (table s)) s)
    | None => s
    end).

(** A new capacity instance ([Crossing.build], or a row read back). *)
Definition newCapacity (model : Capacity.t) : M loc :=
  fun s =>
    let l := fresh (dom (capacityHeap s)) in
    (Ok l, set_capacityHeap (<[l := model]> (capacityHeap s)) s).

(** ** Crossings in the schedule map *)

(** [_.get(scheduleByTerminal, [departureId, arrivalId, key])]. *)
Definition crossingAt (s : State) (departureId arrivalId : Z) (key : string)
  : option Crossing.t :=
  routeSchedule s departureId arrivalId !! key.

(** [_.setWith(scheduleByTerminal, [departureId, arrivalId], schedule, Object)]. *)
Definition setRouteSchedule (departureId arrivalId : Z) (schedule : gmap string Crossing.t)
  (byTerminal : gmap Z (gmap Z (gmap string Crossing.t)))
  : gmap Z (gmap Z (gmap string Crossing.t)) :=
  <[departureId := <[arrivalId := schedule]> (default ∅ (byTerminal !! departureId))]>
    byTerminal.

(** [crossing.capacity = capacity] on the crossing found at the key; there
    is no crossing to write to when the lookup gave [undefined]. *)
Definition setCrossingCapacity (departureId arrivalId : Z) (key : string) (capacity : loc)
  : M unit :=
  fun s =>
    match crossingAt s departureId arrivalId key with
    | None => (Throw (TypeError "Cannot set property 'capacity' of undefined"), s)
    | Some crossing =>
        (Ok tt,
         set_scheduleByTerminal
           (setRouteSchedule departureId arrivalId
              (<[key := Crossing.with_capacity capacity crossing]>
                 (routeSchedule s departureId arrivalId))
              (scheduleByTerminal s)) s)
    end.

(** ** The refreshers *)

Section Refresh.

(** Calendar arithmetic of luxon in the zone of the server, on seconds:
    [DateTime.fromSeconds(t).minus({weeks: 1}).toSeconds()]. *)
Variable minusWeek : Z -> Z.

(** [_.round(DateTime.local().minus({days: 1}).toSeconds())] when the wall
    clock shows [now] milliseconds. *)
Variable yesterday : Z -> Z.

(** [getCameras(id)] of lib/wsf-cameras. *)
Variable getCameras : Z -> value.

(** *** Long cycle *)

Definition backfillCrossings (now : Z) : M unit :=
  let! crossings :=
    findAll (fun capacity => yesterday now <? Capacity.departureTime capacity) in
  each crossings (fun row =>
    let! capacity := newCapacity row in
    setCrossingCapacity (Capacity.departureId row) (Capacity.arrivalId row)
      (string_of_Z (Capacity.departureTime row)) capacity).

(** [_.keyBy(schedule, 'time')]. *)
Definition keyBy (schedule : list Crossing.t) : gmap string Crossing.t :=
  fold_left (fun m c => <[string_of_Z (Crossing.time c) := c]> m) schedule ∅.

(** [_.setWith(previousCapacityByTerminal, [departureId, arrivalId,
    departureTime], crossing, Object)]. *)
Definition setPreviousCapacity (crossing : Capacity.t)
  (byTerminal : gmap Z (gmap Z (gmap Z Capacity.t)))
  : gmap Z (gmap Z (gmap Z Capacity.t)) :=
  let mates := default ∅ (byTerminal !! Capacity.departureId crossing) in
  let times := default ∅ (mates !! Capacity.arrivalId crossing) in
  <[Capacity.departureId crossing :=
      <[Capacity.arrivalId crossing :=
          <[Capacity.departureTime crossing := crossing]> times]> mates]> byTerminal.

(** [_.get(previousCapacityByTerminal, [departureId, mateId, time])]. *)
Definition previousCapacityAt (byTerminal : gmap Z (gmap Z (gmap Z Capacity.t)))
  (departureId mateId time : Z) : option Capacity.t :=
  match byTerminal !! departureId with
  | Some mates =>
      match mates !! mateId with
      | Some times => times !! time
      | None => None
      end
  | None => None
  end.

Definition hasPreviousCapacity (byTerminal : gmap Z (gmap Z (gmap Z Capacity.t)))
  (terminalId mateId : Z) : bool :=
  match byTerminal !! terminalId with
  | Some mates => bool_decide (is_Some (mates !! mateId))
  | None => false
  end.

(** The crossing built from one element of [scheduleData.Times], given what
    the callback read from [seenVessels] before its first [await]. *)
Definition scheduledCrossing (now : Z) (started : Departure.t * bool) : M Crossing.t :=
  let departure := started.1 in
  let isFirstOfVessel := started.2 in
  let time := Departure.DepartingTime departure in
  let hasPassed := time * 1000 <? now in
  let vesselId := Departure.VesselID departure in
  let! vessel := getVessel vesselId isFirstOfVessel in
  ret (Crossing.mk
         (includes [1; 3] (Departure.LoadingRule departure))
         (includes [2; 3] (Departure.LoadingRule departure))
         hasPassed
         time
         vessel
         None
         EstimateUnset).

(** The schedule of one terminal pair.  The callbacks mapped over
    [scheduleData.Times] are async: each runs up to its first [await] (the
    call of [getVessel]) while [_.map] walks the array, so each reads
    [seenVessels] before any of them has pushed to it. *)
Definition updateRoute (now : Z) (upstream : Upstream.t) (terminalId mateId : Z) : M unit :=
  let! response :=
    fetch (apiScheduleToday terminalId mateId)
      (Upstream.scheduleToday upstream terminalId mateId) in
  let! times :=
    match response with
    | scheduleData :: _ => ret (Combo.Times scheduleData)
    | [] => throw (TypeError "Cannot read property 'Times' of undefined")
    end in
  let seenVessels : list Z := [] in
  let started :=
    map (fun departure =>
           (departure,
            negb (existsb (Z.eqb (Departure.VesselID departure)) seenVessels)))
        times in
  let! schedule := mapM (scheduledCrossing now) started in
  let! known := gets (fun s =>
    hasPreviousCapacity (previousCapacityByTerminal s) terminalId mateId) in
  (if known then ret tt
   else
     match schedule with
     | [] => throw (TypeError "Cannot read property 'time' of undefined")
     | first :: _ =>
         let startTime := minusWeek (Crossing.time first) in
         let endTime := minusWeek (Crossing.time (List.last schedule first)) in
         let! crossings :=
           findAll (fun row =>
                      (startTime <=? Capacity.departureTime row)
                        && (Capacity.departureTime row <=? endTime)) in
         modify (fun s =>
           set_previousCapacityByTerminal
             (fold_left (fun m crossing => setPreviousCapacity crossing m)
                        crossings (previousCapacityByTerminal s)) s)
     end) ;;;
  modify (fun s =>
    set_scheduleByTerminal
      (setRouteSchedule terminalId mateId (keyBy schedule) (scheduleByTerminal s)) s).

Definition updateSchedule (now : Z) (upstream : Upstream.t) : M unit :=
  let! cacheFlushDate :=
    fetch API_SCHEDULE_CACHE (Upstream.scheduleCacheFlushDate upstream) in
  let! known := gets (fun s => FlushDates.schedule (cacheFlushDates s)) in
  if strict_eq cacheFlushDate known then ret tt
  else
    modify (fun s =>
      set_cacheFlushDates
        (FlushDates.mk cacheFlushDate
           (FlushDates.vessels (cacheFlushDates s))
           (FlushDates.terminals (cacheFlushDates s))) s) ;;;
    let! mates := fetch apiScheduleMates (Upstream.mates upstream) in
    modify (set_matesByTerminalId []) ;;;
    each mates (fun mate =>
      modify (fun s =>
        set_matesByTerminalId
          (addMate (Mate.DepartingTerminalID mate) (Mate.ArrivingTerminalID mate)
             (matesByTerminalId s)) s)) ;;;
    let! byTerminal := gets matesByTerminalId in
    each byTerminal (fun entry =>
      each entry.2 (fun mateId => updateRoute now upstream entry.1 mateId)) ;;;
    backfillCrossings now.

(** The object literal [updateVessels] builds from one upstream vessel. *)
Definition vesselStatic (id : Z) (vessel : obj) : outcome obj :=
  match member (prop vessel "Class") "ClassID" with
  | Throw e => Throw e
  | Ok classId =>
      Ok [ ("abbreviation", prop vessel "VesselAbbrev");
           ("beam", prop vessel "Beam");
           ("classId", classId);
           ("hasCarDeckRestroom", prop vessel "CarDeckRestroom");
           ("hasElevator", prop vessel "Elevator");
           ("hasGalley", prop vessel "MainCabinGalley");
           ("hasRestroom",
            js_or (prop vessel "CarDeckRestroom") (prop vessel "MainCabinRestroom"));
           ("hasWiFi", prop vessel "PublicWifi");
           ("horsepower", prop vessel "Horsepower");
           ("id", VNum id);
           ("inMaintenance", VBool (is_number (prop vessel "status") 2));
           ("inService", VBool (is_number (prop vessel "status") 1));
           ("info", VObj [("ada", prop vessel "ADAInfo")]);
           ("isAdaAccessible", prop vessel "ADAAccessible");
           ("length", prop vessel "Length");
           ("maxClearance", prop vessel "TallDeckClearance");
           ("name", prop vessel "VesselName");
           ("passengerCapacity", prop vessel "MaxPassengerCount");
           ("speed", prop vessel "SpeedInKnots");
           ("tallVehicleCapacity", prop vessel "TallDeckSpace");
           ("vehicleCapacity",
            js_plus (prop vessel "RegDeckSpace") (prop vessel "TallDeckSpace"));
           ("weight", prop vessel "Tonnage");
           ("yearBuilt", prop vessel "YearBuilt");
           ("yearRebuilt", prop vessel "YearRebuilt") ]
  end.

Definition updateVessels (upstream : Upstream.t) : M unit :=
  let! cacheFlushDate :=
    fetch API_VESSELS_CACHE (Upstream.vesselsCacheFlushDate upstream) in
  let! known := gets (fun s => FlushDates.vessels (cacheFlushDates s)) in
  if strict_eq cacheFlushDate known then ret tt
  else
    modify (fun s =>
      set_cacheFlushDates
        (FlushDates.mk (FlushDates.schedule (cacheFlushDates s))
           cacheFlushDate
           (FlushDates.terminals (cacheFlushDates s))) s) ;;;
    let! vessels := fetch API_VESSELS_VERBOSE (Upstream.vesselVerbose upstream) in
    each vessels (fun vessel =>
      let id := VesselVerbose.VesselID vessel in
      match vesselStatic id (VesselVerbose.data vessel) with
      | Ok data => assignVessel id data
      | Throw e => throw e
      end).

(** The object literal [updateTerminals] builds from one upstream terminal. *)
Definition terminalStatic (terminal : TerminalVerbose.t) : obj :=
  let id := TerminalVerbose.TerminalID terminal in
  let data := TerminalVerbose.data terminal in
  [ ("abbreviation", prop data "TerminalAbbrev");
    ("bulletins",
     VArr (map (fun bulletin =>
                  VObj [ ("title", Bulletin.BulletinTitle bulletin);
                         ("description", Bulletin.BulletinText bulletin);
                         ("date", Bulletin.BulletinLastUpdated bulletin) ])
               (TerminalVerbose.Bulletins terminal)));
    ("cameras", getCameras id);
    ("hasElevator", prop data "Elevator");
    ("hasOverheadLoading", prop data "OverheadPassengerLoading");
    ("hasRestroom", prop data "Restroom");
    ("hasWaitingRoom", prop data "WaitingRoom");
    ("hasFood", prop data "FoodService");
    ("id", VNum id);
    ("info",
     VObj [ ("ada", prop data "AdaInfo");
            ("airport", js_plus (prop data "AirportInfo") (prop data "AirportShuttleInfo"));
            ("bicycle", prop data "BikeInfo");
            ("construction", prop data "ConstructionInfo");
            ("food", prop data "FoodServiceInfo");
            ("lost", prop data "LostAndFoundInfo");
            ("motorcycle", prop data "MotorcycleInfo");
            ("parking", js_plus (prop data "ParkingInfo") (prop data "ParkingShuttleInfo"));
            ("security", prop data "SecurityInfo");
            ("train", prop data "TrainInfo");
            ("truck", prop data "TruckInfo") ]);
    ("location",
     VObj [ ("link", prop data "MapLink");
            ("latitude", prop data "Latitude");
            ("longitude", prop data "Longitude");
            ("address",
             VObj [ ("line1", prop data "AddressLineOne");
                    ("line2", prop data "AddressLineTwo");
                    ("city", prop data "City");
                    ("state", prop data "State");
                    ("zip", prop data "ZipCode") ]) ]);
    ("name", prop data "TerminalName");
    ("waitTimes",
     VArr (map (fun waitTime =>
                  VObj [ ("title", WaitTime.RouteName waitTime);
                         ("description", WaitTime.WaitTimeNotes waitTime);
                         ("time", WaitTime.WaitTimeLastUpdated waitTime) ])
               (TerminalVerbose.WaitTimes terminal))) ].

(** One mate of a terminal with the descriptor of the route to it. *)
Definition mateWithRoute (upstream : Upstream.t) (id mateId : Z) : M value :=
  let! mate := gets (fun s => omit "mates" (default [] (terminalsById s !! mateId))) in
  let! routes :=
    fetch (apiScheduleRoute id mateId) (Upstream.routeDetails upstream id mateId) in
  match routes with
  | [] => throw (TypeError "Cannot read property 'RouteID' of undefined")
  | route :: _ =>
      ret (VObj (set_field "route"
                   (VObj [ ("id", prop route "RouteID");
                           ("abbreviation", prop route "RouteAbbrev");
                           ("description", prop route "Description");
                           ("crossingTime", toNumber (prop route "CrossingTime")) ])
                   mate))
  end.

Definition updateTerminals (upstream : Upstream.t) : M unit :=
  let! cacheFlushDate :=
    fetch API_TERMINALS_CACHE (Upstream.terminalsCacheFlushDate upstream) in
  let! known := gets (fun s => FlushDates.terminals (cacheFlushDates s)) in
  if strict_eq cacheFlushDate known then ret tt
  else
    modify (fun s =>
      set_cacheFlushDates
        (FlushDates.mk (FlushDates.schedule (cacheFlushDates s))
           (FlushDates.vessels (cacheFlushDates s))
           cacheFlushDate) s) ;;;
    let! terminals := fetch API_TERMINALS_VERBOSE (Upstream.terminalVerbose upstream) in
    each terminals (fun terminal =>
      assignTerminal (TerminalVerbose.TerminalID terminal) (terminalStatic terminal)) ;;;
    let! matesByTerminalId := getMates in
    each matesByTerminalId (fun entry =>
      let! matesWithRoute := mapM (mateWithRoute upstream entry.1) entry.2 in
      assignTerminal entry.1 [("mates", VArr matesWithRoute)]).

(** set cache with all long-lived data from API *)
Definition updateCache (now : Z) (upstream : Upstream.t) : M unit :=
  updateVessels upstream ;;;
  updateSchedule now upstream ;;;
  updateTerminals upstream.

(** *** Short cycle *)

(** One vessel of the location feed at wall clock [now]. *)
Definition recordVesselTiming (now : Z) (vessel : VesselLocation.t) : M unit :=
  let id := VesselLocation.VesselID vessel in
  let departedTime := VesselLocation.LeftDock vessel in
  let departureTime := VesselLocation.ScheduledDeparture vessel in
  let estimatedArrivalTime := VesselLocation.Eta vessel in
  let! cached := gets (fun s => vesselObject s id) in
  let departureDelta :=
    if truthy departureTime && truthy departedTime
    then js_minus departedTime departureTime
    else match cached with
         | Some previous => prop previous "departureDelta"
         | None => VUndefined
         end in
  let isAtDock := VesselLocation.AtDock vessel in
  let previousVessel := cached in
  let! dockedTime :=
    if truthy isAtDock then
      match previousVessel with
      | None => throw (TypeError "Cannot read property 'isAtDock' of undefined")
      | Some previous =>
          if negb (truthy (prop previous "isAtDock"))
          then ret (VDate now)
          else ret VNull
      end
    else ret VNull in
  let info :=
    match cached with
    | Some previous =>
        match prop_or previous "info" (VObj []) with
        | VObj fields => fields
        | _ => []
        end
    | None => []
    end in
  let data := VesselLocation.data vessel in
  assignVessel id
    [ ("arrivingTerminalId", prop data "ArrivingTerminalID");
      ("departingTerminalId", prop data "DepartingTerminalID");
      ("departedTime", departedTime);
      ("departureDelta", departureDelta);
      ("dockedTime", dockedTime);
      ("estimatedArrivalTime", estimatedArrivalTime);
      ("heading", prop data "Heading");
      ("id", VNum id);
      ("isAtDock", VesselLocation.AtDock vessel);
      ("location",
       VObj [ ("latitude", prop data "Latitude");
              ("longitude", prop data "Longitude") ]);
      ("mmsi", prop data "Mmsi");
      ("speed", prop data "Speed");
      ("info", VObj (set_field "crossing" (prop data "EtaBasis") info)) ].

Definition recordTiming (now : Z) (upstream : Upstream.t) : M unit :=
  let! vessels := fetch API_VESSELS_LOCATIONS (Upstream.vesselLocations upstream) in
  each vessels (recordVesselTiming now).

(** [_.keys(schedule)]: the property names, which are strings. *)
Definition keys (schedule : gmap string Crossing.t) : list string :=
  (map_to_list schedule).*1.

(** The capacity object of the departure before [departureTime] on the
    route, or [null].  [recordCapacity] passes the departure time of the
    reading, a number; [departureTimes] holds property names. *)
Definition getPreviousCapacity (s : State) (departureId arrivalId : Z) (departureTime : value)
  : option loc :=
  let schedule := routeSchedule s departureId arrivalId in
  let departureTimes := sortBy (keys schedule) in
  let departureIndex := indexOf departureTimes departureTime in
  if departureIndex =? 0 then None
  else
    let previousDepartureTime := element departureTimes (departureIndex - 1) in
    match schedule !! to_string previousDepartureTime with
    | Some crossing => Crossing.capacity crossing
    | None => None
    end.

(** The readings of the space feed in the order the nested loops visit
    them. *)
Definition readings (terminals : list TerminalSpace.t)
  : list (TerminalSpace.t * DepartingSpace.t * ArrivalSpace.t) :=
  flat_map (fun terminal =>
    flat_map (fun departure =>
      map (fun spaceData => (terminal, departure, spaceData))
          (DepartingSpace.SpaceForArrivalTerminals departure))
      (TerminalSpace.DepartingSpaces terminal))
    terminals.

(** [_.get(vessel, 'departureDelta', null)] as the column of the model. *)
Definition departureDeltaOf (vessel : obj) : option Z :=
  match prop_or vessel "departureDelta" VNull with
  | VNum delta => Some delta
  | _ => None
  end.

(** The model [recordCapacity] builds from one reading and the cached
    vessel of the departure. *)
Definition readingModel (vessel : obj)
  (reading : TerminalSpace.t * DepartingSpace.t * ArrivalSpace.t) : Capacity.t :=
  let '(terminal, departure, spaceData) := reading in
  let departureTime := DepartingSpace.Departure departure in
  let arrivalId := ArrivalSpace.TerminalID spaceData in
  let departureId := TerminalSpace.TerminalID terminal in
  Capacity.mk arrivalId departureId (departureDeltaOf vessel) departureTime
    (ArrivalSpace.DriveUpSpaceCount spaceData)
    (ArrivalSpace.DisplayDriveUpSpace spaceData)
    (ArrivalSpace.DisplayReservableSpace spaceData)
    (DepartingSpace.IsCancelled departure)
    (ArrivalSpace.ReservableSpaceCount spaceData)
    (ArrivalSpace.MaxSpaceCount spaceData).

(** The callback of [recordCapacity] up to its [await]: build the
    capacity, attach it to the crossing of the same key, start saving it
    and look the previous capacity up.  It hands the two objects to its
    continuation. *)
Definition attachReading (reading : TerminalSpace.t * DepartingSpace.t * ArrivalSpace.t)
  : M (loc * option loc) :=
  let! vessel := gets (fun s =>
    default [] (vesselObject s (DepartingSpace.VesselID reading.1.2))) in
  let model := readingModel vessel reading in
  let departureTime := Capacity.departureTime model in
  let arrivalId := Capacity.arrivalId model in
  let departureId := Capacity.departureId model in
  let! capacity := newCapacity model in
  setCrossingCapacity departureId arrivalId (string_of_Z departureTime) capacity ;;;
  saveCapacity capacity ;;;
  let! previousCapacity := gets (fun s =>
    getPreviousCapacity s departureId arrivalId (VNum departureTime)) in
  ret (capacity, previousCapacity).

(** The continuation of the callback: when the next run is not empty,
    report the previous run as full. *)
Definition supersede (now : Z) (pending : loc * option loc) : M unit :=
  let '(capacity, previousCapacity) := pending in
  match previousCapacity with
  | None => ret tt
  | Some previous =>
      let! heap := gets capacityHeap in
      match heap !! previous, heap !! capacity with
      | Some previousRow, Some row =>
          if negb (hasPassed now previousRow)
             && negb (isFull previousRow)
             && negb (isEmpty row)
          then
            modify (fun s =>
              set_capacityHeap
                (<[previous := Capacity.with_counts 0 0 previousRow]> (capacityHeap s)) s) ;;;
            saveCapacity previous
          else ret tt
      | _, _ => ret tt
      end
  end.

(** The callbacks are async and nothing awaits them: an exception in one
    rejects its own promise and the loops go on. *)
Fixpoint startAll (l : list (TerminalSpace.t * DepartingSpace.t * ArrivalSpace.t))
  : M (list (loc * option loc)) :=
  match l with
  | [] => ret []
  | reading :: rest =>
      fun s =>
        match attachReading reading s with
        | (Ok pending, s') =>
            (let! others := startAll rest in ret (pending :: others)) s'
        | (Throw e, s') =>
            startAll rest (set_unhandled (unhandled s' ++ [e])%list s')
        end
  end.

Definition recordCapacity (now : Z) (upstream : Upstream.t) : M unit :=
  let! terminals :=
    fetch API_TERMINALS_SPACE (Upstream.terminalSailingSpace upstream) in
  let! pending := startAll (readings terminals) in
  each pending (supersede now).

(** One reading from the callback's start to its end. *)
Definition processReading (now : Z)
  (reading : TerminalSpace.t * DepartingSpace.t * ArrivalSpace.t) : M unit :=
  let! pending := attachReading reading in
  supersede now pending.

Definition estimateOf (shadow : gmap Z (gmap Z (gmap Z Capacity.t)))
  (departureId mateId : Z) (crossing : Crossing.t) : Estimate :=
  let previousDepartureTime := minusWeek (Crossing.time crossing) in
  match previousCapacityAt shadow departureId mateId previousDepartureTime with
  | Some previousCapacity =>
      EstimateOf (Capacity.driveUpCapacity previousCapacity)
                 (Capacity.reservableCapacity previousCapacity)
  | None => EstimateNull
  end.

Definition updateEstimates : M unit :=
  modify (fun s =>
    set_scheduleByTerminal
      (map_imap (fun departureId (mates : gmap Z (gmap string Crossing.t)) =>
         Some (map_imap (fun mateId (schedule : gmap string Crossing.t) =>
           Some ((fun crossing =>
                    Crossing.with_estimate
                      (estimateOf (previousCapacityByTerminal s) departureId mateId crossing)
                      crossing) <$> schedule)) mates))
         (scheduleByTerminal s)) s).

Definition updateCrossings (now : Z) (upstream : Upstream.t) : M unit :=
  recordTiming now upstream ;;;
  recordCapacity now upstream ;;;
  updateEstimates.

End Refresh.

(** ** The refresh promises and the accessors that wait for them

    Time is counted in turns of the event loop.  [history t] is the state of
    the module at turn [t]; a promise is known by the turn at which it
    settles. *)

Module Async.

Inductive promise : Type :=
| Never                      (* new Promise(() => {}) *)
| SettlesAt (turn : nat).    (* the promise of a refresh that ends at [turn] *)

(** The [updateProgress] object: its own properties. *)
Definition progress : Type := list (string * promise).

Definition updateProgress : progress :=
  [("schedule", Never); ("vessels", Never); ("terminals", Never)].

(** [updateProgress.name]: [None] is [undefined]. *)
Fixpoint read (p : progress) (name : string) : option promise :=
  match p with
  | [] => None
  | (k, v) :: rest => if String.eqb k name then Some v else read rest name
  end.

(** [updateProgress.name = promise], as [updateCache] does when it starts
    the refresh of a family. *)
Fixpoint write (name : string) (v : promise) (p : progress) : progress :=
  match p with
  | [] => [(name, v)]
  | (k, v') :: rest =>
      if String.eqb k name then (k, v) :: rest else (k, v') :: write name v rest
  end.

(** [await v] at turn [now]: the turn at which the caller goes on, [None]
    when it never does.  A value that is not a promise is not waited for. *)
Definition await (v : option promise) (now : nat) : option nat :=
  match v with
  | None => Some now
  | Some Never => None
  | Some (SettlesAt turn) => Some (Nat.max turn now)
  end.

(** An accessor called at turn [now]: it awaits the property [name] of
    [updateProgress], then reads the module state of the turn at which it
    goes on. *)
Definition accessor {A} (name : string) (reader : M A)
  (p : progress) (history : nat -> State) (now : nat) : option (outcome A) :=
  match await (read p name) now with
  | Some turn => Some (reader (history turn)).1
  | None => None
  end.

(** The names [updateCache] assigns to: [updateProgress.vessels], then
    [updateProgress.schedule], then [updateProgress.terminals], each with
    the promise of the refresh it starts. *)
Definition families : list string := ["vessels"; "schedule"; "terminals"].

(** The values [updateProgress] takes over the life of the process. *)
Inductive reachable : progress -> Prop :=
| reachable_initially : reachable updateProgress
| reachable_refresh (name : string) (turn : nat) (p : progress) :
    name ∈ families -> reachable p -> reachable (write name (SettlesAt turn) p).

Definition getMates : progress -> (nat -> State) -> nat -> option (outcome (list (Z * list Z))) :=
  accessor "schedule" getMates.

Definition getSchedule (departingId arrivingId : Z)
  : progress -> (nat -> State) -> nat -> option (outcome (list Crossing.t)) :=
  accessor "schedule" (getSchedule departingId arrivingId).

Definition getVessels : progress -> (nat -> State) -> nat -> option (outcome (gmap Z loc)) :=
  accessor "vesels" getVessels.

Definition getVessel (id : Z) (resetDelay : bool)
  : progress -> (nat -> State) -> nat -> option (outcome (option loc)) :=
  accessor "vesels" (getVessel id resetDelay).

Definition getTerminals : progress -> (nat -> State) -> nat -> option (outcome (gmap Z obj)) :=
  accessor "terminals" getTerminals.

Definition getTerminal (id : Z)
  : progress -> (nat -> State) -> nat -> option (outcome (option obj)) :=
  accessor "terminals" (getTerminal id).

End Async.

(** ** Invariant of the schedule map *)

(** A route schedule as [_.keyBy(schedule, 'time')] builds it: the name of
    each property is the decimal string of the time of its crossing. *)
Definition keyedByTime (schedule : gmap string Crossing.t) : Prop :=
  forall key crossing,
    schedule !! key = Some crossing -> key = string_of_Z (Crossing.time crossing).

(** Every route schedule of the state is keyed by the times of its
    crossings. *)
Definition wellKeyed (s : State) : Prop :=
  forall departureId arrivalId, keyedByTime (routeSchedule s departureId arrivalId).

(** A computation that keeps a property of the state, whether it returns
    or throws. *)
Definition preserves (P : State -> Prop) {A} (c : M A) : Prop :=
  forall s, P s -> P (c s).2.

(** ** Vocabulary of the further properties *)

(** [matesByTerminalId[id]]. *)
Definition lookupMates (id : Z) (mates : list (Z * list Z)) : option (list Z) :=
  snd <$> List.find (fun entry => entry.1 =? id) mates.

(** The arriving terminals upstream lists for the departing terminal [id],
    in its order; [None] when it lists none. *)
Definition arrivalsOf (id : Z) (mates : list Mate.t) : option (list Z) :=
  match List.filter (fun mate => Mate.DepartingTerminalID mate =? id) mates with
  | [] => None
  | listed => Some (map Mate.ArrivingTerminalID listed)
  end.


(** The names of the properties [updateVessels] assigns to a vessel. *)
Definition staticNames : list string :=
  ["abbreviation"; "beam"; "classId"; "hasCarDeckRestroom"; "hasElevator";
   "hasGalley"; "hasRestroom"; "hasWiFi"; "horsepower"; "id"; "inMaintenance";
   "inService"; "info"; "isAdaAccessible"; "length"; "maxClearance"; "name";
   "passengerCapacity"; "speed"; "tallVehicleCapacity"; "vehicleCapacity";
   "weight"; "yearBuilt"; "yearRebuilt"].

(** The names of the properties [recordTiming] assigns to a vessel. *)
Definition timingNames : list string :=
  ["arrivingTerminalId"; "departingTerminalId"; "departedTime"; "departureDelta";
   "dockedTime"; "estimatedArrivalTime"; "heading"; "id"; "isAtDock"; "location";
   "mmsi"; "speed"; "info"].

(** The object cached for vessel [id] is still the one at [l], and it holds
    what [o] held at every property outside [names]. *)
Definition keepsOutside (names : list string) (id : Z) (l : loc) (o : obj) (s : State) : Prop :=
  vesselsById s !! id = Some l
  /\ exists o', vesselHeap s !! l = Some o'
       /\ forall k, k ∉ names -> get_field o' k = get_field o k.

(** Every cached vessel has its object in the heap, and no two ids share
    an object. *)
Definition vesselsWf (s : State) : Prop :=
  forall id l, vesselsById s !! id = Some l ->
    is_Some (vesselHeap s !! l)
    /\ forall id', vesselsById s !! id' = Some l -> id' = id.

(** The ids of an index in ascending order, each once: the order in which
    the series loops visit them. *)
Fixpoint ascending (lower : option Z) (mates : list (Z * list Z)) : Prop :=
  match mates with
  | [] => True
  | (k, _) :: rest =>
      match lower with Some b => b < k | None => True end /\ ascending (Some k) rest
  end.

(** The order of a schedule as [getSchedule] returns it. *)
Definition byTime (a b : Crossing.t) : Prop := Crossing.time a <= Crossing.time b.

(** What a crossing of a refreshed schedule is, with respect to the state
    [s] before the refresh and [s'] after it: it has no capacity and no
    estimate, it has passed when its time lies before the wall clock, and
    its vessel is an object of its own, not in the heap before, that holds
    what the cached vessel of its departure held with the delay set to
    null. *)
Definition bareCrossing (now : Z) (times : list Departure.t) (s s' : State)
  (crossing : Crossing.t) : Prop :=
  Crossing.capacity crossing = None
  /\ Crossing.estimate crossing = EstimateUnset
  /\ Crossing.hasPassed crossing = (Crossing.time crossing * 1000 <? now)
  /\ exists departure l,
       departure ∈ times
       /\ Crossing.time crossing = Departure.DepartingTime departure
       /\ Crossing.vessel crossing = Some l
       /\ vesselHeap s !! l = None
       /\ vesselHeap s' !! l
          = Some (set_field "departureDelta" VNull
                    (default [] (vesselObject s (Departure.VesselID departure)))).

(** The crossing of the key (departureId, arrivalId, departureTime) holds a
    capacity object of that key. *)
Definition attachedKey (s : State) (key : Z * Z * Z) : Prop :=
  exists crossing l row,
    crossingAt s key.1.1 key.1.2 (string_of_Z key.2) = Some crossing
    /\ Crossing.capacity crossing = Some l
    /\ capacityHeap s !! l = Some row
    /\ Capacity.key row = key.

(** The table has a row of the key. *)
Definition persistedKey (s : State) (key : Z * Z * Z) : Prop :=
  exists row, row ∈ table s /\ Capacity.key row = key.

(** From [s] to [s'] no crossing appeared or went away, every crossing that
    held a capacity object of its key still holds one, and every key of the
    table is still there. *)
Definition grows (s s' : State) : Prop :=
  (forall key, attachedKey s key -> attachedKey s' key)
  /\ (forall key, persistedKey s key -> persistedKey s' key)
  /\ (forall departureId arrivalId key,
        is_Some (crossingAt s' departureId arrivalId key)
        <-> is_Some (crossingAt s departureId arrivalId key)).


(** ** Concrete runs used by the examples below *)

Module Scenario.

(** *** Three polls of the location feed: vessel 7 sailing, then docked twice *)

Definition poll (atDock : bool) : Upstream.t :=
  Upstream.mk None None (fun _ _ => None) (fun _ _ => None) None
    (Some [VesselLocation.mk 7 VNull VNull VNull (VBool atDock) []])
    None None None None.

Definition afterPoll1 : State := (recordTiming 1000 (poll false) initialState).2.
Definition afterPoll2 : State := (recordTiming 2000 (poll true) afterPoll1).2.
Definition afterPoll3 : State := (recordTiming 3000 (poll true) afterPoll2).2.

Definition dockedTimeOf (s : State) : option value :=
  (fun vessel => prop vessel "dockedTime") <$> vesselObject s 7.

(** *** A cached vessel with a delay *)

Definition delayedVessel : obj :=
  [("id", VNum 7); ("name", VStr "Tokitae"); ("departureDelta", VNum 300);
   ("isAtDock", VBool false)].

Definition oneVessel : State :=
  set_vesselsById {[ 7 := 1%positive ]}
    (set_vesselHeap {[ 1%positive := delayedVessel ]} initialState).

(** *** A cache refreshed at flush date 42, and upstream still at 42 *)

Definition refreshedAt42 : State :=
  set_cacheFlushDates (FlushDates.mk (VNum 42) (VNum 42) (VNum 42)) oneVessel.

Definition upstreamAt42 : Upstream.t :=
  Upstream.mk (Some (VNum 42)) None (fun _ _ => None) (fun _ _ => None)
    (Some (VNum 42)) None None (Some (VNum 42)) None None.

(** *** Route 1 -> 2 with sailings at 1000000 and 1002000, and last week's
    record for the first of them only *)

Definition week : Z := 604800.

Definition lastWeek (t : Z) : Z := t - week.

Definition sailing (time : Z) (capacity : option loc) : Crossing.t :=
  Crossing.mk true true false time None capacity EstimateUnset.

Definition lastWeekRecord : Capacity.t :=
  Capacity.mk 2 1 None (1000000 - week) 12 true true false 30 100.

Definition twoSailings : State :=
  set_scheduleByTerminal
    {[ 1 := {[ 2 := {[ "1000000" := sailing 1000000 None;
                        "1002000" := sailing 1002000 None ]} ]} ]}
    (set_previousCapacityByTerminal
       {[ 1 := {[ 2 := {[ 1000000 - week := lastWeekRecord ]} ]} ]}
       initialState).

(** *** Today's schedule of route 1 -> 2: one sailing per loading rule *)

Definition todayOneToTwo : Upstream.t :=
  Upstream.mk None None (fun _ _ => None)
    (fun departingId arrivingId =>
       if (departingId =? 1) && (arrivingId =? 2)
       then Some [Combo.mk [Departure.mk 1000 (VNum 3) 7;
                            Departure.mk 2000 (VNum 1) 7;
                            Departure.mk 3000 (VNum 2) 8]]
       else None)
    None None None None None None.

(** *** Route 1 -> 2 with sailings at 1000 and 2000; the first has
    reported 5 drive-up and 5 reservable places of 20 and has not left *)

Definition earlierCapacity : Capacity.t :=
  Capacity.mk 2 1 None 1000 5 true true false 5 20.

Definition laterCapacity : Capacity.t :=
  Capacity.mk 2 1 None 2000 3 true true false 0 20.

Definition route12 : gmap string Crossing.t :=
  {[ "1000" := sailing 1000 (Some 1%positive); "2000" := sailing 2000 None ]}.

Definition beforeReading : State :=
  set_scheduleByTerminal {[ 1 := {[ 2 := route12 ]} ]}
    (set_capacityHeap {[ 1%positive := earlierCapacity ]}
       (set_table [earlierCapacity] initialState)).

(** The space feed with one reading: 3 drive-up and no reservable places
    of 20 for the sailing at [departure] from terminal 1 to terminal 2. *)
Definition spaceFeed (departure : Z) : Upstream.t :=
  Upstream.mk None None (fun _ _ => None) (fun _ _ => None) None None None None
    (Some [TerminalSpace.mk 1
             [DepartingSpace.mk departure 7 false
                [ArrivalSpace.mk 2 3 true true 0 20]]])
    None.

Definition readingAt (departure : Z) : TerminalSpace.t * DepartingSpace.t * ArrivalSpace.t :=
  (TerminalSpace.mk 1 [DepartingSpace.mk departure 7 false [ArrivalSpace.mk 2 3 true true 0 20]],
   DepartingSpace.mk departure 7 false [ArrivalSpace.mk 2 3 true true 0 20],
   ArrivalSpace.mk 2 3 true true 0 20).

(** The wall clock, in milliseconds, before the sailing at 1000 s. *)
Definition clock : Z := 500000.

(** The capacity object of the crossing at [key] of route 1 -> 2. *)
Definition capacityAt (s : State) (key : string) : option Capacity.t :=
  match crossingAt s 1 2 key with
  | Some crossing =>
      match Crossing.capacity crossing with
      | Some l => capacityHeap s !! l
      | None => None
      end
  | None => None
  end.

(** *** A refresh of the vessels that starts at turn 0 and ends at turn 5,
    and one of the terminals likewise *)

Definition vesselsRefreshing : Async.progress :=
  Async.write "vessels" (Async.SettlesAt 5) Async.updateProgress.

Definition terminalsRefreshing : Async.progress :=
  Async.write "terminals" (Async.SettlesAt 5) Async.updateProgress.

Definition oneTerminal : State :=
  set_terminalsById {[ 3 := [("id", VNum 3); ("name", VStr "Bainbridge Island")] ]}
    initialState.

Definition vesselsHistory (turn : nat) : State :=
  if (turn <? 5)%nat then initialState else oneVessel.

Definition terminalsHistory (turn : nat) : State :=
  if (turn <? 5)%nat then initialState else oneTerminal.

(** *** Upstream at flush date 43 with the mates of terminals 1 and 2 *)

Definition matesAt43 : Upstream.t :=
  Upstream.mk (Some (VNum 43)) (Some [Mate.mk 1 2; Mate.mk 2 1; Mate.mk 1 3])
    (fun _ _ => None) (fun _ _ => None) None None None None None None.

(** *** The route descriptor of 1 -> 2 *)



(** *** A vessel of the location feed that left 120 s late *)

Definition lateVessel : VesselLocation.t :=
  VesselLocation.mk 7 (VNum 1120) (VNum 1000) VNull (VBool false) [].

(** *** The cache with vessel 7 and a row of last week in the table *)

Definition lastWeekRow : Capacity.t :=
  Capacity.mk 2 1 None (2000 - week) 12 true true false 30 100.

Definition withLastWeekRow : State := set_table [lastWeekRow] oneVessel.

(** *** A space feed with two readings of route 1 -> 2: one for 1500, which
    is not in the schedule, and one for 2000 *)



(** *** A table row without a crossing in the schedule map *)

Definition unscheduledRow : State := set_table [earlierCapacity] initialState.

(** The clock of one day before, in seconds. *)
Definition dayBefore (now : Z) : Z := now / 1000 - 86400.

End Scenario.

(** * Properties *)

(** ** Fields of records *)

Lemma get_field_set_field_eq k v (o : obj) : get_field (set_field k v o) k = Some v.
Proof.
  induction o as [|[k' v'] rest IH]; simpl.
  - by rewrite String.eqb_refl.
  - destruct (String.eqb k' k) eqn:E; simpl.
    + by rewrite String.eqb_refl.
    + by rewrite E.
Qed.

Lemma get_field_set_field_ne k k' v (o : obj) :
  k ≠ k' -> get_field (set_field k v o) k' = get_field o k'.
Proof.
  intros Hne. induction o as [|[k0 v0] rest IH]; simpl.
  - destruct (String.eqb k k') eqn:E; [|done].
    apply String.eqb_eq in E. done.
  - destruct (String.eqb k0 k) eqn:E; simpl.
    + apply String.eqb_eq in E. subst k0.
      destruct (String.eqb k k') eqn:E'; [|done].
      apply String.eqb_eq in E'. done.
    + by rewrite IH.
Qed.

Lemma prop_set_field_eq k v (o : obj) : prop (set_field k v o) k = v.
Proof. unfold prop. by rewrite get_field_set_field_eq. Qed.

Lemma prop_set_field_ne k k' v (o : obj) :
  k ≠ k' -> prop (set_field k v o) k' = prop o k'.
Proof. intros H. unfold prop. by rewrite get_field_set_field_ne. Qed.

(** Merging [{k: null}] into an object writes [null] at [k] and nothing
    else. *)
Lemma merge_null k (o : obj) : merge o [(k, VNull)] = set_field k VNull o.
Proof. reflexivity. Qed.

(** ** Emptiness and fullness *)

(** C6: [isEmpty] holds exactly when drive-up plus reservable space equals
    the total, [isFull] exactly when both counts are zero, and a record
    with a positive total is never both. *)
Theorem isEmpty_isFull_exact (c : Capacity.t) :
  (isEmpty c = true <->
     Capacity.driveUpCapacity c + Capacity.reservableCapacity c = Capacity.totalCapacity c)
  /\ (isFull c = true <->
        Capacity.driveUpCapacity c = 0 /\ Capacity.reservableCapacity c = 0)
  /\ (0 < Capacity.totalCapacity c ->
      0 <= Capacity.driveUpCapacity c -> 0 <= Capacity.reservableCapacity c ->
      ~ (isEmpty c = true /\ isFull c = true)).
Proof.
  unfold isEmpty, isFull. repeat split.
  - apply Z.eqb_eq.
  - intros H. by apply Z.eqb_eq.
  - apply andb_prop in H as [H _]. by apply Z.eqb_eq.
  - apply andb_prop in H as [_ H]. by apply Z.eqb_eq.
  - intros [-> ->]. reflexivity.
  - intros Htotal _ _ [Hempty Hfull].
    apply andb_prop in Hfull as [Hd Hr].
    apply Z.eqb_eq in Hempty, Hd, Hr. lia.
Qed.

Lemma isEmpty_isFull_exact_witness :
  let c := Capacity.mk 2 1 None 1000 0 true true false 0 20 in
  0 < Capacity.totalCapacity c /\ ~ (isEmpty c = true /\ isFull c = true).
Proof.
  split; [reflexivity|].
  apply (isEmpty_isFull_exact (Capacity.mk 2 1 None 1000 0 true true false 0 20));
    simpl; lia.
Defined.

(** ** Reading a vessel with its delay reset *)

(** C8: for a vessel in the cache, [getVessel(id, true)] returns a new
    object that holds the fields of the cached one with [departureDelta]
    set to null; the cache and the cached object are as before. *)
Theorem getVessel_resetDelay_copies (s : State) (id : Z) (l : loc) (cached : obj) :
  vesselsById s !! id = Some l ->
  vesselHeap s !! l = Some cached ->
  exists (l' : loc) (s' : State),
    getVessel id true s = (Ok (Some l'), s')
    /\ l' ≠ l
    /\ vesselHeap s' !! l' = Some (set_field "departureDelta" VNull cached)
    /\ prop (set_field "departureDelta" VNull cached) "departureDelta" = VNull
    /\ (forall k, k ≠ "departureDelta" ->
          get_field (set_field "departureDelta" VNull cached) k = get_field cached k)
    /\ vesselsById s' = vesselsById s
    /\ vesselHeap s' !! l = Some cached
    /\ (forall p, p ∈ dom (vesselHeap s) -> vesselHeap s' !! p = vesselHeap s !! p).
Proof.
  intros Hid Hl.
  pose proof (is_fresh (dom (vesselHeap s))) as Hfresh.
  assert (Hne : fresh (dom (vesselHeap s)) ≠ l).
  { intros E. apply Hfresh. rewrite E. apply elem_of_dom. by eexists. }
  exists (fresh (dom (vesselHeap s))), 
    (set_vesselHeap
       (<[fresh (dom (vesselHeap s)) := set_field "departureDelta" VNull cached]>
          (vesselHeap s)) s).
  repeat split.
  - unfold getVessel. rewrite Hid. simpl. rewrite Hl. simpl. by rewrite merge_null.
  - done.
  - simpl. apply lookup_insert_eq.
  - apply prop_set_field_eq.
  - intros k Hk. apply get_field_set_field_ne. congruence.
  - simpl. rewrite lookup_insert_ne; done.
  - intros p Hp. simpl. rewrite lookup_insert_ne; [done|].
    intros E. apply Hfresh. by rewrite E.
Qed.

Lemma getVessel_resetDelay_copies_witness :
  exists (l' : loc) (s' : State),
    getVessel 7 true Scenario.oneVessel = (Ok (Some l'), s')
    /\ l' ≠ 1%positive
    /\ vesselHeap s' !! l' = Some (set_field "departureDelta" VNull Scenario.delayedVessel)
    /\ prop (set_field "departureDelta" VNull Scenario.delayedVessel) "departureDelta" = VNull
    /\ (forall k, k ≠ "departureDelta" ->
          get_field (set_field "departureDelta" VNull Scenario.delayedVessel) k
          = get_field Scenario.delayedVessel k)
    /\ vesselsById s' = vesselsById Scenario.oneVessel
    /\ vesselHeap s' !! 1%positive = Some Scenario.delayedVessel
    /\ (forall p, p ∈ dom (vesselHeap Scenario.oneVessel) ->
          vesselHeap s' !! p = vesselHeap Scenario.oneVessel !! p).
Proof.
  apply (getVessel_resetDelay_copies Scenario.oneVessel 7 1%positive Scenario.delayedVessel);
    reflexivity.
Defined.

(** ** The docked time *)

(** C2, evaluated: vessel 7 is polled sailing, docked, docked.  The second
    poll stamps [dockedTime] with its wall clock; the third, with the
    vessel still at the dock, overwrites the stamp with null. *)
Theorem dockedTime_lost_on_next_poll :
  (recordTiming 1000 (Scenario.poll false) initialState).1 = Ok tt
  /\ (recordTiming 2000 (Scenario.poll true) Scenario.afterPoll1).1 = Ok tt
  /\ (recordTiming 3000 (Scenario.poll true) Scenario.afterPoll2).1 = Ok tt
  /\ Scenario.dockedTimeOf Scenario.afterPoll1 = Some VNull
  /\ Scenario.dockedTimeOf Scenario.afterPoll2 = Some (VDate 2000)
  /\ Scenario.dockedTimeOf Scenario.afterPoll3 = Some VNull.
Proof. vm_compute. repeat split. Qed.

(** X27: the three cases of [dockedTime] in one poll of a vessel that is
    in the cache: stamped with the wall clock on arrival at the dock, null
    otherwise, also when the vessel was at the dock already. *)
Lemma recordVesselTiming_dockedTime (now : Z) (vessel : VesselLocation.t) (s : State)
  (l : loc) (previous : obj) :
  vesselsById s !! VesselLocation.VesselID vessel = Some l ->
  vesselHeap s !! l = Some previous ->
  exists (s' : State) (o : obj),
    recordVesselTiming now vessel s = (Ok tt, s')
    /\ vesselObject s' (VesselLocation.VesselID vessel) = Some o
    /\ prop o "isAtDock" = VesselLocation.AtDock vessel
    /\ prop o "dockedTime"
       = if truthy (VesselLocation.AtDock vessel) && negb (truthy (prop previous "isAtDock"))
         then VDate now else VNull.
Proof.
  intros Hid Hl.
  assert (Hobj : vesselObject s (VesselLocation.VesselID vessel) = Some previous).
  { unfold vesselObject. rewrite Hid. simpl. exact Hl. }
  unfold recordVesselTiming, bind, gets. rewrite Hobj.
  set (dockedTime := if truthy (VesselLocation.AtDock vessel) && negb (truthy (prop previous "isAtDock"))
         then VDate now else VNull).
  assert (Hdocked :
    (if truthy (VesselLocation.AtDock vessel)
     then if negb (truthy (prop previous "isAtDock")) then ret (VDate now) else ret VNull
     else ret VNull) s = (Ok dockedTime, s)).
  { unfold dockedTime. destruct (truthy (VesselLocation.AtDock vessel)); simpl; [|done].
    by destruct (truthy (prop previous "isAtDock")). }
  rewrite Hdocked.
  unfold assignVessel, initVessel, bind, modify. rewrite Hid. simpl. rewrite Hid.
  eexists _, _. split; [reflexivity|].
  split.
  { unfold vesselObject. simpl. rewrite Hid. simpl.
    rewrite lookup_alter_eq, Hl. reflexivity. }
  split; repeat (rewrite prop_set_field_ne by discriminate); apply prop_set_field_eq.
Qed.

(** ** The flush-date gate *)

(** C3: when the flush date fetched for a family is the one recorded at
    its last refresh, the refresh of that family ends after that one
    request: nothing else is fetched and the state, with all its maps, is
    as it was. *)
Theorem refresh_skipped_on_same_flush_date
  (minusWeek yesterday : Z -> Z) (getCameras : Z -> value)
  (now : Z) (upstream : Upstream.t) (s : State) :
  (forall date,
     Upstream.scheduleCacheFlushDate upstream = Some date ->
     strict_eq date (FlushDates.schedule (cacheFlushDates s)) = true ->
     updateSchedule minusWeek yesterday now upstream s
     = (Ok tt, set_requests (requests s ++ [API_SCHEDULE_CACHE])%list s))
  /\ (forall date,
        Upstream.vesselsCacheFlushDate upstream = Some date ->
        strict_eq date (FlushDates.vessels (cacheFlushDates s)) = true ->
        updateVessels upstream s
        = (Ok tt, set_requests (requests s ++ [API_VESSELS_CACHE])%list s))
  /\ (forall date,
        Upstream.terminalsCacheFlushDate upstream = Some date ->
        strict_eq date (FlushDates.terminals (cacheFlushDates s)) = true ->
        updateTerminals getCameras upstream s
        = (Ok tt, set_requests (requests s ++ [API_TERMINALS_CACHE])%list s)).
Proof.
  repeat split; intros date Hfetch Hsame.
  - unfold updateSchedule, fetch, bind, modify, gets, ret. rewrite Hfetch. simpl.
    by rewrite Hsame.
  - unfold updateVessels, fetch, bind, modify, gets, ret. rewrite Hfetch. simpl.
    by rewrite Hsame.
  - unfold updateTerminals, fetch, bind, modify, gets, ret. rewrite Hfetch. simpl.
    by rewrite Hsame.
Qed.

Lemma refresh_skipped_on_same_flush_date_witness :
  let s := Scenario.refreshedAt42 in
  let up := Scenario.upstreamAt42 in
  updateSchedule Scenario.lastWeek Scenario.lastWeek 0 up s
    = (Ok tt, set_requests (requests s ++ [API_SCHEDULE_CACHE])%list s)
  /\ updateVessels up s
     = (Ok tt, set_requests (requests s ++ [API_VESSELS_CACHE])%list s)
  /\ updateTerminals (fun _ => VNull) up s
     = (Ok tt, set_requests (requests s ++ [API_TERMINALS_CACHE])%list s).
Proof.
  destruct (refresh_skipped_on_same_flush_date Scenario.lastWeek Scenario.lastWeek
              (fun _ => VNull) 0 Scenario.upstreamAt42 Scenario.refreshedAt42)
    as (Hschedule & Hvessels & Hterminals).
  split; [|split].
  - apply (Hschedule (VNum 42)); reflexivity.
  - apply (Hvessels (VNum 42)); reflexivity.
  - apply (Hterminals (VNum 42)); reflexivity.
Defined.

(** X29: a whole long cycle with the three flush dates unchanged makes
    three requests, for the flush dates of the vessels, the schedule and the
    terminals in this order, and leaves the state as it was. *)
Lemma updateCache_skipped_on_same_flush_dates
  (minusWeek yesterday : Z -> Z) (getCameras : Z -> value)
  (now : Z) (upstream : Upstream.t) (s : State) (schedule vessels terminals : value) :
  Upstream.scheduleCacheFlushDate upstream = Some schedule ->
  Upstream.vesselsCacheFlushDate upstream = Some vessels ->
  Upstream.terminalsCacheFlushDate upstream = Some terminals ->
  strict_eq schedule (FlushDates.schedule (cacheFlushDates s)) = true ->
  strict_eq vessels (FlushDates.vessels (cacheFlushDates s)) = true ->
  strict_eq terminals (FlushDates.terminals (cacheFlushDates s)) = true ->
  updateCache minusWeek yesterday getCameras now upstream s
  = (Ok tt,
     set_requests
       (requests s ++ [API_VESSELS_CACHE; API_SCHEDULE_CACHE; API_TERMINALS_CACHE])%list s).
Proof.
  intros Hs Hv Ht Es Ev Et.
  unfold updateCache, updateVessels, updateSchedule, updateTerminals,
    fetch, bind, modify, gets, ret.
  rewrite Hv. simpl. rewrite Ev, Hs. simpl. rewrite Es, Ht. simpl. rewrite Et.
  f_equal. unfold set_requests. simpl. by rewrite <- !app_assoc.
Qed.

(** ** Estimates *)

Lemma crossingAt_updateEstimates (minusWeek : Z -> Z) (s : State)
  (departureId arrivalId : Z) (key : string) :
  crossingAt (updateEstimates minusWeek s).2 departureId arrivalId key
  = (fun crossing =>
       Crossing.with_estimate
         (estimateOf minusWeek (previousCapacityByTerminal s) departureId arrivalId crossing)
         crossing) <$> crossingAt s departureId arrivalId key.
Proof.
  unfold crossingAt, routeSchedule, updateEstimates, modify. simpl.
  rewrite map_lookup_imap.
  destruct (scheduleByTerminal s !! departureId) as [mates|]; simpl;
    [|by rewrite lookup_empty].
  rewrite map_lookup_imap.
  destruct (mates !! arrivalId) as [schedule|]; simpl;
    [by rewrite lookup_fmap | by rewrite lookup_empty].
Qed.

(** C4: after [updateEstimates], a crossing at time T of a route has as
    estimate the drive-up and reservable counts of the record the shadow
    map holds for that route at T minus one week, and null when the shadow
    map holds none.  The crossings are those of before, and the shadow map
    is not touched. *)
Theorem updateEstimates_copies_last_week (minusWeek : Z -> Z) (s : State)
  (departureId arrivalId : Z) (key : string) (crossing : Crossing.t) :
  let s' := (updateEstimates minusWeek s).2 in
  crossingAt s' departureId arrivalId key = Some crossing ->
  (updateEstimates minusWeek s).1 = Ok tt
  /\ previousCapacityByTerminal s' = previousCapacityByTerminal s
  /\ (exists before,
        crossingAt s departureId arrivalId key = Some before
        /\ Crossing.time crossing = Crossing.time before)
  /\ (forall record,
        previousCapacityAt (previousCapacityByTerminal s') departureId arrivalId
          (minusWeek (Crossing.time crossing)) = Some record ->
        Crossing.estimate crossing
        = EstimateOf (Capacity.driveUpCapacity record) (Capacity.reservableCapacity record))
  /\ (previousCapacityAt (previousCapacityByTerminal s') departureId arrivalId
        (minusWeek (Crossing.time crossing)) = None ->
      Crossing.estimate crossing = EstimateNull).
Proof.
  intros s' Hat. subst s'. rewrite crossingAt_updateEstimates in Hat.
  destruct (crossingAt s departureId arrivalId key) as [before|] eqn:Hbefore;
    [|discriminate].
  simpl in Hat. injection Hat as <-.
  split; [reflexivity|]. split; [reflexivity|].
  split; [by exists before|].
  simpl. unfold estimateOf.
  split.
  - intros record Hrecord. by rewrite Hrecord.
  - intros Hnone. by rewrite Hnone.
Qed.

Lemma updateEstimates_copies_last_week_witness :
  let s' := (updateEstimates Scenario.lastWeek Scenario.twoSailings).2 in
  let first := Crossing.with_estimate (EstimateOf 12 30) (Scenario.sailing 1000000 None) in
  let second := Crossing.with_estimate EstimateNull (Scenario.sailing 1002000 None) in
  (crossingAt s' 1 2 "1000000" = Some first
   /\ Crossing.estimate first
      = EstimateOf (Capacity.driveUpCapacity Scenario.lastWeekRecord)
                   (Capacity.reservableCapacity Scenario.lastWeekRecord))
  /\ (crossingAt s' 1 2 "1002000" = Some second
      /\ Crossing.estimate second = EstimateNull).
Proof.
  intros s' first second. split; (split; [reflexivity|]).
  - destruct (updateEstimates_copies_last_week Scenario.lastWeek Scenario.twoSailings
                1 2 "1000000" first) as (_ & _ & _ & Hrecord & _); [reflexivity|].
    apply (Hrecord Scenario.lastWeekRecord). reflexivity.
  - destruct (updateEstimates_copies_last_week Scenario.lastWeek Scenario.twoSailings
                1 2 "1002000" second) as (_ & _ & _ & _ & Hnone); [reflexivity|].
    apply Hnone. reflexivity.
Defined.

(** ** The schedule refresh *)

Lemma bind_Ok {A B} (c : M A) (k : A -> M B) s b s' :
  bind c k s = (Ok b, s') -> exists a s1, c s = (Ok a, s1) /\ k a s1 = (Ok b, s').
Proof.
  unfold bind. destruct (c s) as [[a|e] s1]; [|discriminate]. intros H. by exists a, s1.
Qed.

Lemma scheduledCrossing_Ok now started s c s' :
  scheduledCrossing now started s = (Ok c, s') ->
  Crossing.time c = Departure.DepartingTime started.1
  /\ Crossing.allowsPassengers c = includes [1; 3] (Departure.LoadingRule started.1)
  /\ Crossing.allowsVehicles c = includes [2; 3] (Departure.LoadingRule started.1).
Proof.
  unfold scheduledCrossing. intros H.
  apply bind_Ok in H as (vessel & s1 & _ & H).
  unfold ret in H. injection H as <- _. done.
Qed.

Lemma mapM_scheduledCrossing now l : forall s cs s' c,
  mapM (scheduledCrossing now) l s = (Ok cs, s') ->
  c ∈ cs ->
  exists started, started ∈ l
    /\ Crossing.time c = Departure.DepartingTime started.1
    /\ Crossing.allowsPassengers c = includes [1; 3] (Departure.LoadingRule started.1)
    /\ Crossing.allowsVehicles c = includes [2; 3] (Departure.LoadingRule started.1).
Proof.
  induction l as [|x rest IH]; intros s cs s' c H Hin; simpl in H.
  - unfold ret in H. injection H as <- _. by apply elem_of_nil in Hin.
  - apply bind_Ok in H as (y & s1 & Hy & H).
    apply bind_Ok in H as (ys & s2 & Hys & H).
    unfold ret in H. injection H as <- _.
    apply elem_of_cons in Hin as [-> | Hin].
    + exists x. split; [left|]. by apply scheduledCrossing_Ok in Hy.
    + destruct (IH _ _ _ _ Hys Hin) as (st & Hst & Hrest).
      exists st. split; [by right|done].
Qed.

Lemma keyBy_lookup (schedule : list Crossing.t) key c :
  keyBy schedule !! key = Some c -> c ∈ schedule /\ key = string_of_Z (Crossing.time c).
Proof.
  unfold keyBy.
  assert (G : forall (m : gmap string Crossing.t),
            fold_left (fun m c => <[string_of_Z (Crossing.time c) := c]> m) schedule m !! key = Some c ->
            (c ∈ schedule /\ key = string_of_Z (Crossing.time c)) \/ m !! key = Some c).
  { induction schedule as [|x rest IH]; intros m H; simpl in H.
    - by right.
    - destruct (IH _ H) as [[Hin Hk] | Hm].
      + left. split; [by right|done].
      + destruct (decide (string_of_Z (Crossing.time x) = key)) as [E|E].
        * subst key. rewrite lookup_insert_eq in Hm. injection Hm as ->.
          left. split; [left|done].
        * rewrite lookup_insert_ne in Hm; [|done]. by right. }
  intros H. destruct (G ∅ H) as [?|Hempty]; [done|].
  by rewrite lookup_empty in Hempty.
Qed.

Lemma routeSchedule_set (s : State) (byTerminal : gmap Z (gmap Z (gmap string Crossing.t)))
  (departureId arrivalId : Z) (schedule : gmap string Crossing.t) :
  scheduleByTerminal s = setRouteSchedule departureId arrivalId schedule byTerminal ->
  routeSchedule s departureId arrivalId = schedule.
Proof.
  intros E. unfold routeSchedule. rewrite E. unfold setRouteSchedule.
  rewrite lookup_insert_eq. simpl. by rewrite lookup_insert_eq.
Qed.

Lemma includes_1_3 rule : includes [1; 3] (VNum rule) = true <-> rule = 1 \/ rule = 3.
Proof. simpl. rewrite !orb_true_iff, !Z.eqb_eq. intuition discriminate. Qed.

Lemma includes_2_3 rule : includes [2; 3] (VNum rule) = true <-> rule = 2 \/ rule = 3.
Proof. simpl. rewrite !orb_true_iff, !Z.eqb_eq. intuition discriminate. Qed.

(** C5: every crossing that the schedule refresh puts into the schedule of
    a terminal pair was built from one of the departures upstream lists for
    that pair, at the key of its time; it allows passengers exactly when the
    loading rule of that departure is 1 or 3, and vehicles exactly when it
    is 2 or 3. *)
Theorem crossing_flags_follow_loading_rule
  (minusWeek : Z -> Z) (now : Z) (upstream : Upstream.t) (terminalId mateId : Z)
  (s s' : State) (key : string) (crossing : Crossing.t) :
  updateRoute minusWeek now upstream terminalId mateId s = (Ok tt, s') ->
  crossingAt s' terminalId mateId key = Some crossing ->
  exists scheduleData others departure,
    Upstream.scheduleToday upstream terminalId mateId = Some (scheduleData :: others)
    /\ departure ∈ Combo.Times scheduleData
    /\ Crossing.time crossing = Departure.DepartingTime departure
    /\ key = string_of_Z (Departure.DepartingTime departure)
    /\ forall rule, Departure.LoadingRule departure = VNum rule ->
         (Crossing.allowsPassengers crossing = true <-> rule = 1 \/ rule = 3)
         /\ (Crossing.allowsVehicles crossing = true <-> rule = 2 \/ rule = 3).
Proof.
  intros Hrun Hat. unfold updateRoute in Hrun.
  apply bind_Ok in Hrun as (response & s1 & Hfetch & Hrun).
  apply bind_Ok in Hrun as (times & s2 & Htimes & Hrun).
  apply bind_Ok in Hrun as (schedule & s3 & Hschedule & Hrun).
  apply bind_Ok in Hrun as (known & s4 & _ & Hrun).
  apply bind_Ok in Hrun as ([] & s5 & _ & Hrun).
  unfold modify in Hrun. injection Hrun as <-.
  unfold crossingAt in Hat. erewrite routeSchedule_set in Hat by reflexivity.
  apply keyBy_lookup in Hat as [Hin Hkey].
  destruct (mapM_scheduledCrossing _ _ _ _ _ _ Hschedule Hin)
    as ([departure first] & Hstarted & Htime & Hpassengers & Hvehicles).
  simpl in *.
  apply list_elem_of_fmap in Hstarted as (departure' & E & Hdeparture).
  injection E as <- _.
  unfold fetch in Hfetch. apply bind_Ok in Hfetch as ([] & s0 & _ & Hfetch).
  destruct (Upstream.scheduleToday upstream terminalId mateId) as [combos|] eqn:Hup;
    [|discriminate].
  unfold ret in Hfetch. injection Hfetch as <- _.
  destruct combos as [|scheduleData others]; [discriminate|].
  unfold ret in Htimes. injection Htimes as <- _.
  exists scheduleData, others, departure.
  split; [done|]. split; [done|]. split; [done|]. split; [by rewrite Hkey, Htime|].
  intros rule Hrule. rewrite Hpassengers, Hvehicles, Hrule.
  split; [apply includes_1_3 | apply includes_2_3].
Qed.

Lemma crossing_flags_follow_loading_rule_witness :
  let run := updateRoute Scenario.lastWeek 1500000 Scenario.todayOneToTwo 1 2
               Scenario.oneVessel in
  run.1 = Ok tt
  /\ exists crossing scheduleData others departure,
       crossingAt run.2 1 2 "2000" = Some crossing
       /\ Upstream.scheduleToday Scenario.todayOneToTwo 1 2 = Some (scheduleData :: others)
       /\ departure ∈ Combo.Times scheduleData
       /\ Crossing.time crossing = Departure.DepartingTime departure
       /\ "2000" = string_of_Z (Departure.DepartingTime departure)
       /\ forall rule, Departure.LoadingRule departure = VNum rule ->
            (Crossing.allowsPassengers crossing = true <-> rule = 1 \/ rule = 3)
            /\ (Crossing.allowsVehicles crossing = true <-> rule = 2 \/ rule = 3).
Proof.
  intros run. split; [reflexivity|].
  exists (Crossing.mk true false false 2000 (Some 3%positive) None EstimateUnset).
  destruct (crossing_flags_follow_loading_rule Scenario.lastWeek 1500000
              Scenario.todayOneToTwo 1 2 Scenario.oneVessel run.2 "2000"
              (Crossing.mk true false false 2000 (Some 3%positive) None EstimateUnset))
    as (scheduleData & others & departure & H); [reflexivity | reflexivity |].
  exists scheduleData, others, departure. split; [reflexivity | exact H].
Defined.

(** ** Capacity readings *)

Lemma indexOf_number (l : list string) (n : Z) : indexOf l (VNum n) = -1.
Proof. induction l as [|k rest IH]; simpl; [done|]. by rewrite IH. Qed.

Lemma string_of_Z_not_undefined (n : Z) : string_of_Z n ≠ "undefined".
Proof.
  unfold string_of_Z. destruct (Z.to_int n) as [d|d]; simpl; [|discriminate].
  destruct d; discriminate.
Qed.

Lemma getPreviousCapacity_number (s : State) (departureId arrivalId time : Z) :
  keyedByTime (routeSchedule s departureId arrivalId) ->
  getPreviousCapacity s departureId arrivalId (VNum time) = None.
Proof.
  intros Hkeyed. unfold getPreviousCapacity. rewrite indexOf_number. simpl.
  destruct (routeSchedule s departureId arrivalId !! "undefined") as [crossing|] eqn:E;
    [|done].
  apply Hkeyed in E. symmetry in E. by apply string_of_Z_not_undefined in E.
Qed.

Lemma getPreviousCapacity_first_key (s : State) (departureId arrivalId : Z) (key : string) :
  head (sortBy (keys (routeSchedule s departureId arrivalId))) = Some key ->
  getPreviousCapacity s departureId arrivalId (VStr key) = None.
Proof.
  intros Hhead. unfold getPreviousCapacity.
  destruct (sortBy (keys (routeSchedule s departureId arrivalId))) as [|k rest];
    [discriminate|].
  injection Hhead as ->. simpl. by rewrite String.eqb_refl.
Qed.

Lemma elem_of_insert_sorted (x k : string) (l : list string) :
  x ∈ insert_sorted k l <-> x = k \/ x ∈ l.
Proof.
  induction l as [|k' rest IH]; simpl.
  - rewrite list_elem_of_singleton. split; [by left|]. intros [?|H]; [done|]. by apply elem_of_nil in H.
  - destruct (String.leb k k').
    + by rewrite elem_of_cons.
    + rewrite !elem_of_cons, IH. tauto.
Qed.

Lemma elem_of_sortBy (x : string) (l : list string) : x ∈ sortBy l <-> x ∈ l.
Proof.
  induction l as [|k rest IH]; simpl; [done|].
  rewrite elem_of_insert_sorted, elem_of_cons, IH. tauto.
Qed.

Lemma first_key_has_crossing (schedule : gmap string Crossing.t) (key : string) :
  head (sortBy (keys schedule)) = Some key -> is_Some (schedule !! key).
Proof.
  intros Hhead.
  assert (Hin : key ∈ sortBy (keys schedule)).
  { destruct (sortBy (keys schedule)); [discriminate|]. injection Hhead as ->. left. }
  apply (proj1 (elem_of_sortBy _ _)) in Hin. unfold keys in Hin.
  apply list_elem_of_fmap in Hin as ([k c] & -> & Hin).
  apply elem_of_map_to_list in Hin. by exists c.
Qed.

Lemma same_key_spec (a b : Capacity.t) :
  same_key a b = true <-> Capacity.key a = Capacity.key b.
Proof.
  unfold same_key, Capacity.key. rewrite !andb_true_iff, !Z.eqb_eq.
  split; [intros [[-> ->] ->]; done | intros [= -> -> ->]; done].
Qed.

Lemma findOne_upsert (where_ capacity : Capacity.t) (rows : list Capacity.t) :
  findOne where_ (upsert capacity rows)
  = if same_key where_ capacity then Some capacity else findOne where_ rows.
Proof.
  unfold findOne. induction rows as [|row rest IH]; simpl; [done|].
  destruct (same_key capacity row) eqn:Ecr; simpl.
  - destruct (same_key where_ capacity) eqn:Ewc; [done|].
    destruct (same_key where_ row) eqn:Ewr; [|done].
    apply same_key_spec in Ecr, Ewr.
    assert (same_key where_ capacity = true) by (apply same_key_spec; congruence).
    congruence.
  - rewrite IH. destruct (same_key where_ row) eqn:Ewr; [|done].
    destruct (same_key where_ capacity) eqn:Ewc; [|done].
    apply same_key_spec in Ewc, Ewr.
    assert (same_key capacity row = true) by (apply same_key_spec; congruence).
    congruence.
Qed.

Lemma keyedByTime_with_capacity (schedule : gmap string Crossing.t) key crossing l :
  keyedByTime schedule ->
  schedule !! key = Some crossing ->
  keyedByTime (<[key := Crossing.with_capacity l crossing]> schedule).
Proof.
  intros Hkeyed Hat k c Hk.
  destruct (decide (key = k)) as [->|Hne].
  - rewrite lookup_insert_eq in Hk. injection Hk as <-. simpl. by apply Hkeyed.
  - rewrite lookup_insert_ne in Hk; [|done]. by apply Hkeyed.
Qed.

(** What the callback does for a reading whose crossing is in the map. *)
Lemma attachReading_matched (s : State)
  (reading : TerminalSpace.t * DepartingSpace.t * ArrivalSpace.t) (crossing : Crossing.t) :
  let model :=
    readingModel (default [] (vesselObject s (DepartingSpace.VesselID reading.1.2))) reading in
  let departureId := Capacity.departureId model in
  let arrivalId := Capacity.arrivalId model in
  let key := string_of_Z (Capacity.departureTime model) in
  let capacity := fresh (dom (capacityHeap s)) in
  let attached :=
    set_scheduleByTerminal
      (setRouteSchedule departureId arrivalId
         (<[key := Crossing.with_capacity capacity crossing]>
            (routeSchedule s departureId arrivalId))
         (scheduleByTerminal s))
      (set_capacityHeap (<[capacity := model]> (capacityHeap s)) s) in
  let s' := set_saved (saved s ++ [model])%list (set_table (upsert model (table s)) attached) in
  crossingAt s departureId arrivalId key = Some crossing ->
  attachReading reading s
  = (Ok (capacity,
         getPreviousCapacity s' departureId arrivalId (VNum (Capacity.departureTime model))),
     s').
Proof.
  intros model departureId arrivalId key capacity attached s' Hat.
  unfold attachReading, bind, gets, newCapacity. simpl.
  fold model. fold departureId. fold arrivalId. fold key. fold capacity.
  unfold setCrossingCapacity.
  replace (crossingAt (set_capacityHeap (<[capacity:=model]> (capacityHeap s)) s)
             departureId arrivalId key) with (Some crossing) by (symmetry; exact Hat).
  unfold saveCapacity, modify. simpl. rewrite lookup_insert_eq. reflexivity.
Qed.

Lemma attachReading_unmatched (s : State)
  (reading : TerminalSpace.t * DepartingSpace.t * ArrivalSpace.t) :
  let model :=
    readingModel (default [] (vesselObject s (DepartingSpace.VesselID reading.1.2))) reading in
  crossingAt s (Capacity.departureId model) (Capacity.arrivalId model)
    (string_of_Z (Capacity.departureTime model)) = None ->
  attachReading reading s
  = (Throw (TypeError "Cannot set property 'capacity' of undefined"),
     set_capacityHeap (<[fresh (dom (capacityHeap s)) := model]> (capacityHeap s)) s).
Proof.
  intros model Hat.
  unfold attachReading, bind, gets, newCapacity. simpl. fold model.
  unfold setCrossingCapacity.
  replace (crossingAt (set_capacityHeap (<[fresh (dom (capacityHeap s)):=model]> (capacityHeap s)) s)
             (Capacity.departureId model) (Capacity.arrivalId model)
             (string_of_Z (Capacity.departureTime model))) with (@None Crossing.t)
    by (symmetry; exact Hat).
  reflexivity.
Qed.

(** The lookup of the previous capacity never finds one for a reading:
    the departure time of a reading is a number, the names of the crossings
    are strings. *)
Lemma attachReading_no_previous (s : State)
  (reading : TerminalSpace.t * DepartingSpace.t * ArrivalSpace.t)
  (pending : loc * option loc) (s' : State) :
  keyedByTime (routeSchedule s (TerminalSpace.TerminalID reading.1.1)
                 (ArrivalSpace.TerminalID reading.2)) ->
  attachReading reading s = (Ok pending, s') ->
  pending.2 = None.
Proof.
  destruct reading as [[terminal departure] spaceData]. simpl. intros Hkeyed Hrun.
  destruct (crossingAt s (TerminalSpace.TerminalID terminal) (ArrivalSpace.TerminalID spaceData)
              (string_of_Z (DepartingSpace.Departure departure))) as [crossing|] eqn:Hat.
  - rewrite (attachReading_matched s (terminal, departure, spaceData) crossing Hat) in Hrun.
    injection Hrun as <- _. simpl.
    apply getPreviousCapacity_number.
    erewrite routeSchedule_set by reflexivity.
    by apply keyedByTime_with_capacity.
  - rewrite (attachReading_unmatched s (terminal, departure, spaceData) Hat) in Hrun.
    discriminate.
Qed.

(** C10: for a reading whose departure time is the earliest key of the
    schedule of its route, [getPreviousCapacity] returns null, whether it is
    asked with the time or with the key, and the reading is processed
    without a correction: its own capacity object is the only one created,
    no other capacity object changes, its own row is the only one handed
    to [saveCapacity], and the rows of the other keys stay as they are. *)
Theorem first_sailing_not_superseded (now : Z) (s : State)
  (terminal : TerminalSpace.t) (departure : DepartingSpace.t) (spaceData : ArrivalSpace.t) :
  let reading := (terminal, departure, spaceData) in
  let departureId := TerminalSpace.TerminalID terminal in
  let arrivalId := ArrivalSpace.TerminalID spaceData in
  let departureTime := DepartingSpace.Departure departure in
  let model :=
    readingModel (default [] (vesselObject s (DepartingSpace.VesselID departure))) reading in
  keyedByTime (routeSchedule s departureId arrivalId) ->
  head (sortBy (keys (routeSchedule s departureId arrivalId)))
    = Some (string_of_Z departureTime) ->
  getPreviousCapacity s departureId arrivalId (VNum departureTime) = None
  /\ getPreviousCapacity s departureId arrivalId (VStr (string_of_Z departureTime)) = None
  /\ exists (capacity : loc) (s' : State),
       attachReading reading s = (Ok (capacity, None), s')
       /\ processReading now reading s = (Ok tt, s')
       /\ (capacity ∉ dom (capacityHeap s))
       /\ capacityHeap s' !! capacity = Some model
       /\ (forall p, p ∈ dom (capacityHeap s) -> capacityHeap s' !! p = capacityHeap s !! p)
       /\ saved s' = (saved s ++ [model])%list
       /\ (forall row, same_key row model = false ->
             findOne row (table s') = findOne row (table s)).
Proof.
  intros reading departureId arrivalId departureTime model Hkeyed Hfirst.
  split; [by apply getPreviousCapacity_number|].
  split; [by apply getPreviousCapacity_first_key|].
  destruct (first_key_has_crossing _ _ Hfirst) as [crossing Hat].
  pose proof (attachReading_matched s reading crossing Hat) as Hrun.
  simpl in Hrun. fold model departureId arrivalId departureTime in Hrun.
  rewrite getPreviousCapacity_number in Hrun.
  2:{ erewrite routeSchedule_set by reflexivity.
      by apply keyedByTime_with_capacity. }
  pose proof (is_fresh (dom (capacityHeap s))) as Hfresh.
  eexists _, _. split; [exact Hrun|].
  split; [unfold processReading, bind; by rewrite Hrun|].
  split; [exact Hfresh|].
  split; [simpl; apply lookup_insert_eq|].
  split.
  { intros p Hp. simpl. rewrite lookup_insert_ne; [done|].
    intros E. apply Hfresh. by rewrite E. }
  split; [reflexivity|].
  intros row Hrow.
  transitivity (if same_key row model then Some model else findOne row (table s));
    [apply findOne_upsert | by rewrite Hrow].
Qed.

Lemma first_sailing_not_superseded_witness :
  let s := Scenario.beforeReading in
  let reading := Scenario.readingAt 1000 in
  let model := readingModel [] reading in
  getPreviousCapacity s 1 2 (VNum 1000) = None
  /\ getPreviousCapacity s 1 2 (VStr (string_of_Z 1000)) = None
  /\ exists (capacity : loc) (s' : State),
       attachReading reading s = (Ok (capacity, None), s')
       /\ processReading Scenario.clock reading s = (Ok tt, s')
       /\ (capacity ∉ dom (capacityHeap s))
       /\ capacityHeap s' !! capacity = Some model
       /\ (forall p, p ∈ dom (capacityHeap s) -> capacityHeap s' !! p = capacityHeap s !! p)
       /\ saved s' = (saved s ++ [model])%list
       /\ (forall row, same_key row model = false ->
             findOne row (table s') = findOne row (table s)).
Proof.
  apply (first_sailing_not_superseded Scenario.clock Scenario.beforeReading
           (Scenario.readingAt 1000).1.1 (Scenario.readingAt 1000).1.2
           (Scenario.readingAt 1000).2).
  - intros key crossing. simpl.
    change (routeSchedule Scenario.beforeReading 1 2) with Scenario.route12.
    unfold Scenario.route12. intros H.
    destruct (decide (key = "1000")) as [->|H1].
    { rewrite lookup_insert_eq in H. by injection H as <-. }
    rewrite lookup_insert_ne in H; [|done].
    destruct (decide (key = "2000")) as [->|H2].
    { rewrite lookup_singleton_eq in H. by injection H as <-. }
    rewrite lookup_singleton_ne in H; done.
  - reflexivity.
Defined.

(** C1, evaluated: the sailing at 1000 has reported 5 and 5 places of 20,
    has not left and is not full; a reading of 3 and 0 places of 20, which
    is not empty, arrives for the next sailing at 2000.  After the capacity
    update the earlier sailing still shows 5 and 5, in memory and in the
    table: the previous capacity is looked up with the number 2000 among the
    names "1000" and "2000", which finds nothing. *)
Theorem later_reading_leaves_earlier_sailing :
  let s := Scenario.beforeReading in
  let run := recordCapacity Scenario.clock (Scenario.spaceFeed 2000) s in
  sortBy (keys (routeSchedule s 1 2)) = ["1000"; "2000"]
  /\ Scenario.capacityAt s "1000" = Some Scenario.earlierCapacity
  /\ hasPassed Scenario.clock Scenario.earlierCapacity = false
  /\ isFull Scenario.earlierCapacity = false
  /\ isEmpty Scenario.laterCapacity = false
  /\ run.1 = Ok tt
  /\ Scenario.capacityAt run.2 "2000" = Some Scenario.laterCapacity
  /\ Scenario.capacityAt run.2 "1000" = Some Scenario.earlierCapacity
  /\ findOne Scenario.earlierCapacity (table run.2) = Some Scenario.earlierCapacity
  /\ getPreviousCapacity run.2 1 2 (VNum 2000) = None
  /\ getPreviousCapacity run.2 1 2 (VStr "2000") = Some 1%positive.
Proof. vm_compute. repeat split. Qed.

(** C7, evaluated: a reading for 3000 arrives while the schedule of the
    route holds 1000 and 2000 only.  Writing the capacity to the crossing
    that was not found throws; the promise of that callback is rejected and
    nothing handles it.  Nothing is attached or saved, and the schedule map
    is as before. *)
Theorem unmatched_reading_rejects :
  let s := Scenario.beforeReading in
  let run := recordCapacity Scenario.clock (Scenario.spaceFeed 3000) s in
  crossingAt s 1 2 "3000" = None
  /\ (attachReading (Scenario.readingAt 3000) s).1
     = Throw (TypeError "Cannot set property 'capacity' of undefined")
  /\ (processReading Scenario.clock (Scenario.readingAt 3000) s).1
     = Throw (TypeError "Cannot set property 'capacity' of undefined")
  /\ run.1 = Ok tt
  /\ unhandled run.2 = [TypeError "Cannot set property 'capacity' of undefined"]
  /\ scheduleByTerminal run.2 = scheduleByTerminal s
  /\ table run.2 = table s
  /\ saved run.2 = saved s.
Proof. vm_compute. repeat split. Qed.

(** ** Waiting for a refresh *)

Lemma read_write_ne (name name' : string) (v : Async.promise) (p : Async.progress) :
  name ≠ name' -> Async.read (Async.write name v p) name' = Async.read p name'.
Proof.
  intros Hne. induction p as [|[k v'] rest IH]; simpl.
  - destruct (String.eqb name name') eqn:E; [|done].
    apply String.eqb_eq in E. done.
  - destruct (String.eqb k name) eqn:E; simpl.
    + apply String.eqb_eq in E. subst k.
      destruct (String.eqb name name') eqn:E'; [|done].
      apply String.eqb_eq in E'. done.
    + by rewrite IH.
Qed.

(** An accessor that awaits the promise of a refresh in flight reads the
    state the refresh leaves. *)
Lemma accessor_waits {A} (name : string) (reader : M A) (p : Async.progress)
  (history : nat -> State) (now turn : nat) :
  Async.read p name = Some (Async.SettlesAt turn) ->
  (now <= turn)%nat ->
  Async.accessor name reader p history now = Some (reader (history turn)).1.
Proof.
  intros Hread Hle. unfold Async.accessor, Async.await. rewrite Hread.
  by rewrite Nat.max_l.
Qed.

(** An accessor that awaits a property [updateProgress] does not have
    reads the state of the turn it is called in. *)
Lemma accessor_does_not_wait {A} (name : string) (reader : M A) (p : Async.progress)
  (history : nat -> State) (now : nat) :
  Async.read p name = None ->
  Async.accessor name reader p history now = Some (reader (history now)).1.
Proof. intros Hread. unfold Async.accessor, Async.await. by rewrite Hread. Qed.

Lemma reachable_has_no_vesels (p : Async.progress) :
  Async.reachable p -> Async.read p "vesels" = None.
Proof.
  induction 1 as [|name turn p Hname _ IH]; [reflexivity|].
  rewrite read_write_ne; [exact IH|].
  intros ->. unfold Async.families in Hname.
  repeat (apply elem_of_cons in Hname as [Hname|Hname]; [discriminate|]).
  by apply elem_of_nil in Hname.
Qed.

(** X28: whatever refreshes have been started, the two vessel accessors
    read the cache of the turn they are called in: the property of
    [updateProgress] they await is never assigned. *)
Lemma vessel_accessors_never_wait (p : Async.progress) (history : nat -> State)
  (now : nat) (id : Z) :
  Async.reachable p ->
  Async.getVessels p history now = Some (Ok (vesselsById (history now)))
  /\ Async.getVessel id false p history now = Some (Ok (vesselsById (history now) !! id)).
Proof.
  intros Hp. apply reachable_has_no_vesels in Hp.
  unfold Async.getVessels, Async.getVessel.
  rewrite !accessor_does_not_wait by done. done.
Qed.

(** C9, evaluated: a refresh of the vessels is in flight from turn 0 to
    turn 5 and fills the cache with vessel 7.  [getVessels] and [getVessel]
    called at turn 2 await [updateProgress.vesels], which is undefined, and
    return what the cache holds at turn 2; [getTerminals] called during a
    refresh of the terminals returns what that refresh leaves. *)
Theorem getVessels_does_not_wait_for_refresh :
  Async.read Scenario.vesselsRefreshing "vessels" = Some (Async.SettlesAt 5)
  /\ Async.read Scenario.vesselsRefreshing "vesels" = None
  /\ Async.getVessels Scenario.vesselsRefreshing Scenario.vesselsHistory 2
     = Some (Ok (vesselsById (Scenario.vesselsHistory 2)))
  /\ Async.getVessel 7 false Scenario.vesselsRefreshing Scenario.vesselsHistory 2
     = Some (Ok None)
  /\ vesselsById (Scenario.vesselsHistory 2) !! 7 = None
  /\ vesselsById (Scenario.vesselsHistory 5) !! 7 = Some 1%positive
  /\ Async.getTerminals Scenario.terminalsRefreshing Scenario.terminalsHistory 2
     = Some (Ok (terminalsById (Scenario.terminalsHistory 5))).
Proof. vm_compute. repeat split. Qed.

(** ** The schedule map stays keyed by time *)

Section Preservation.
Context (P : State -> Prop).

Lemma preserves_ret {A} (a : A) : preserves P (ret a).
Proof. by intros s. Qed.

Lemma preserves_throw {A} (e : error) : preserves P (@throw A e).
Proof. by intros s. Qed.

Lemma preserves_gets {A} (f : State -> A) : preserves P (gets f).
Proof. by intros s. Qed.

Lemma preserves_modify (f : State -> State) :
  (forall s, P s -> P (f s)) -> preserves P (modify f).
Proof. intros H s. apply H. Qed.

Lemma preserves_bind {A B} (c : M A) (k : A -> M B) :
  preserves P c -> (forall a, preserves P (k a)) -> preserves P (bind c k).
Proof.
  intros Hc Hk s Hs. unfold bind. specialize (Hc s Hs).
  destruct (c s) as [[a|e] s1]; simpl in *; [by apply Hk | done].
Qed.

Lemma preserves_each {A} (l : list A) (f : A -> M unit) :
  (forall x, preserves P (f x)) -> preserves P (each l f).
Proof.
  intros Hf. induction l as [|x rest IH]; simpl.
  - apply preserves_ret.
  - apply preserves_bind; [apply Hf | intros _; apply IH].
Qed.

Lemma preserves_mapM {A B} (f : A -> M B) (l : list A) :
  (forall x, preserves P (f x)) -> preserves P (mapM f l).
Proof.
  intros Hf. induction l as [|x rest IH]; simpl.
  - apply preserves_ret.
  - apply preserves_bind; [apply Hf|]. intros y.
    apply preserves_bind; [apply IH|]. intros ys. apply preserves_ret.
Qed.

End Preservation.

Lemma wellKeyed_same_map (s s' : State) :
  scheduleByTerminal s' = scheduleByTerminal s -> wellKeyed s -> wellKeyed s'.
Proof.
  intros E H departureId arrivalId. unfold routeSchedule. rewrite E. apply H.
Qed.

(** A state change that leaves the schedule map alone. *)
Ltac same_map := intros ? ?; eapply wellKeyed_same_map; [|eassumption]; try reflexivity.

Lemma preserves_fetch {A} (r : request) (response : option A) :
  preserves wellKeyed (fetch r response).
Proof.
  unfold fetch. apply preserves_bind; [apply preserves_modify; same_map|].
  intros _. destruct response; [apply preserves_ret | apply preserves_throw].
Qed.

Lemma preserves_getVessel (id : Z) (resetDelay : bool) :
  preserves wellKeyed (getVessel id resetDelay).
Proof. intros s Hs. unfold getVessel. destruct resetDelay; simpl; [|done]. revert Hs. same_map. Qed.

Lemma preserves_assignVessel (id : Z) (data : obj) : preserves wellKeyed (assignVessel id data).
Proof.
  unfold assignVessel. apply preserves_bind.
  - intros s Hs. unfold initVessel. destruct (vesselsById s !! id); simpl; [done|].
    revert Hs. same_map.
  - intros _. apply preserves_modify. intros s Hs.
    destruct (vesselsById s !! id); [|done]. revert Hs. same_map.
Qed.

Lemma preserves_assignTerminal (id : Z) (data : obj) :
  preserves wellKeyed (assignTerminal id data).
Proof.
  unfold assignTerminal, initTerminal. apply preserves_bind.
  - apply preserves_modify. intros s Hs. destruct (terminalsById s !! id); [done|].
    revert Hs. same_map.
  - intros _. apply preserves_modify. same_map.
Qed.

Lemma preserves_newCapacity (model : Capacity.t) : preserves wellKeyed (newCapacity model).
Proof. unfold newCapacity. same_map. Qed.

Lemma preserves_saveCapacity (capacity : loc) : preserves wellKeyed (saveCapacity capacity).
Proof.
  unfold saveCapacity. apply preserves_modify. intros s Hs.
  destruct (capacityHeap s !! capacity); [|done]. revert Hs. same_map.
Qed.

Lemma routeSchedule_set_other (s : State) (byTerminal : gmap Z (gmap Z (gmap string Crossing.t)))
  (departureId arrivalId d a : Z) (schedule : gmap string Crossing.t) :
  scheduleByTerminal s = setRouteSchedule departureId arrivalId schedule byTerminal ->
  (d, a) ≠ (departureId, arrivalId) ->
  routeSchedule s d a = default ∅ (byTerminal !! d ≫= (fun mates : gmap Z (gmap string Crossing.t) => mates !! a)).
Proof.
  intros E Hne. unfold routeSchedule. rewrite E. unfold setRouteSchedule.
  destruct (decide (departureId = d)) as [->|Hd].
  - rewrite lookup_insert_eq. simpl.
    rewrite lookup_insert_ne by congruence.
    by destruct (byTerminal !! d).
  - by rewrite lookup_insert_ne.
Qed.

Lemma wellKeyed_setRouteSchedule (s s' : State) (departureId arrivalId : Z)
  (schedule : gmap string Crossing.t) :
  scheduleByTerminal s'
    = setRouteSchedule departureId arrivalId schedule (scheduleByTerminal s) ->
  keyedByTime schedule -> wellKeyed s -> wellKeyed s'.
Proof.
  intros E Hschedule Hs d a.
  destruct (decide ((d, a) = (departureId, arrivalId))) as [[= -> ->]|Hne].
  - by rewrite (routeSchedule_set _ _ _ _ _ E).
  - rewrite (routeSchedule_set_other _ _ _ _ _ _ _ E Hne). apply Hs.
Qed.

Lemma preserves_setCrossingCapacity (departureId arrivalId : Z) (key : string) (capacity : loc) :
  preserves wellKeyed (setCrossingCapacity departureId arrivalId key capacity).
Proof.
  intros s Hs. unfold setCrossingCapacity.
  destruct (crossingAt s departureId arrivalId key) as [crossing|] eqn:Hat; simpl; [|done].
  eapply wellKeyed_setRouteSchedule; [reflexivity| |exact Hs].
  by apply keyedByTime_with_capacity.
Qed.

Lemma keyedByTime_keyBy (schedule : list Crossing.t) : keyedByTime (keyBy schedule).
Proof. intros key crossing H. by apply keyBy_lookup in H as [_ ?]. Qed.

Lemma preserves_backfillCrossings (yesterday : Z -> Z) (now : Z) :
  preserves wellKeyed (backfillCrossings yesterday now).
Proof.
  unfold backfillCrossings. apply preserves_bind; [apply preserves_gets|].
  intros crossings. apply preserves_each. intros row.
  apply preserves_bind; [apply preserves_newCapacity|].
  intros capacity. apply preserves_setCrossingCapacity.
Qed.

Lemma preserves_updateRoute (minusWeek : Z -> Z) (now : Z) (upstream : Upstream.t)
  (terminalId mateId : Z) :
  preserves wellKeyed (updateRoute minusWeek now upstream terminalId mateId).
Proof.
  unfold updateRoute. apply preserves_bind; [apply preserves_fetch|].
  intros response. apply preserves_bind.
  { destruct response; [apply preserves_throw | apply preserves_ret]. }
  intros times. apply preserves_bind.
  { apply preserves_mapM. intros started. unfold scheduledCrossing.
    apply preserves_bind; [apply preserves_getVessel|]. intros vessel. apply preserves_ret. }
  intros schedule. apply preserves_bind; [apply preserves_gets|].
  intros known. apply preserves_bind.
  { destruct known; [apply preserves_ret|].
    destruct schedule as [|first rest]; [apply preserves_throw|].
    apply preserves_bind; [apply preserves_gets|]. intros crossings.
    apply preserves_modify. same_map. }
  intros _. apply preserves_modify. intros s Hs.
  eapply wellKeyed_setRouteSchedule; [reflexivity|apply keyedByTime_keyBy|exact Hs].
Qed.

Lemma preserves_updateSchedule (minusWeek yesterday : Z -> Z) (now : Z) (upstream : Upstream.t) :
  preserves wellKeyed (updateSchedule minusWeek yesterday now upstream).
Proof.
  unfold updateSchedule. apply preserves_bind; [apply preserves_fetch|].
  intros cacheFlushDate. apply preserves_bind; [apply preserves_gets|].
  intros known. destruct (strict_eq cacheFlushDate known); [apply preserves_ret|].
  apply preserves_bind; [apply preserves_modify; same_map|]. intros _.
  apply preserves_bind; [apply preserves_fetch|]. intros mates.
  apply preserves_bind; [apply preserves_modify; same_map|]. intros _.
  apply preserves_bind.
  { apply preserves_each. intros mate. apply preserves_modify. same_map. }
  intros _. apply preserves_bind; [apply preserves_gets|]. intros byTerminal.
  apply preserves_bind.
  { apply preserves_each. intros entry. apply preserves_each. intros mateId.
    apply preserves_updateRoute. }
  intros _. apply preserves_backfillCrossings.
Qed.

Lemma preserves_updateVessels (upstream : Upstream.t) :
  preserves wellKeyed (updateVessels upstream).
Proof.
  unfold updateVessels. apply preserves_bind; [apply preserves_fetch|].
  intros cacheFlushDate. apply preserves_bind; [apply preserves_gets|].
  intros known. destruct (strict_eq cacheFlushDate known); [apply preserves_ret|].
  apply preserves_bind; [apply preserves_modify; same_map|]. intros _.
  apply preserves_bind; [apply preserves_fetch|]. intros vessels.
  apply preserves_each. intros vessel.
  destruct (vesselStatic _ _); [apply preserves_assignVessel | apply preserves_throw].
Qed.

Lemma preserves_updateTerminals (getCameras : Z -> value) (upstream : Upstream.t) :
  preserves wellKeyed (updateTerminals getCameras upstream).
Proof.
  unfold updateTerminals. apply preserves_bind; [apply preserves_fetch|].
  intros cacheFlushDate. apply preserves_bind; [apply preserves_gets|].
  intros known. destruct (strict_eq cacheFlushDate known); [apply preserves_ret|].
  apply preserves_bind; [apply preserves_modify; same_map|]. intros _.
  apply preserves_bind; [apply preserves_fetch|]. intros terminals.
  apply preserves_bind.
  { apply preserves_each. intros terminal. apply preserves_assignTerminal. }
  intros _. apply preserves_bind; [apply preserves_gets|]. intros mates.
  apply preserves_each. intros entry.
  apply preserves_bind; [|intros; apply preserves_assignTerminal].
  apply preserves_mapM. intros mateId. unfold mateWithRoute.
  apply preserves_bind; [apply preserves_gets|]. intros mate.
  apply preserves_bind; [apply preserves_fetch|]. intros routes.
  destruct routes; [apply preserves_throw | apply preserves_ret].
Qed.

Lemma preserves_recordTiming (now : Z) (upstream : Upstream.t) :
  preserves wellKeyed (recordTiming now upstream).
Proof.
  unfold recordTiming. apply preserves_bind; [apply preserves_fetch|].
  intros vessels. apply preserves_each. intros vessel. unfold recordVesselTiming.
  apply preserves_bind; [apply preserves_gets|]. intros cached.
  apply preserves_bind; [|intros; apply preserves_assignVessel].
  destruct (truthy (VesselLocation.AtDock vessel)); [|apply preserves_ret].
  destruct cached as [previous|]; [|apply preserves_throw].
  destruct (negb _); apply preserves_ret.
Qed.

Lemma preserves_attachReading (reading : TerminalSpace.t * DepartingSpace.t * ArrivalSpace.t) :
  preserves wellKeyed (attachReading reading).
Proof.
  unfold attachReading. apply preserves_bind; [apply preserves_gets|]. intros vessel.
  apply preserves_bind; [apply preserves_newCapacity|]. intros capacity.
  apply preserves_bind; [apply preserves_setCrossingCapacity|]. intros _.
  apply preserves_bind; [apply preserves_saveCapacity|]. intros _.
  apply preserves_bind; [apply preserves_gets|]. intros previous. apply preserves_ret.
Qed.

Lemma preserves_supersede (now : Z) (pending : loc * option loc) :
  preserves wellKeyed (supersede now pending).
Proof.
  destruct pending as [capacity [previous|]]; simpl; [|apply preserves_ret].
  apply preserves_bind; [apply preserves_gets|]. intros heap.
  destruct (heap !! previous); [|apply preserves_ret].
  destruct (heap !! capacity); [|apply preserves_ret].
  destruct (_ && _); [|apply preserves_ret].
  apply preserves_bind; [apply preserves_modify; same_map|]. intros _.
  apply preserves_saveCapacity.
Qed.

(** The first half of [recordCapacity] always returns, keeps the schedule
    map keyed by time, and finds no previous capacity for any reading. *)
Lemma startAll_no_previous (l : list (TerminalSpace.t * DepartingSpace.t * ArrivalSpace.t)) :
  forall s, wellKeyed s ->
  exists pending s',
    startAll l s = (Ok pending, s')
    /\ wellKeyed s'
    /\ Forall (fun p : loc * option loc => p.2 = None) pending.
Proof.
  induction l as [|reading rest IH]; intros s Hs; simpl.
  - by exists [], s.
  - pose proof (preserves_attachReading reading s Hs) as Hkeyed.
    destruct (attachReading reading s) as [[pending|e] s1] eqn:Hrun; simpl in Hkeyed.
    + destruct (IH s1 Hkeyed) as (others & s2 & Hrest & Hs2 & Hnone).
      exists (pending :: others), s2. unfold bind. rewrite Hrest.
      split; [done|]. split; [done|]. constructor; [|done].
      eapply attachReading_no_previous; [apply Hs | exact Hrun].
    + apply (IH (set_unhandled (unhandled s1 ++ [e])%list s1)).
      revert Hkeyed. same_map.
Qed.

Lemma supersede_nothing (now : Z) (pending : list (loc * option loc)) (s : State) :
  Forall (fun p : loc * option loc => p.2 = None) pending ->
  each pending (supersede now) s = (Ok tt, s).
Proof.
  induction 1 as [|[capacity previous] rest Hnone _ IH]; simpl; [done|].
  simpl in Hnone. subst previous. unfold bind. simpl. exact IH.
Qed.

(** X26: in a state whose schedule map is keyed by time, a capacity update
    whose request succeeds returns, and its second half changes nothing,
    whatever the feed holds: the state it leaves is the one the callbacks
    leave at their [await], so no reading leads to a correction of the
    sailing before it. *)
Lemma recordCapacity_never_corrects (now : Z) (upstream : Upstream.t) (s : State)
  (terminals : list TerminalSpace.t) :
  wellKeyed s ->
  Upstream.terminalSailingSpace upstream = Some terminals ->
  exists pending s',
    startAll (readings terminals)
      (set_requests (requests s ++ [API_TERMINALS_SPACE])%list s) = (Ok pending, s')
    /\ recordCapacity now upstream s = (Ok tt, s').
Proof.
  intros Hs Hfeed.
  destruct (startAll_no_previous (readings terminals)
              (set_requests (requests s ++ [API_TERMINALS_SPACE])%list s))
    as (pending & s' & Hstart & _ & Hnone).
  { revert Hs. same_map. }
  exists pending, s'. split; [done|].
  unfold recordCapacity, fetch, bind, modify. rewrite Hfeed. simpl.
  rewrite Hstart. by apply supersede_nothing.
Qed.

Lemma preserves_recordCapacity (now : Z) (upstream : Upstream.t) :
  preserves wellKeyed (recordCapacity now upstream).
Proof.
  unfold recordCapacity. apply preserves_bind; [apply preserves_fetch|].
  intros terminals. apply preserves_bind.
  - intros s Hs. destruct (startAll_no_previous (readings terminals) s Hs)
      as (pending & s' & -> & Hs' & _). done.
  - intros pending. apply preserves_each. apply preserves_supersede.
Qed.

Lemma preserves_updateEstimates (minusWeek : Z -> Z) :
  preserves wellKeyed (updateEstimates minusWeek).
Proof.
  intros s Hs departureId arrivalId key crossing Hat.
  change (crossingAt (updateEstimates minusWeek s).2 departureId arrivalId key = Some crossing)
    in Hat.
  rewrite crossingAt_updateEstimates in Hat.
  destruct (crossingAt s departureId arrivalId key) as [before|] eqn:Hbefore; [|done].
  simpl in Hat. injection Hat as <-. simpl. by apply (Hs departureId arrivalId).
Qed.

(** X25: the schedule map is keyed by time at the start and after every
    long or short cycle, also one that ends in an exception: the name of
    each property of a route schedule is the decimal string of the time of
    its crossing. *)
Theorem schedule_map_keyed_by_time
  (minusWeek yesterday : Z -> Z) (getCameras : Z -> value) (now : Z) (upstream : Upstream.t) :
  wellKeyed initialState
  /\ preserves wellKeyed (updateCache minusWeek yesterday getCameras now upstream)
  /\ preserves wellKeyed (updateCrossings minusWeek now upstream).
Proof.
  split; [|split].
  - intros departureId arrivalId key crossing H.
    unfold routeSchedule in H. simpl in H. rewrite lookup_empty in H. simpl in H.
    by rewrite lookup_empty in H.
  - unfold updateCache. apply preserves_bind; [apply preserves_updateVessels|]. intros _.
    apply preserves_bind; [apply preserves_updateSchedule|]. intros _.
    apply preserves_updateTerminals.
  - unfold updateCrossings. apply preserves_bind; [apply preserves_recordTiming|]. intros _.
    apply preserves_bind; [apply preserves_recordCapacity|]. intros _.
    apply preserves_updateEstimates.
Qed.

(** * Further properties *)


(** * Further properties of the module *)

(** ** Following the structure of a computation *)

Ltac preserve_step :=
  lazymatch goal with
  | |- preserves _ (ret _) => apply preserves_ret
  | |- preserves _ (throw _) => apply preserves_throw
  | |- preserves _ (gets _) => apply preserves_gets
  | |- preserves _ (bind _ _) => apply preserves_bind; [|intros ?]
  | |- preserves _ (each _ _) => apply preserves_each; intros ?
  | |- preserves _ (mapM _ _) => apply preserves_mapM; intros ?
  | |- preserves _ (modify _) => apply preserves_modify; intros ? ?
  | |- preserves _ (match ?x with _ => _ end) => destruct x
  | |- preserves _ _ => intros ? ?; cbv beta
  end.

Ltac preserve :=
  repeat preserve_step;
  repeat case_match; simpl in *; try done.

Create HintDb wsf.
#[local] Hint Unfold fetch initVessel assignVessel initTerminal assignTerminal
  getVessel getMates findAll saveCapacity newCapacity setCrossingCapacity
  backfillCrossings scheduledCrossing updateRoute updateSchedule updateVessels
  mateWithRoute updateTerminals updateCache recordVesselTiming recordTiming
  attachReading supersede recordCapacity updateEstimates updateCrossings : wsf.

Lemma preserves_startAll (P : State -> Prop) :
  (forall reading, preserves P (attachReading reading)) ->
  (forall s errors, P s -> P (set_unhandled errors s)) ->
  forall l, preserves P (startAll l).
Proof.
  intros Hattach Hunhandled l. induction l as [|reading rest IH]; intros s Hs; simpl; [done|].
  pose proof (Hattach reading s Hs) as H1.
  destruct (attachReading reading s) as [[pending|e] s1]; simpl in H1.
  - unfold bind. pose proof (IH s1 H1) as H2.
    by destruct (startAll rest s1) as [[others|e] s2].
  - apply IH. by apply Hunhandled.
Qed.

Lemma bind_Throw {A B} (c : M A) (k : A -> M B) s e s' :
  c s = (Throw e, s') -> bind c k s = (Throw e, s').
Proof. intros H. unfold bind. by rewrite H. Qed.

Lemma bind_step {A B} (c : M A) (k : A -> M B) s a s' :
  c s = (Ok a, s') -> bind c k s = k a s'.
Proof. intros H. unfold bind. by rewrite H. Qed.

(** ** Who writes what *)

(** X1: the long cycle never writes to the relational store: whatever
    upstream answers and however the cycle ends, the table and the log of
    saved rows are as before. *)
Theorem updateCache_never_writes_store
  (minusWeek yesterday : Z -> Z) (getCameras : Z -> value) (now : Z) (upstream : Upstream.t)
  (s : State) :
  let s' := (updateCache minusWeek yesterday getCameras now upstream s).2 in
  table s' = table s /\ saved s' = saved s.
Proof.
  assert (H : preserves (fun s' => table s' = table s /\ saved s' = saved s)
                (updateCache minusWeek yesterday getCameras now upstream)).
  { autounfold with wsf. preserve. }
  exact (H s (conj eq_refl eq_refl)).
Qed.

(** X2: the short cycle leaves the data of the long cycle alone: the
    flush dates, the mates index, the terminals and last week's capacities
    are as before, however the cycle ends. *)
Theorem updateCrossings_keeps_long_cycle_data
  (minusWeek : Z -> Z) (now : Z) (upstream : Upstream.t) (s : State) :
  let s' := (updateCrossings minusWeek now upstream s).2 in
  cacheFlushDates s' = cacheFlushDates s
  /\ matesByTerminalId s' = matesByTerminalId s
  /\ terminalsById s' = terminalsById s
  /\ previousCapacityByTerminal s' = previousCapacityByTerminal s.
Proof.
  set (P := fun s' : State =>
    cacheFlushDates s' = cacheFlushDates s
    /\ matesByTerminalId s' = matesByTerminalId s
    /\ terminalsById s' = terminalsById s
    /\ previousCapacityByTerminal s' = previousCapacityByTerminal s).
  assert (Hattach : forall reading, preserves P (attachReading reading)).
  { intros reading. unfold P. autounfold with wsf. preserve. }
  assert (H : preserves P (updateCrossings minusWeek now upstream)).
  { unfold updateCrossings.
    apply preserves_bind; [unfold P; autounfold with wsf; preserve|]. intros _.
    apply preserves_bind; [|intros _; unfold P; autounfold with wsf; preserve].
    unfold recordCapacity.
    apply preserves_bind; [unfold P; autounfold with wsf; preserve|]. intros terminals.
    apply preserves_bind; [apply preserves_startAll; [exact Hattach | by unfold P]|].
    intros pending. apply preserves_each. intros p.
    unfold P. autounfold with wsf. preserve. }
  exact (H s (conj eq_refl (conj eq_refl (conj eq_refl eq_refl)))).
Qed.

(** ** The mates index *)

Lemma ascending_weaken (b b' : Z) (mates : list (Z * list Z)) :
  b' <= b -> ascending (Some b) mates -> ascending (Some b') mates.
Proof. destruct mates as [|[k ms] rest]; simpl; [done|]. intros ? [? ?]. split; [lia|done]. Qed.

Lemma lookupMates_cons (id k : Z) (ms : list Z) (rest : list (Z * list Z)) :
  lookupMates id ((k, ms) :: rest) = if k =? id then Some ms else lookupMates id rest.
Proof. unfold lookupMates. simpl. by destruct (k =? id). Qed.

Lemma lookupMates_below (id b : Z) (mates : list (Z * list Z)) :
  id <= b -> ascending (Some b) mates -> lookupMates id mates = None.
Proof.
  revert b. induction mates as [|[k ms] rest IH]; intros b Hle Hasc; [done|].
  destruct Hasc as [Hb Hrest]. rewrite lookupMates_cons.
  destruct (k =? id) eqn:E; [lia|].
  apply (IH k); [lia|done].
Qed.

Lemma initMates_spec (id : Z) (mates : list (Z * list Z)) (lower : option Z) :
  ascending lower mates ->
  match lower with Some b => b < id | None => True end ->
  ascending lower (initMates id mates)
  /\ forall id', lookupMates id' (initMates id mates)
       = if id =? id' then Some (default [] (lookupMates id' mates))
         else lookupMates id' mates.
Proof.
  revert lower. induction mates as [|[k ms] rest IH]; intros lower Hasc Hlower; simpl.
  - split; [done|]. intros id'. rewrite lookupMates_cons. by destruct (id =? id').
  - destruct Hasc as [Hk Hrest].
    destruct (k =? id) eqn:Ek.
    + split; [done|]. intros id'. rewrite lookupMates_cons.
      destruct (id =? id') eqn:E; [|done].
      assert ((k =? id') = true) as -> by lia. done.
    + destruct (id <? k) eqn:Elt.
      * split; [simpl; split; [done|split; [lia|done]]|].
        intros id'. rewrite lookupMates_cons.
        destruct (id =? id') eqn:E; [|done].
        rewrite lookupMates_cons.
        assert ((k =? id') = false) as -> by lia.
        by rewrite (lookupMates_below id' k rest) by (lia || done).
      * destruct (IH (Some k) Hrest) as [Hasc' Hlook]; [simpl; lia|].
        split; [simpl; split; done|].
        intros id'. rewrite !lookupMates_cons.
        destruct (k =? id') eqn:Ek'.
        -- assert ((id =? id') = false) as -> by lia. done.
        -- apply Hlook.
Qed.

Lemma pushMate_spec (id mateId : Z) (mates : list (Z * list Z)) (lower : option Z) :
  ascending lower mates ->
  ascending lower (pushMate id mateId mates)
  /\ forall id', lookupMates id' (pushMate id mateId mates)
       = if id =? id' then (fun ms => ms ++ [mateId])%list <$> lookupMates id' mates
         else lookupMates id' mates.
Proof.
  revert lower. induction mates as [|[k ms] rest IH]; intros lower Hasc; simpl.
  - split; [done|]. intros id'. by destruct (id =? id').
  - destruct Hasc as [Hk Hrest]. destruct (k =? id) eqn:Ek.
    + split; [done|]. intros id'. rewrite !lookupMates_cons.
      destruct (k =? id') eqn:Ek'.
      * assert ((id =? id') = true) as -> by lia. done.
      * assert ((id =? id') = false) as -> by lia. done.
    + destruct (IH (Some k) Hrest) as [Hasc' Hlook].
      split; [simpl; split; done|].
      intros id'. rewrite !lookupMates_cons.
      destruct (k =? id') eqn:Ek'.
      * assert ((id =? id') = false) as -> by lia. done.
      * apply Hlook.
Qed.

Lemma addMate_spec (id mateId : Z) (mates : list (Z * list Z)) :
  ascending None mates ->
  ascending None (addMate id mateId mates)
  /\ forall id', lookupMates id' (addMate id mateId mates)
       = if id =? id' then Some ((default [] (lookupMates id' mates) ++ [mateId])%list)
         else lookupMates id' mates.
Proof.
  intros Hasc. unfold addMate.
  destruct (initMates_spec id mates None Hasc I) as [Hasc1 Hlook1].
  destruct (pushMate_spec id mateId _ None Hasc1) as [Hasc2 Hlook2].
  split; [done|]. intros id'. rewrite Hlook2, Hlook1.
  by destruct (id =? id').
Qed.

Lemma addMates_spec (mates : list Mate.t) : forall index,
  ascending None index ->
  let index' :=
    fold_left (fun index mate =>
                 addMate (Mate.DepartingTerminalID mate) (Mate.ArrivingTerminalID mate) index)
              mates index in
  ascending None index'
  /\ forall id, lookupMates id index'
       = match arrivalsOf id mates with
         | Some listed => Some ((default [] (lookupMates id index) ++ listed)%list)
         | None => lookupMates id index
         end.
Proof.
  induction mates as [|mate rest IH]; intros index Hasc; simpl.
  - split; [done|]. intros id. done.
  - destruct (addMate_spec (Mate.DepartingTerminalID mate) (Mate.ArrivingTerminalID mate)
                index Hasc) as [Hasc1 Hlook1].
    destruct (IH _ Hasc1) as [Hasc2 Hlook2].
    split; [done|]. intros id. rewrite Hlook2, Hlook1.
    unfold arrivalsOf. simpl.
    destruct (Mate.DepartingTerminalID mate =? id) eqn:E; simpl.
    + destruct (List.filter _ rest); simpl; [done|].
      by rewrite <- app_assoc.
    + done.
Qed.

Lemma each_addMate (mates : list Mate.t) : forall s,
  each mates (fun mate =>
    modify (fun s =>
      set_matesByTerminalId
        (addMate (Mate.DepartingTerminalID mate) (Mate.ArrivingTerminalID mate)
           (matesByTerminalId s)) s)) s
  = (Ok tt,
     set_matesByTerminalId
       (fold_left (fun index mate =>
                     addMate (Mate.DepartingTerminalID mate) (Mate.ArrivingTerminalID mate) index)
                  mates (matesByTerminalId s)) s).
Proof.
  induction mates as [|mate rest IH]; intros s; simpl.
  - by destruct s.
  - unfold bind, modify at 1. rewrite IH. simpl. done.
Qed.

(** X3: a schedule refresh that gets past the mates request rebuilds the
    mates index from upstream alone: each departing terminal maps to the
    arriving terminals upstream lists for it, in upstream's order, and a
    terminal upstream does not list has no entry, whatever the index held
    before and however the rest of the refresh ends.  The ids of the index
    are in ascending order, each once. *)
Theorem updateSchedule_rebuilds_mates
  (minusWeek yesterday : Z -> Z) (now : Z) (upstream : Upstream.t) (s : State)
  (date : value) (mates : list Mate.t) :
  Upstream.scheduleCacheFlushDate upstream = Some date ->
  strict_eq date (FlushDates.schedule (cacheFlushDates s)) = false ->
  Upstream.mates upstream = Some mates ->
  let s' := (updateSchedule minusWeek yesterday now upstream s).2 in
  ascending None (matesByTerminalId s')
  /\ forall id, lookupMates id (matesByTerminalId s') = arrivalsOf id mates.
Proof.
  intros Hdate Hnew Hmates s'.
  destruct (addMates_spec mates [] I) as [Hasc Hlook].
  set (index := fold_left (fun index mate =>
                  addMate (Mate.DepartingTerminalID mate) (Mate.ArrivingTerminalID mate) index)
                mates []) in *.
  assert (Hindex : matesByTerminalId s' = index).
  { subst s'. unfold updateSchedule.
    erewrite bind_step by (unfold fetch, bind, modify; rewrite Hdate; reflexivity).
    erewrite bind_step by reflexivity. simpl. rewrite Hnew.
    erewrite bind_step by reflexivity.
    erewrite bind_step by (unfold fetch, bind, modify; rewrite Hmates; reflexivity).
    erewrite bind_step by reflexivity.
    erewrite bind_step by apply each_addMate.
    match goal with |- matesByTerminalId (?c ?s0).2 = _ =>
      assert (Hkeep : preserves (fun s1 => matesByTerminalId s1 = index) c)
        by (autounfold with wsf; preserve);
      apply Hkeep
    end. reflexivity. }
  rewrite Hindex. split; [done|]. intros id. rewrite Hlook.
  by destruct (arrivalsOf id mates).
Qed.

(** ** The table of capacities *)







(** ** Reading a schedule *)

Lemma insert_by_time_perm (c : Crossing.t) (l : list Crossing.t) :
  insert_by_time c l ≡ₚ c :: l.
Proof.
  induction l as [|c' rest IH]; simpl; [done|].
  destruct (Crossing.time c' <=? Crossing.time c); [|done].
  rewrite IH. apply Permutation_swap.
Qed.

Lemma insert_by_time_sorted (c : Crossing.t) (l : list Crossing.t) :
  StronglySorted byTime l -> StronglySorted byTime (insert_by_time c l).
Proof.
  induction 1 as [|c' rest Hsorted IH Hall]; simpl.
  - repeat constructor.
  - destruct (Crossing.time c' <=? Crossing.time c) eqn:E.
    + constructor; [done|].
      rewrite insert_by_time_perm. constructor; [unfold byTime; lia | done].
    + constructor; [by constructor|].
      constructor; [unfold byTime; lia|].
      eapply Forall_impl; [exact Hall|]. unfold byTime. intros x Hx. simpl in *. lia.
Qed.

Lemma fold_insert_by_time (entries : list (string * Crossing.t)) : forall sorted,
  StronglySorted byTime sorted ->
  let result := fold_left (fun sorted kc => insert_by_time kc.2 sorted) entries sorted in
  StronglySorted byTime result /\ result ≡ₚ (rev entries.*2 ++ sorted)%list.
Proof.
  induction entries as [|[k c] rest IH]; intros sorted Hsorted; simpl; [done|].
  destruct (IH _ (insert_by_time_sorted c sorted Hsorted)) as [H1 H2].
  split; [done|]. rewrite H2, insert_by_time_perm.
  by rewrite <- app_assoc.
Qed.

(** X6: [getSchedule] returns the crossings of the route, each once, in
    ascending order of time; for a route the map does not hold it returns
    the empty list.  It does not change the state. *)
Theorem getSchedule_sorted_by_time (s : State) (departingId arrivingId : Z) :
  exists schedule,
    getSchedule departingId arrivingId s = (Ok schedule, s)
    /\ StronglySorted byTime schedule
    /\ schedule ≡ₚ (map_to_list (routeSchedule s departingId arrivingId)).*2
    /\ (forall crossing, crossing ∈ schedule <->
          exists key, crossingAt s departingId arrivingId key = Some crossing)
    /\ (scheduleByTerminal s !! departingId = None -> schedule = []).
Proof.
  eexists. split; [reflexivity|].
  destruct (fold_insert_by_time (map_to_list (routeSchedule s departingId arrivingId)) []
              (SSorted_nil _)) as [Hsorted Hperm].
  rewrite app_nil_r in Hperm. rewrite <- Permutation_rev in Hperm.
  split; [done|]. split; [done|]. split.
  - intros crossing. rewrite Hperm. rewrite list_elem_of_fmap. unfold crossingAt. split.
    + intros ([k c] & -> & Hin). exists k. by apply elem_of_map_to_list in Hin.
    + intros [k Hk]. exists (k, crossing). split; [done|]. by apply elem_of_map_to_list.
  - intros Hnone. unfold routeSchedule. rewrite Hnone. simpl.
    by rewrite map_to_list_empty.
Qed.

(** ** What the two cycles keep of a cached vessel *)

Lemma get_field_assign_outside (names : list string) (data o : obj) (k : string) :
  Forall (fun kv : string * value => kv.1 ∈ names) data ->
  k ∉ names ->
  get_field (assign o data) k = get_field o k.
Proof.
  intros Hdata Hk. unfold assign. revert o.
  induction Hdata as [|[k1 v1] rest Hk1 _ IH]; intros o; simpl; [done|].
  rewrite IH. apply get_field_set_field_ne. intros ->. done.
Qed.

Section Keeps.
Context (names : list string) (id : Z) (l : loc) (o : obj).

Lemma keeps_same_vessels (s s' : State) :
  vesselsById s' = vesselsById s -> vesselHeap s' = vesselHeap s ->
  vesselsWf s /\ keepsOutside names id l o s ->
  vesselsWf s' /\ keepsOutside names id l o s'.
Proof.
  intros Hmap Hheap [Hwf Hkeep]. unfold vesselsWf, keepsOutside.
  rewrite Hmap, Hheap. done.
Qed.

Lemma keeps_fresh_object (s : State) (object : obj) :
  vesselsWf s /\ keepsOutside names id l o s ->
  (fun s' => vesselsWf s' /\ keepsOutside names id l o s')
    (set_vesselHeap (<[fresh (dom (vesselHeap s)) := object]> (vesselHeap s)) s).
Proof.
  intros [Hwf (Hid & o' & Hl & Hsame)].
  pose proof (is_fresh (dom (vesselHeap s))) as Hfresh.
  assert (Hother : forall p, is_Some (vesselHeap s !! p) ->
            (<[fresh (dom (vesselHeap s)) := object]> (vesselHeap s)) !! p = vesselHeap s !! p).
  { intros p Hp. apply lookup_insert_ne. intros E. apply Hfresh. rewrite E.
    by apply elem_of_dom. }
  split.
  - intros i p Hi. simpl in *. destruct (Hwf i p Hi) as [Hsome Hinj].
    split; [|done]. by rewrite Hother.
  - split; [done|]. exists o'. simpl. split; [|done]. rewrite Hother; [done|by eexists].
Qed.

Lemma keeps_getVessel (id' : Z) (resetDelay : bool) :
  preserves (fun s => vesselsWf s /\ keepsOutside names id l o s) (getVessel id' resetDelay).
Proof.
  intros s Hs. unfold getVessel. destruct resetDelay; simpl; [|done].
  by apply keeps_fresh_object.
Qed.

Lemma keeps_assignVessel (id' : Z) (data : obj) :
  Forall (fun kv : string * value => kv.1 ∈ names) data ->
  preserves (fun s => vesselsWf s /\ keepsOutside names id l o s) (assignVessel id' data).
Proof.
  intros Hdata s [Hwf (Hid & o' & Hl & Hsame)].
  unfold assignVessel, initVessel, bind, modify.
  destruct (vesselsById s !! id') as [l'|] eqn:Hid'; simpl.
  - rewrite Hid'. simpl. split.
    + intros i p Hi. simpl in *. destruct (Hwf i p Hi) as [Hsome Hinj].
      split; [|done]. destruct (decide (l' = p)) as [->|Hne].
      * rewrite lookup_alter_eq. destruct Hsome as [x ->]. by eexists.
      * by rewrite lookup_alter_ne.
    + split; [done|]. simpl. destruct (decide (l' = l)) as [->|Hne].
      * exists (assign o' data). rewrite lookup_alter_eq, Hl. split; [done|].
        intros k Hk. rewrite (get_field_assign_outside names) by done. by apply Hsame.
      * exists o'. by rewrite lookup_alter_ne.
  - rewrite lookup_insert_eq. simpl.
    pose proof (is_fresh (dom (vesselHeap s))) as Hfresh.
    set (new := fresh (dom (vesselHeap s))) in *.
    assert (Hnew : vesselHeap s !! new = None) by (by apply not_elem_of_dom).
    assert (Hlnew : new ≠ l) by (intros ->; congruence).
    rewrite alter_insert_eq. split.
    + intros i p Hi. simpl in *.
      destruct (decide (id' = i)) as [<-|Hne].
      * rewrite lookup_insert_eq in Hi. injection Hi as <-.
        split; [rewrite lookup_insert_eq; by eexists|].
        intros i' Hi'. destruct (decide (id' = i')) as [|Hne']; [done|].
        rewrite lookup_insert_ne in Hi' by done.
        destruct (Hwf i' new Hi') as [[x Hx] _]. congruence.
      * rewrite lookup_insert_ne in Hi by done.
        destruct (Hwf i p Hi) as [Hsome Hinj].
        assert (new ≠ p) by (intros ->; destruct Hsome; congruence).
        split; [by rewrite lookup_insert_ne|].
        intros i' Hi'. destruct (decide (id' = i')) as [<-|Hne'].
        -- rewrite lookup_insert_eq in Hi'. congruence.
        -- rewrite lookup_insert_ne in Hi' by done. by apply Hinj.
    + split.
      * simpl. rewrite lookup_insert_ne; [done|]. intros ->. congruence.
      * exists o'. simpl. by rewrite lookup_insert_ne.
Qed.

End Keeps.

Lemma vesselStatic_names (id : Z) (vessel data : obj) :
  vesselStatic id vessel = Ok data ->
  Forall (fun kv : string * value => kv.1 ∈ staticNames) data.
Proof.
  unfold vesselStatic. destruct (member _ _); [|discriminate]. intros [= <-].
  repeat constructor; simpl; apply list_elem_of_In; simpl;
    repeat first [left; reflexivity | right].
Qed.

(** The goals a step leaves for a write that does not touch the vessels. *)
Ltac keep_frame :=
  repeat case_match; simpl in *;
  try (eapply keeps_same_vessels; [| |eassumption]; reflexivity);
  try done.

Ltac keep_step :=
  first [ apply keeps_getVessel | preserve_step ].

Create HintDb wsf_outer.
#[local] Hint Unfold fetch initTerminal assignTerminal
  getMates findAll saveCapacity newCapacity setCrossingCapacity
  backfillCrossings scheduledCrossing updateRoute updateSchedule
  mateWithRoute updateTerminals updateCache recordTiming
  attachReading supersede recordCapacity updateEstimates updateCrossings : wsf_outer.

(** X7: the long cycle keeps the live data of a cached vessel: the cache
    still holds the same object for its id, and every property that is not
    one of the static ones [updateVessels] assigns (the delay, the docked
    time, the dock flag, the position, ...) holds what it held, however the
    cycle ends.  The static refresh does assign [speed] and [info]. *)
Theorem updateCache_keeps_live_fields
  (minusWeek yesterday : Z -> Z) (getCameras : Z -> value) (now : Z) (upstream : Upstream.t)
  (s : State) (id : Z) (l : loc) (o : obj) :
  vesselsWf s ->
  vesselsById s !! id = Some l ->
  vesselHeap s !! l = Some o ->
  let s' := (updateCache minusWeek yesterday getCameras now upstream s).2 in
  vesselsWf s' /\ keepsOutside staticNames id l o s'.
Proof.
  intros Hwf Hid Hl.
  assert (H : preserves (fun s => vesselsWf s /\ keepsOutside staticNames id l o s)
                (updateCache minusWeek yesterday getCameras now upstream)).
  { unfold updateCache. apply preserves_bind; [|intros _; apply preserves_bind; [|intros _]].
    - unfold updateVessels.
      apply preserves_bind; [unfold fetch; repeat keep_step; keep_frame|]. intros date.
      apply preserves_bind; [apply preserves_gets|]. intros known.
      destruct (strict_eq date known); [apply preserves_ret|].
      apply preserves_bind; [apply preserves_modify; intros ? ?; keep_frame|]. intros _.
      apply preserves_bind; [unfold fetch; repeat keep_step; keep_frame|]. intros vessels.
      apply preserves_each. intros vessel.
      destruct (vesselStatic _ _) eqn:E; [|apply preserves_throw].
      apply keeps_assignVessel. eapply vesselStatic_names. eassumption.
    - autounfold with wsf_outer. repeat keep_step; keep_frame.
    - autounfold with wsf_outer. repeat keep_step; keep_frame. }
  apply H. split; [done|]. split; [done|]. by exists o.
Qed.

Ltac names_in :=
  repeat constructor; simpl; apply list_elem_of_In; simpl;
  repeat first [left; reflexivity | right].

Ltac keep_vessel_step :=
  first [ apply keeps_getVessel
        | apply keeps_assignVessel; names_in
        | preserve_step ].

(** X8: the short cycle keeps the static data of a cached vessel: the
    cache still holds the same object for its id, and every property that
    is not one of those [recordTiming] assigns (the name, the capacities,
    the class, ...) holds what it held, however the cycle ends. *)
Theorem updateCrossings_keeps_static_fields
  (minusWeek : Z -> Z) (now : Z) (upstream : Upstream.t)
  (s : State) (id : Z) (l : loc) (o : obj) :
  vesselsWf s ->
  vesselsById s !! id = Some l ->
  vesselHeap s !! l = Some o ->
  let s' := (updateCrossings minusWeek now upstream s).2 in
  vesselsWf s' /\ keepsOutside timingNames id l o s'.
Proof.
  intros Hwf Hid Hl.
  set (P := fun s => vesselsWf s /\ keepsOutside timingNames id l o s).
  assert (Hattach : forall reading, preserves P (attachReading reading)).
  { intros reading. unfold P. autounfold with wsf_outer. repeat keep_vessel_step; keep_frame. }
  assert (H : preserves P (updateCrossings minusWeek now upstream)).
  { unfold updateCrossings.
    apply preserves_bind; [|intros _; apply preserves_bind; [|intros _]].
    - unfold P, recordTiming, recordVesselTiming, fetch.
      repeat keep_vessel_step; keep_frame.
    - unfold recordCapacity.
      apply preserves_bind;
        [unfold P, fetch; repeat keep_vessel_step; keep_frame|]. intros terminals.
      apply preserves_bind.
      { apply preserves_startAll; [exact Hattach|]. intros s0 errors Hs0.
        unfold P in *. keep_frame. }
      intros pending. apply preserves_each. intros p.
      unfold P. autounfold with wsf_outer. repeat keep_vessel_step; keep_frame.
    - unfold P. autounfold with wsf_outer. repeat keep_vessel_step; keep_frame. }
  apply H. split; [done|]. split; [done|]. by exists o.
Qed.

(** ** One poll of a vessel *)

(** X9: the delay of a cached vessel after a poll.  When upstream gives
    the scheduled and the actual departure, both numbers other than 0, the
    delay is their difference; when it gives null for either, the delay of
    the poll before is kept. *)
Theorem recordVesselTiming_delay (now : Z) (vessel : VesselLocation.t) (s : State)
  (l : loc) (previous : obj) :
  vesselsById s !! VesselLocation.VesselID vessel = Some l ->
  vesselHeap s !! l = Some previous ->
  exists (s' : State) (o : obj),
    recordVesselTiming now vessel s = (Ok tt, s')
    /\ vesselObject s' (VesselLocation.VesselID vessel) = Some o
    /\ (forall scheduled left,
          VesselLocation.ScheduledDeparture vessel = VNum scheduled ->
          VesselLocation.LeftDock vessel = VNum left ->
          scheduled ≠ 0 -> left ≠ 0 ->
          prop o "departureDelta" = VNum (left - scheduled))
    /\ (VesselLocation.ScheduledDeparture vessel = VNull
        \/ VesselLocation.LeftDock vessel = VNull ->
        prop o "departureDelta" = prop previous "departureDelta").
Proof.
  intros Hid Hl.
  assert (Hobj : vesselObject s (VesselLocation.VesselID vessel) = Some previous).
  { unfold vesselObject. rewrite Hid. simpl. exact Hl. }
  unfold recordVesselTiming, bind, gets. rewrite Hobj.
  destruct ((if truthy (VesselLocation.AtDock vessel)
     then if negb (truthy (prop previous "isAtDock")) then ret (VDate now) else ret VNull
     else ret VNull) s) as [outcome s0] eqn:Hdocked.
  assert (exists dockedTime, outcome = Ok dockedTime /\ s0 = s) as (dockedTime & -> & ->).
  { destruct (truthy (VesselLocation.AtDock vessel)); simpl in Hdocked;
      [destruct (truthy (prop previous "isAtDock")); simpl in Hdocked|];
      injection Hdocked as <- <-; by eexists. }
  unfold assignVessel, initVessel, bind, modify. rewrite Hid. simpl. rewrite Hid.
  eexists _, _. split; [reflexivity|].
  split.
  { unfold vesselObject. simpl. rewrite Hid. simpl.
    rewrite lookup_alter_eq, Hl. reflexivity. }
  split.
  - intros scheduled left Hs Hl' Hs0 Hl0.
    repeat (rewrite prop_set_field_ne by discriminate). rewrite prop_set_field_eq.
    rewrite Hs, Hl'. simpl.
    destruct (scheduled =? 0) eqn:E1; [lia|]. destruct (left =? 0) eqn:E2; [lia|]. done.
  - intros Hnull.
    repeat (rewrite prop_set_field_ne by discriminate). rewrite prop_set_field_eq.
    destruct Hnull as [-> | ->]; simpl; [done|].
    by rewrite andb_false_r.
Qed.

(** X10: a vessel that upstream reports at the dock and that is not in
    the cache stops the poll: reading [isAtDock] of the vessel that was not
    found throws.  When it is the first of the feed no vessel is recorded,
    and the short cycle ends there: no capacity is requested or saved and
    no estimate is recomputed. *)
Theorem updateCrossings_stops_at_unknown_docked_vessel
  (minusWeek : Z -> Z) (now : Z) (upstream : Upstream.t) (s : State)
  (vessel : VesselLocation.t) (others : list VesselLocation.t) :
  Upstream.vesselLocations upstream = Some (vessel :: others) ->
  truthy (VesselLocation.AtDock vessel) = true ->
  vesselsById s !! VesselLocation.VesselID vessel = None ->
  let stopped := set_requests (requests s ++ [API_VESSELS_LOCATIONS])%list s in
  recordTiming now upstream s
    = (Throw (TypeError "Cannot read property 'isAtDock' of undefined"), stopped)
  /\ updateCrossings minusWeek now upstream s
     = (Throw (TypeError "Cannot read property 'isAtDock' of undefined"), stopped).
Proof.
  intros Hfeed Hdock Hid stopped.
  assert (Hrun : recordTiming now upstream s
    = (Throw (TypeError "Cannot read property 'isAtDock' of undefined"), stopped)).
  { unfold recordTiming, fetch, bind, modify. rewrite Hfeed. simpl.
    unfold recordVesselTiming, bind, gets, vesselObject. simpl. rewrite Hid. simpl.
    by rewrite Hdock. }
  split; [done|]. unfold updateCrossings. by apply bind_Throw.
Qed.

(** ** A refresh that fails half way *)

(** X11: each refresh records the new flush date before it fetches the
    data.  When the data request then fails, the refresh throws with the new
    date recorded, and the next refresh of that family, with upstream at the
    same date, is skipped after the flush-date request: the failed fetch is
    not tried again until the date changes. *)
Theorem failed_refresh_is_not_retried
  (minusWeek yesterday : Z -> Z) (getCameras : Z -> value)
  (now : Z) (upstream : Upstream.t) (s : State) (date : value) :
  strict_eq date date = true ->
  (Upstream.vesselsCacheFlushDate upstream = Some date ->
   strict_eq date (FlushDates.vessels (cacheFlushDates s)) = false ->
   Upstream.vesselVerbose upstream = None ->
   exists s1,
     updateVessels upstream s = (Throw (RequestError API_VESSELS_VERBOSE), s1)
     /\ FlushDates.vessels (cacheFlushDates s1) = date
     /\ vesselsById s1 = vesselsById s /\ vesselHeap s1 = vesselHeap s
     /\ updateVessels upstream s1
        = (Ok tt, set_requests (requests s1 ++ [API_VESSELS_CACHE])%list s1))
  /\ (Upstream.scheduleCacheFlushDate upstream = Some date ->
      strict_eq date (FlushDates.schedule (cacheFlushDates s)) = false ->
      Upstream.mates upstream = None ->
      exists s1,
        updateSchedule minusWeek yesterday now upstream s
          = (Throw (RequestError apiScheduleMates), s1)
        /\ FlushDates.schedule (cacheFlushDates s1) = date
        /\ scheduleByTerminal s1 = scheduleByTerminal s
        /\ matesByTerminalId s1 = matesByTerminalId s
        /\ updateSchedule minusWeek yesterday now upstream s1
           = (Ok tt, set_requests (requests s1 ++ [API_SCHEDULE_CACHE])%list s1))
  /\ (Upstream.terminalsCacheFlushDate upstream = Some date ->
      strict_eq date (FlushDates.terminals (cacheFlushDates s)) = false ->
      Upstream.terminalVerbose upstream = None ->
      exists s1,
        updateTerminals getCameras upstream s
          = (Throw (RequestError API_TERMINALS_VERBOSE), s1)
        /\ FlushDates.terminals (cacheFlushDates s1) = date
        /\ terminalsById s1 = terminalsById s
        /\ updateTerminals getCameras upstream s1
           = (Ok tt, set_requests (requests s1 ++ [API_TERMINALS_CACHE])%list s1)).
Proof.
  intros Hrefl. split; [|split]; intros Hdate Hnew Hfail.
  - eexists. split.
    { unfold updateVessels, fetch, bind, modify, gets, throw. rewrite Hdate. simpl.
      rewrite Hnew. simpl. rewrite Hfail. reflexivity. }
    split; [reflexivity|]. split; [reflexivity|]. split; [reflexivity|].
    unfold updateVessels, fetch, bind, modify, gets, ret. rewrite Hdate. simpl.
    by rewrite Hrefl.
  - eexists. split.
    { unfold updateSchedule, fetch, bind, modify, gets, throw. rewrite Hdate. simpl.
      rewrite Hnew. simpl. rewrite Hfail. reflexivity. }
    split; [reflexivity|]. split; [reflexivity|]. split; [reflexivity|].
    unfold updateSchedule, fetch, bind, modify, gets, ret. rewrite Hdate. simpl.
    by rewrite Hrefl.
  - eexists. split.
    { unfold updateTerminals, fetch, bind, modify, gets, throw. rewrite Hdate. simpl.
      rewrite Hnew. simpl. rewrite Hfail. reflexivity. }
    split; [reflexivity|]. split; [reflexivity|].
    unfold updateTerminals, fetch, bind, modify, gets, ret. rewrite Hdate. simpl.
    by rewrite Hrefl.
Qed.

(** ** The schedule of one terminal pair *)

Lemma fetch_Some {A} (r : request) (a : A) (s : State) :
  fetch r (Some a) s = (Ok a, set_requests (requests s ++ [r])%list s).
Proof. reflexivity. Qed.

Lemma fetch_None {A} (r : request) (s : State) :
  fetch r (@None A) s = (Throw (RequestError r), set_requests (requests s ++ [r])%list s).
Proof. reflexivity. Qed.

(** X12: the edges of the schedule of a pair.  A failed request and an
    answer without terminal combos throw and leave everything but the
    request log as it was.  An answer without sailings throws at the time of
    the first sailing when last week's capacities of the pair are not known
    yet, and the schedule map is as before; when they are known, it
    replaces the schedule of the pair by an empty one. *)
Theorem updateRoute_edges
  (minusWeek : Z -> Z) (now : Z) (upstream : Upstream.t) (terminalId mateId : Z) (s : State) :
  let logged := set_requests (requests s ++ [apiScheduleToday terminalId mateId])%list s in
  (Upstream.scheduleToday upstream terminalId mateId = None ->
   updateRoute minusWeek now upstream terminalId mateId s
   = (Throw (RequestError (apiScheduleToday terminalId mateId)), logged))
  /\ (Upstream.scheduleToday upstream terminalId mateId = Some [] ->
      updateRoute minusWeek now upstream terminalId mateId s
      = (Throw (TypeError "Cannot read property 'Times' of undefined"), logged))
  /\ (forall others,
        Upstream.scheduleToday upstream terminalId mateId = Some (Combo.mk [] :: others) ->
        hasPreviousCapacity (previousCapacityByTerminal s) terminalId mateId = false ->
        updateRoute minusWeek now upstream terminalId mateId s
        = (Throw (TypeError "Cannot read property 'time' of undefined"), logged))
  /\ (forall others,
        Upstream.scheduleToday upstream terminalId mateId = Some (Combo.mk [] :: others) ->
        hasPreviousCapacity (previousCapacityByTerminal s) terminalId mateId = true ->
        exists s',
          updateRoute minusWeek now upstream terminalId mateId s = (Ok tt, s')
          /\ routeSchedule s' terminalId mateId = ∅
          /\ previousCapacityByTerminal s' = previousCapacityByTerminal s).
Proof.
  intros logged. split; [|split; [|split]].
  - intros Hup. unfold updateRoute. rewrite Hup. by apply bind_Throw.
  - intros Hup. unfold updateRoute. rewrite Hup.
    erewrite bind_step by apply fetch_Some. by apply bind_Throw.
  - intros others Hup Hknown. unfold updateRoute. rewrite Hup.
    erewrite bind_step by apply fetch_Some.
    erewrite bind_step by reflexivity. simpl.
    erewrite bind_step by reflexivity.
    erewrite bind_step by reflexivity. simpl. rewrite Hknown.
    by apply bind_Throw.
  - intros others Hup Hknown. unfold updateRoute. rewrite Hup.
    erewrite bind_step by apply fetch_Some.
    erewrite bind_step by reflexivity. simpl.
    erewrite bind_step by reflexivity.
    erewrite bind_step by reflexivity. simpl. rewrite Hknown.
    erewrite bind_step by reflexivity.
    eexists. split; [reflexivity|]. split; [|reflexivity].
    by erewrite routeSchedule_set by reflexivity.
Qed.

(** ** Keys of a schedule *)

Lemma to_int_proper (n : Z) : Z.to_int n ≠ Decimal.Pos Decimal.Nil /\ Z.to_int n ≠ Decimal.Neg Decimal.Nil.
Proof.
  destruct n; simpl; split; try discriminate; intros [= H];
    by apply DecimalPos.Unsigned.to_uint_nonnil in H.
Qed.

(** Two times have the same key only when they are the same time. *)
Lemma string_of_Z_inj (n m : Z) : string_of_Z n = string_of_Z m -> n = m.
Proof.
  unfold string_of_Z. intros E.
  apply DecimalZ.to_int_inj.
  destruct (to_int_proper n) as [Hn1 Hn2]. destruct (to_int_proper m) as [Hm1 Hm2].
  pose proof (NilZero.isi _ Hn1 Hn2) as Hn. pose proof (NilZero.isi _ Hm1 Hm2) as Hm.
  rewrite E in Hn. congruence.
Qed.

Lemma keyBy_has_key (schedule : list Crossing.t) (c : Crossing.t) :
  c ∈ schedule ->
  exists c', keyBy schedule !! string_of_Z (Crossing.time c) = Some c'
             /\ Crossing.time c' = Crossing.time c.
Proof.
  unfold keyBy.
  assert (G : forall (m : gmap string Crossing.t),
            (c ∈ schedule \/ exists c', m !! string_of_Z (Crossing.time c) = Some c'
                                /\ Crossing.time c' = Crossing.time c) ->
            exists c', fold_left (fun m c => <[string_of_Z (Crossing.time c) := c]> m) schedule m
                         !! string_of_Z (Crossing.time c) = Some c'
                       /\ Crossing.time c' = Crossing.time c).
  { induction schedule as [|x rest IH]; intros m H; simpl.
    - destruct H as [H|H]; [by apply elem_of_nil in H | done].
    - apply IH.
      destruct (decide (string_of_Z (Crossing.time x) = string_of_Z (Crossing.time c)))
        as [E|E].
      + right. exists x. rewrite E, lookup_insert_eq. split; [done|].
        by apply string_of_Z_inj.
      + destruct H as [H|H].
        * apply elem_of_cons in H as [->|H]; [done | by left].
        * right. by rewrite lookup_insert_ne. }
  intros Hin. apply G. by left.
Qed.

Lemma vesselsWf_fresh_object (s : State) (object : obj) :
  vesselsWf s ->
  vesselsWf (set_vesselHeap (<[fresh (dom (vesselHeap s)) := object]> (vesselHeap s)) s).
Proof.
  intros Hwf i p Hi. simpl in *. destruct (Hwf i p Hi) as [Hsome Hinj].
  split; [|done]. rewrite lookup_insert_ne; [done|].
  intros E. apply (is_fresh (dom (vesselHeap s))). rewrite E. by apply elem_of_dom.
Qed.

Lemma vesselObject_fresh_object (s : State) (object : obj) (id : Z) :
  vesselsWf s ->
  vesselObject (set_vesselHeap (<[fresh (dom (vesselHeap s)) := object]> (vesselHeap s)) s) id
  = vesselObject s id.
Proof.
  intros Hwf. unfold vesselObject. simpl.
  destruct (vesselsById s !! id) as [p|] eqn:Hid; simpl; [|done].
  destruct (Hwf id p Hid) as [Hsome _].
  rewrite lookup_insert_ne; [done|].
  intros E. apply (is_fresh (dom (vesselHeap s))). rewrite E. by apply elem_of_dom.
Qed.

Lemma mapM_scheduledCrossing_first (now : Z) (times : list Departure.t) :
  forall s cs s',
    vesselsWf s ->
    mapM (scheduledCrossing now) (map (fun departure => (departure, true)) times) s
      = (Ok cs, s') ->
    vesselsWf s'
    /\ vesselsById s' = vesselsById s
    /\ (forall p, is_Some (vesselHeap s !! p) -> vesselHeap s' !! p = vesselHeap s !! p)
    /\ previousCapacityByTerminal s' = previousCapacityByTerminal s
    /\ scheduleByTerminal s' = scheduleByTerminal s
    /\ table s' = table s
    /\ Forall (bareCrossing now times s s') cs.
Proof.
  induction times as [|departure rest IH]; intros s cs s' Hwf Hrun; simpl in Hrun.
  - unfold ret in Hrun. injection Hrun as <- <-. repeat (split; [done|]). constructor.
  - apply bind_Ok in Hrun as (c & s1 & Hc & Hrun).
    apply bind_Ok in Hrun as (cs' & s2 & Hcs & Hrun).
    unfold ret in Hrun. injection Hrun as <- <-.
    unfold scheduledCrossing, bind, getVessel, ret in Hc. simpl in Hc.
    injection Hc as <- <-.
    set (object := merge (default [] (vesselsById s !! Departure.VesselID departure
                                        ≫= (fun l => vesselHeap s !! l)))
                     [("departureDelta", VNull)]) in *.
    set (l := fresh (dom (vesselHeap s))) in *.
    set (s1 := set_vesselHeap (<[l := object]> (vesselHeap s)) s) in *.
    pose proof (is_fresh (dom (vesselHeap s))) as Hfresh. fold l in Hfresh.
    assert (Hnone : vesselHeap s !! l = None) by (by apply not_elem_of_dom).
    destruct (IH s1 cs' s2 (vesselsWf_fresh_object s object Hwf) Hcs)
      as (Hwf2 & Hmap & Hheap & Hshadow & Hschedule & Htable & Hall).
    assert (Hgrow : forall p, is_Some (vesselHeap s !! p) ->
              vesselHeap s2 !! p = vesselHeap s !! p).
    { intros p Hp. rewrite Hheap; simpl.
      - apply lookup_insert_ne. intros E. destruct Hp as [x Hx]. congruence.
      - rewrite lookup_insert_ne; [done|]. intros E. destruct Hp as [x Hx]. congruence. }
    split; [done|]. split; [done|]. split; [done|]. split; [done|]. split; [done|].
    split; [done|]. constructor.
    + split; [done|]. split; [done|]. split; [done|].
      exists departure, l. split; [left|]. split; [done|]. split; [done|]. split; [done|].
      rewrite Hheap by (simpl; rewrite lookup_insert_eq; by eexists).
      simpl. rewrite lookup_insert_eq. by rewrite <- merge_null.
    + eapply Forall_impl; [exact Hall|]. intros c (Hc1 & Hc2 & Hc3 & d & p & Hd & Ht & Hv & Hp & Hobj).
      split; [done|]. split; [done|]. split; [done|].
      exists d, p. split; [by right|]. split; [done|]. split; [done|]. split.
      * simpl in Hp. destruct (decide (l = p)) as [<-|Hne].
        -- by rewrite lookup_insert_eq in Hp.
        -- by rewrite lookup_insert_ne in Hp.
      * rewrite Hobj. by rewrite (vesselObject_fresh_object s object _ Hwf).
Qed.

Lemma mapM_scheduledCrossing_times (now : Z) (started : list (Departure.t * bool)) :
  forall s cs s',
    mapM (scheduledCrossing now) started s = (Ok cs, s') ->
    map Crossing.time cs = map (fun st => Departure.DepartingTime st.1) started.
Proof.
  induction started as [|x rest IH]; intros s cs s' Hrun; simpl in Hrun.
  - unfold ret in Hrun. by injection Hrun as <- _.
  - apply bind_Ok in Hrun as (c & s1 & Hc & Hrun).
    apply bind_Ok in Hrun as (cs' & s2 & Hcs & Hrun).
    unfold ret in Hrun. injection Hrun as <- _. simpl.
    apply scheduledCrossing_Ok in Hc as [-> _]. f_equal. by eapply IH.
Qed.

Lemma last_map {A B} (f : A -> B) (l : list A) (d : A) :
  f (List.last l d) = List.last (map f l) (f d).
Proof.
  induction l as [|x rest IH]; [done|]. simpl.
  destruct rest as [|y rest']; [done|]. exact IH.
Qed.

(** The lookups of last week's capacities after one more row is indexed. *)
Lemma previousCapacityAt_set (crossing : Capacity.t)
  (byTerminal : gmap Z (gmap Z (gmap Z Capacity.t))) (departureId arrivalId time : Z) :
  previousCapacityAt (setPreviousCapacity crossing byTerminal) departureId arrivalId time
  = if decide (Capacity.key crossing = (departureId, arrivalId, time)) then Some crossing
    else previousCapacityAt byTerminal departureId arrivalId time.
Proof.
  unfold previousCapacityAt, setPreviousCapacity, Capacity.key.
  destruct (decide (Capacity.departureId crossing = departureId)) as [Ed|Ed].
  - rewrite Ed, lookup_insert_eq.
    destruct (decide (Capacity.arrivalId crossing = arrivalId)) as [Ea|Ea].
    + rewrite Ea, lookup_insert_eq.
      destruct (decide (Capacity.departureTime crossing = time)) as [Et|Et].
      * rewrite Et, lookup_insert_eq. rewrite decide_True; [done|congruence].
      * rewrite lookup_insert_ne by done. rewrite decide_False by congruence.
        destruct (byTerminal !! departureId) as [mates|]; simpl; [|done].
        by destruct (mates !! arrivalId).
    + rewrite lookup_insert_ne by done. rewrite decide_False by congruence.
      by destruct (byTerminal !! departureId).
  - rewrite lookup_insert_ne by done. rewrite decide_False by congruence. done.
Qed.

Lemma previousCapacityAt_fold (rows : list Capacity.t) :
  forall (byTerminal : gmap Z (gmap Z (gmap Z Capacity.t))),
  let indexed := fold_left (fun m crossing => setPreviousCapacity crossing m) rows byTerminal in
  (forall row, row ∈ rows ->
     exists r, r ∈ rows /\ same_key r row = true
       /\ previousCapacityAt indexed (Capacity.departureId row) (Capacity.arrivalId row)
            (Capacity.departureTime row) = Some r)
  /\ (forall departureId arrivalId time,
        (forall row, row ∈ rows -> Capacity.key row ≠ (departureId, arrivalId, time)) ->
        previousCapacityAt indexed departureId arrivalId time
        = previousCapacityAt byTerminal departureId arrivalId time).
Proof.
  induction rows as [|x rest IH]; intros byTerminal; simpl.
  - split; [intros row H; by apply elem_of_nil in H | done].
  - destruct (IH (setPreviousCapacity x byTerminal)) as [Hin Hout]. split.
    + intros row Hrow.
      destruct (decide (Exists (fun r => Capacity.key r = Capacity.key row) rest))
        as [Hex|Hnone]; rewrite Exists_exists in *.
      * destruct Hex as (r & Hr & Ekey). destruct (Hin r Hr) as (r' & Hr' & Esame & Hat).
        exists r'. split; [by right|]. split.
        { apply same_key_spec. apply same_key_spec in Esame. congruence. }
        assert (E : (Capacity.departureId row, Capacity.arrivalId row, Capacity.departureTime row)
                    = (Capacity.departureId r, Capacity.arrivalId r, Capacity.departureTime r))
          by (symmetry; exact Ekey).
        injection E as -> -> ->. exact Hat.
      * apply elem_of_cons in Hrow as [->|Hrow]; [|exfalso; apply Hnone; by exists row].
        exists x. split; [left|]. split; [apply same_key_spec; done|].
        rewrite Hout.
        -- rewrite previousCapacityAt_set. by rewrite decide_True.
        -- intros r Hr E. apply Hnone. by exists r.
    + intros departureId arrivalId time Hnone. rewrite Hout.
      * rewrite previousCapacityAt_set. rewrite decide_False; [done|].
        apply Hnone. left.
      * intros row Hrow. apply Hnone. by right.
Qed.

(** A run of [updateRoute] that returns, step by step. *)
Lemma updateRoute_Ok (minusWeek : Z -> Z) (now : Z) (upstream : Upstream.t)
  (terminalId mateId : Z) (s s' : State) :
  updateRoute minusWeek now upstream terminalId mateId s = (Ok tt, s') ->
  exists scheduleData others schedule s1 shadow,
    Upstream.scheduleToday upstream terminalId mateId = Some (scheduleData :: others)
    /\ mapM (scheduledCrossing now)
         (map (fun departure => (departure, true)) (Combo.Times scheduleData))
         (set_requests (requests s ++ [apiScheduleToday terminalId mateId])%list s)
       = (Ok schedule, s1)
    /\ s' = set_scheduleByTerminal
              (setRouteSchedule terminalId mateId (keyBy schedule) (scheduleByTerminal s1))
              (set_previousCapacityByTerminal shadow s1)
    /\ (if hasPreviousCapacity (previousCapacityByTerminal s1) terminalId mateId
        then shadow = previousCapacityByTerminal s1
        else exists first rest,
          schedule = first :: rest
          /\ shadow
             = fold_left (fun m crossing => setPreviousCapacity crossing m)
                 (List.filter
                    (fun row =>
                       (minusWeek (Crossing.time first) <=? Capacity.departureTime row)
                         && (Capacity.departureTime row
                               <=? minusWeek (Crossing.time (List.last schedule first))))
                    (table s1))
                 (previousCapacityByTerminal s1)).
Proof.
  intros Hrun. unfold updateRoute in Hrun.
  apply bind_Ok in Hrun as (response & s0 & Hfetch & Hrun).
  apply bind_Ok in Hrun as (times & s0' & Htimes & Hrun).
  apply bind_Ok in Hrun as (schedule & s1 & Hschedule & Hrun).
  apply bind_Ok in Hrun as (known & s1' & Hknown & Hrun).
  apply bind_Ok in Hrun as ([] & s2 & Hshadow & Hrun).
  unfold modify in Hrun. injection Hrun as <-.
  unfold gets in Hknown. injection Hknown as <- <-.
  destruct (Upstream.scheduleToday upstream terminalId mateId) as [combos|] eqn:Hup;
    [|discriminate].
  rewrite fetch_Some in Hfetch. injection Hfetch as <- <-.
  destruct combos as [|scheduleData others]; [discriminate|].
  unfold ret in Htimes. injection Htimes as <- <-.
  exists scheduleData, others, schedule, s1, (previousCapacityByTerminal s2).
  split; [done|]. split; [exact Hschedule|].
  destruct (hasPreviousCapacity (previousCapacityByTerminal s1) terminalId mateId).
  - unfold ret in Hshadow. injection Hshadow as <-. split; [by destruct s1|done].
  - destruct schedule as [|first rest]; [discriminate|].
    unfold bind, findAll, gets, modify in Hshadow. injection Hshadow as <-.
    split; [reflexivity|]. by exists first, rest.
Qed.

(** X13: the crossings a schedule refresh stores for a pair carry nothing
    live: no capacity, no estimate, [hasPassed] as the wall clock of the
    refresh gives it.  Each has a vessel object of its own, made for it,
    with the fields of the cached vessel and the delay set to null: every
    sailing is taken as the first of its vessel, because each callback reads
    [seenVessels] before any has written to it. *)
Theorem updateRoute_stores_bare_crossings
  (minusWeek : Z -> Z) (now : Z) (upstream : Upstream.t) (terminalId mateId : Z)
  (s s' : State) (key : string) (crossing : Crossing.t) :
  vesselsWf s ->
  updateRoute minusWeek now upstream terminalId mateId s = (Ok tt, s') ->
  crossingAt s' terminalId mateId key = Some crossing ->
  exists scheduleData others,
    Upstream.scheduleToday upstream terminalId mateId = Some (scheduleData :: others)
    /\ bareCrossing now (Combo.Times scheduleData) s s' crossing.
Proof.
  intros Hwf Hrun Hat.
  apply updateRoute_Ok in Hrun
    as (scheduleData & others & schedule & s1 & shadow & Hup & Hschedule & -> & _).
  exists scheduleData, others. split; [done|].
  unfold crossingAt in Hat. erewrite routeSchedule_set in Hat by reflexivity.
  apply keyBy_lookup in Hat as [Hin _].
  apply mapM_scheduledCrossing_first in Hschedule as (_ & _ & _ & _ & _ & _ & Hall);
    [|exact Hwf].
  rewrite Forall_forall in Hall. exact (Hall crossing Hin).
Qed.

(** X14: after a schedule refresh of a pair that returns, every departure
    upstream lists has a crossing of its time at the key of its time, and
    the schedules of the other pairs are as before. *)
Theorem updateRoute_stores_every_departure
  (minusWeek : Z -> Z) (now : Z) (upstream : Upstream.t) (terminalId mateId : Z)
  (s s' : State) (scheduleData : Combo.t) (others : list Combo.t) :
  updateRoute minusWeek now upstream terminalId mateId s = (Ok tt, s') ->
  Upstream.scheduleToday upstream terminalId mateId = Some (scheduleData :: others) ->
  (forall departure, departure ∈ Combo.Times scheduleData ->
     exists crossing,
       crossingAt s' terminalId mateId (string_of_Z (Departure.DepartingTime departure))
         = Some crossing
       /\ Crossing.time crossing = Departure.DepartingTime departure)
  /\ (forall departureId arrivalId,
        (departureId, arrivalId) ≠ (terminalId, mateId) ->
        routeSchedule s' departureId arrivalId = routeSchedule s departureId arrivalId).
Proof.
  intros Hrun Hup.
  apply updateRoute_Ok in Hrun
    as (scheduleData' & others' & schedule & s1 & shadow & Hup' & Hschedule & -> & _).
  rewrite Hup in Hup'. injection Hup' as <- <-.
  assert (Hmap : scheduleByTerminal s1 = scheduleByTerminal s).
  { assert (Hkeep : preserves (fun s0 => scheduleByTerminal s0 = scheduleByTerminal s)
                      (mapM (scheduledCrossing now)
                         (map (fun departure => (departure, true)) (Combo.Times scheduleData))))
      by (autounfold with wsf; preserve).
    pose proof (Hkeep _ (eq_refl : scheduleByTerminal
        (set_requests (requests s ++ [apiScheduleToday terminalId mateId])%list s) = _)) as H.
    by rewrite Hschedule in H. }
  split.
  - intros departure Hin.
    pose proof (mapM_scheduledCrossing_times _ _ _ _ _ Hschedule) as Htimes.
    rewrite map_map in Htimes. simpl in Htimes.
    assert (Hc : exists c, c ∈ schedule /\ Crossing.time c = Departure.DepartingTime departure).
    { assert (Ht : Departure.DepartingTime departure ∈ map Crossing.time schedule).
      { rewrite Htimes. apply list_elem_of_fmap. by exists departure. }
      apply list_elem_of_fmap in Ht as (c & Ht & Hc). by exists c. }
    destruct Hc as (c & Hc & Ht).
    destruct (keyBy_has_key schedule c Hc) as (c' & Hat & Ht').
    exists c'. unfold crossingAt. erewrite routeSchedule_set by reflexivity.
    rewrite <- Ht. split; [done|congruence].
  - intros departureId arrivalId Hne.
    erewrite routeSchedule_set_other by (reflexivity || exact Hne).
    simpl. unfold routeSchedule. by rewrite Hmap.
Qed.

Lemma preserves_gets_bind (P : State -> Prop) {A B} (f : State -> A) (k : A -> M B) :
  (forall s0, P s0 -> preserves P (k (f s0))) -> preserves P (bind (gets f) k).
Proof. intros H s Hs. unfold bind, gets. exact (H s Hs s Hs). Qed.

(** X15: last week's capacities are fetched once per pair: when the map
    holds an entry for the pair, a schedule refresh of the pair leaves the
    map as it is, however it ends. *)
Theorem updateRoute_keeps_known_previous_capacity
  (minusWeek : Z -> Z) (now : Z) (upstream : Upstream.t) (terminalId mateId : Z) (s : State) :
  hasPreviousCapacity (previousCapacityByTerminal s) terminalId mateId = true ->
  previousCapacityByTerminal (updateRoute minusWeek now upstream terminalId mateId s).2
  = previousCapacityByTerminal s.
Proof.
  intros Hknown.
  assert (H : preserves (fun s0 => previousCapacityByTerminal s0 = previousCapacityByTerminal s)
                (updateRoute minusWeek now upstream terminalId mateId)).
  { unfold updateRoute.
    apply preserves_bind; [autounfold with wsf; preserve|]. intros response.
    apply preserves_bind; [preserve|]. intros times.
    apply preserves_bind; [autounfold with wsf; preserve|]. intros schedule.
    apply preserves_gets_bind. intros s0 Hs0. rewrite Hs0, Hknown. preserve. }
  by apply H.
Qed.

(** X16: a schedule refresh of a pair whose capacities of last week are not
    known yet indexes, when it returns, the rows of the table whose
    departure time lies between one week before the first sailing upstream
    lists and one week before the last: each such row, of whatever pair, is
    found under its own key, and the lookups of all other keys are as
    before. *)
Theorem updateRoute_indexes_last_week
  (minusWeek : Z -> Z) (now : Z) (upstream : Upstream.t) (terminalId mateId : Z)
  (s s' : State) (first : Departure.t) (rest : list Departure.t) (others : list Combo.t) :
  updateRoute minusWeek now upstream terminalId mateId s = (Ok tt, s') ->
  hasPreviousCapacity (previousCapacityByTerminal s) terminalId mateId = false ->
  Upstream.scheduleToday upstream terminalId mateId = Some (Combo.mk (first :: rest) :: others) ->
  let startTime := minusWeek (Departure.DepartingTime first) in
  let endTime := minusWeek (Departure.DepartingTime (List.last rest first)) in
  let inRange row :=
    startTime <= Capacity.departureTime row /\ Capacity.departureTime row <= endTime in
  (forall row, row ∈ table s -> inRange row ->
     exists r, r ∈ table s /\ same_key r row = true
       /\ previousCapacityAt (previousCapacityByTerminal s') (Capacity.departureId row)
            (Capacity.arrivalId row) (Capacity.departureTime row) = Some r)
  /\ (forall departureId arrivalId time,
        (forall row, row ∈ table s -> inRange row ->
           Capacity.key row ≠ (departureId, arrivalId, time)) ->
        previousCapacityAt (previousCapacityByTerminal s') departureId arrivalId time
        = previousCapacityAt (previousCapacityByTerminal s) departureId arrivalId time).
Proof.
  intros Hrun Hunknown Hup startTime endTime inRange.
  apply updateRoute_Ok in Hrun
    as (scheduleData' & others' & schedule & s1 & shadow & Hup' & Hschedule & -> & Hshadow).
  rewrite Hup in Hup'. injection Hup' as <- <-.
  assert (Hkeep : previousCapacityByTerminal s1 = previousCapacityByTerminal s
                  /\ table s1 = table s).
  { assert (H : preserves (fun s0 => previousCapacityByTerminal s0 = previousCapacityByTerminal s
                                     /\ table s0 = table s)
                  (mapM (scheduledCrossing now)
                     (map (fun departure => (departure, true))
                        (Combo.Times (Combo.mk (first :: rest))))))
      by (autounfold with wsf; preserve).
    pose proof (H (set_requests (requests s ++ [apiScheduleToday terminalId mateId])%list s)
                  (conj eq_refl eq_refl)) as H'.
    by rewrite Hschedule in H'. }
  destruct Hkeep as [Hprev Htable].
  rewrite Hprev, Hunknown in Hshadow. destruct Hshadow as (c0 & cs & -> & ->).
  pose proof (mapM_scheduledCrossing_times _ _ _ _ _ Hschedule) as Htimes.
  simpl in Htimes. injection Htimes as Ht0 Hts.
  assert (Hlast : Crossing.time (List.last (c0 :: cs) c0)
                  = Departure.DepartingTime (List.last rest first)).
  { rewrite (last_map Crossing.time). simpl map. rewrite Ht0, Hts.
    rewrite map_map. simpl.
    change (Departure.DepartingTime first :: map (fun x => Departure.DepartingTime x) rest)
      with (map Departure.DepartingTime (first :: rest)).
    rewrite <- (last_map Departure.DepartingTime).
    simpl. by destruct rest. }
  cbn [previousCapacityByTerminal set_scheduleByTerminal set_previousCapacityByTerminal].
  rewrite Hlast, Ht0, ?Hprev, ?Htable. fold startTime endTime.
  match goal with |- context [fold_left _ ?rows _] => set (indexed := rows) end.
  assert (Hrows : forall row, row ∈ indexed <-> row ∈ table s /\ inRange row).
  { intros row. unfold indexed, inRange. rewrite !list_elem_of_In, filter_In.
    rewrite andb_true_iff, !Z.leb_le. tauto. }
  destruct (previousCapacityAt_fold indexed (previousCapacityByTerminal s)) as [Hin Hout].
  split.
  - intros row Hrow Hrange.
    destruct (Hin row (proj2 (Hrows row) (conj Hrow Hrange))) as (r & Hr & Hsame & Hat).
    exists r. split; [by apply Hrows in Hr as [? _]|]. done.
  - intros departureId arrivalId time Hnone. apply Hout.
    intros row Hrow. apply Hrows in Hrow as [? ?]. by apply Hnone.
Qed.

(** ** Capacities attached to crossings *)

Lemma grows_refl (s : State) : grows s s.
Proof. by repeat split. Qed.

Lemma grows_trans (s1 s2 s3 : State) : grows s1 s2 -> grows s2 s3 -> grows s1 s3.
Proof.
  intros (A1 & P1 & C1) (A2 & P2 & C2). repeat split; auto.
  - intros H. apply C1. by apply C2.
  - intros H. apply C2. by apply C1.
Qed.


Lemma crossingAt_set (s s1 : State) (departureId arrivalId : Z)
  (schedule : gmap string Crossing.t) (d a : Z) (k : string) :
  scheduleByTerminal s1
  = setRouteSchedule departureId arrivalId schedule (scheduleByTerminal s) ->
  crossingAt s1 d a k
  = if decide ((d, a) = (departureId, arrivalId)) then schedule !! k else crossingAt s d a k.
Proof.
  intros E. unfold crossingAt. case_decide as Hda.
  - injection Hda as -> ->. by erewrite routeSchedule_set by exact E.
  - by erewrite routeSchedule_set_other by (exact E || exact Hda).
Qed.

(** Allocating an object keeps what the crossings hold. *)
Lemma grows_newCapacity (s : State) (row : Capacity.t) :
  grows s (set_capacityHeap (<[fresh (dom (capacityHeap s)) := row]> (capacityHeap s)) s).
Proof.
  split; [|split].
  - intros key (c & l & r & Hat & Hc & Hl & Hk). exists c, l, r.
    repeat (split; [done|]). split; [|done]. simpl.
    rewrite lookup_insert_ne; [done|]. intros <-.
    pose proof (is_fresh (dom (capacityHeap s))) as Hfresh.
    apply Hfresh. apply elem_of_dom. by exists r.
  - done.
  - done.
Qed.

(** Writing a capacity object of the key of the crossing to the crossing. *)
Lemma grows_attach (s : State) (row : Capacity.t) (crossing : Crossing.t) :
  let departureId := Capacity.departureId row in
  let arrivalId := Capacity.arrivalId row in
  let key := string_of_Z (Capacity.departureTime row) in
  let capacity := fresh (dom (capacityHeap s)) in
  let attached :=
    set_scheduleByTerminal
      (setRouteSchedule departureId arrivalId
         (<[key := Crossing.with_capacity capacity crossing]>
            (routeSchedule s departureId arrivalId))
         (scheduleByTerminal s))
      (set_capacityHeap (<[capacity := row]> (capacityHeap s)) s) in
  crossingAt s departureId arrivalId key = Some crossing ->
  grows s attached /\ attachedKey attached (Capacity.key row).
Proof.
  intros departureId arrivalId key capacity attached Hat.
  assert (Hnew : forall d a k,
    crossingAt attached d a k
    = if decide ((d, a) = (departureId, arrivalId))
      then <[key := Crossing.with_capacity capacity crossing]>
             (routeSchedule s departureId arrivalId) !! k
      else crossingAt s d a k).
  { intros d a k. by apply crossingAt_set. }
  assert (Hmine : attachedKey attached (Capacity.key row)).
  { exists (Crossing.with_capacity capacity crossing), capacity, row. simpl.
    rewrite Hnew. rewrite decide_True by done. fold key.
    rewrite !lookup_insert_eq. done. }
  split; [|exact Hmine]. split; [|split].
  - intros k (c & l & r & Hc & Hl & Hr & Hk).
    destruct (decide (k = Capacity.key row)) as [->|Hne]; [exact Hmine|].
    exists c, l, r. rewrite Hnew. destruct k as [[d a] t]. simpl in *. split.
    + case_decide as Hda; [|done].
      injection Hda as -> ->.
      rewrite lookup_insert_ne; [exact Hc|].
      intros Hkey. apply string_of_Z_inj in Hkey. apply Hne. by rewrite <- Hkey.
    + split; [done|]. split; [|done]. simpl.
      rewrite lookup_insert_ne; [done|]. intros <-.
      pose proof (is_fresh (dom (capacityHeap s))) as Hfresh.
      apply Hfresh. apply elem_of_dom. by exists r.
  - done.
  - intros d a k. rewrite Hnew. case_decide as Hda; [|done].
    injection Hda as -> ->.
    destruct (decide (k = key)) as [->|Hne].
    + rewrite lookup_insert_eq, Hat. by split.
    + by rewrite lookup_insert_ne.
Qed.






Lemma attachedKey_grows (s s' : State) (key : Z * Z * Z) :
  grows s s' -> attachedKey s key -> attachedKey s' key.
Proof. intros (H & _) ?. by apply H. Qed.


Lemma scheduled_grows (s s' : State) (key : Z * Z * Z) :
  grows s s' ->
  is_Some (crossingAt s key.1.1 key.1.2 (string_of_Z key.2)) ->
  is_Some (crossingAt s' key.1.1 key.1.2 (string_of_Z key.2)).
Proof. intros (_ & _ & H) ?. by apply H. Qed.




(** ** Backfill *)

Lemma backfill_step (row : Capacity.t) (s : State) :
  let attach :=
    (let! capacity := newCapacity row in
     setCrossingCapacity (Capacity.departureId row) (Capacity.arrivalId row)
       (string_of_Z (Capacity.departureTime row)) capacity) in
  grows s (attach s).2
  /\ table (attach s).2 = table s
  /\ match crossingAt s (Capacity.departureId row) (Capacity.arrivalId row)
             (string_of_Z (Capacity.departureTime row)) with
     | Some _ => (attach s).1 = Ok tt /\ attachedKey (attach s).2 (Capacity.key row)
     | None => (attach s).1 = Throw (TypeError "Cannot set property 'capacity' of undefined")
     end.
Proof.
  intros attach. unfold attach, bind, newCapacity, setCrossingCapacity.
  set (capacity := fresh (dom (capacityHeap s))).
  set (allocated := set_capacityHeap (<[capacity := row]> (capacityHeap s)) s).
  change (crossingAt allocated (Capacity.departureId row) (Capacity.arrivalId row)
            (string_of_Z (Capacity.departureTime row)))
    with (crossingAt s (Capacity.departureId row) (Capacity.arrivalId row)
            (string_of_Z (Capacity.departureTime row))).
  destruct (crossingAt s (Capacity.departureId row) (Capacity.arrivalId row)
              (string_of_Z (Capacity.departureTime row))) as [crossing|] eqn:Hat;
    cbn [fst snd].
  - destruct (grows_attach s row crossing Hat) as [Hgrows Hattached].
    split; [exact Hgrows|]. split; [done|]. split; [done|exact Hattached].
  - split; [apply grows_newCapacity|]. done.
Qed.

Lemma each_backfill (rows : list Capacity.t) :
  forall s,
    let run :=
      each rows (fun row =>
        let! capacity := newCapacity row in
        setCrossingCapacity (Capacity.departureId row) (Capacity.arrivalId row)
          (string_of_Z (Capacity.departureTime row)) capacity) s in
    grows s run.2
    /\ table run.2 = table s
    /\ ((forall row, row ∈ rows ->
           is_Some (crossingAt s (Capacity.departureId row) (Capacity.arrivalId row)
                      (string_of_Z (Capacity.departureTime row)))) ->
        run.1 = Ok tt /\ forall row, row ∈ rows -> attachedKey run.2 (Capacity.key row))
    /\ ((exists row, row ∈ rows
           /\ crossingAt s (Capacity.departureId row) (Capacity.arrivalId row)
                (string_of_Z (Capacity.departureTime row)) = None) ->
        run.1 = Throw (TypeError "Cannot set property 'capacity' of undefined")).
Proof.
  induction rows as [|x rest IH]; intros s run.
  - split; [apply grows_refl|]. split; [done|]. split.
    + intros _. split; [done|]. intros row H. by apply elem_of_nil in H.
    + intros (row & H & _). by apply elem_of_nil in H.
  - destruct (backfill_step x s) as (Hgrows & Htable & Hstep). cbv zeta in Hgrows, Htable, Hstep.
    unfold run. simpl.
    match type of Hgrows with grows _ (?c s).2 => set (attach := c) in * end.
    destruct (attach s) as [[[]|e] s1] eqn:Hrun; cbn [fst snd] in *;
      [rewrite !(bind_step attach _ s tt s1 Hrun)
      |rewrite !(bind_Throw attach _ s e s1 Hrun)]; cbn [fst snd].
    + destruct (IH s1) as (Hrest & Htable' & Hall & Hnone). cbv zeta in Hrest, Htable', Hall, Hnone.
      split; [exact (grows_trans _ _ _ Hgrows Hrest)|]. split; [congruence|]. split.
      * intros Hscheduled.
        destruct Hall as [Hok Hattached].
        { intros row Hrow.
          apply (scheduled_grows s s1 (Capacity.key row) Hgrows).
          apply Hscheduled. by right. }
        split; [exact Hok|]. intros row Hrow. apply elem_of_cons in Hrow as [->|Hrow].
        -- destruct (crossingAt s (Capacity.departureId x) (Capacity.arrivalId x)
                       (string_of_Z (Capacity.departureTime x))); [|discriminate].
           destruct Hstep as [_ Hx]. exact (attachedKey_grows _ _ _ Hrest Hx).
        -- by apply Hattached.
      * intros (row & Hrow & Hat). apply Hnone.
        apply elem_of_cons in Hrow as [->|Hrow].
        -- rewrite Hat in Hstep. discriminate.
        -- exists row. split; [done|].
           destruct Hgrows as (_ & _ & Hsame).
           destruct (crossingAt s1 (Capacity.departureId row) (Capacity.arrivalId row)
                       (string_of_Z (Capacity.departureTime row))) eqn:Hat1; [|done].
           assert (Hsome : is_Some (crossingAt s (Capacity.departureId row)
                                      (Capacity.arrivalId row)
                                      (string_of_Z (Capacity.departureTime row)))).
           { apply Hsame. by rewrite Hat1. }
           rewrite Hat in Hsome. by destruct Hsome.
    + split; [exact Hgrows|]. split; [exact Htable|]. split.
      * intros Hscheduled.
        destruct (Hscheduled x) as [c Hc]; [by left|]. rewrite Hc in Hstep.
        destruct Hstep. discriminate.
      * intros _.
        destruct (crossingAt s (Capacity.departureId x) (Capacity.arrivalId x)
                    (string_of_Z (Capacity.departureTime x))); [|done].
        destruct Hstep. discriminate.
Qed.

(** X18: when every row of the table that departs after yesterday has its
    crossing in the schedule map, the backfill returns and each of these
    crossings holds a capacity object of the key of its row; the crossings
    that held one before still hold one. *)
Theorem backfillCrossings_attaches_recent_rows
  (yesterday : Z -> Z) (now : Z) (s : State) :
  (forall row, row ∈ table s -> yesterday now < Capacity.departureTime row ->
     is_Some (crossingAt s (Capacity.departureId row) (Capacity.arrivalId row)
                (string_of_Z (Capacity.departureTime row)))) ->
  exists s',
    backfillCrossings yesterday now s = (Ok tt, s')
    /\ (forall row, row ∈ table s -> yesterday now < Capacity.departureTime row ->
          attachedKey s' (Capacity.key row))
    /\ (forall key, attachedKey s key -> attachedKey s' key).
Proof.
  intros Hscheduled. unfold backfillCrossings, findAll, bind at 1, gets.
  set (recent := List.filter (fun capacity => yesterday now <? Capacity.departureTime capacity)
                   (table s)).
  assert (Hrecent : forall row, row ∈ recent
                                <-> row ∈ table s /\ yesterday now < Capacity.departureTime row).
  { intros row. unfold recent. rewrite !list_elem_of_In, filter_In, Z.ltb_lt. tauto. }
  destruct (each_backfill recent s) as (Hgrows & _ & Hall & _). cbv zeta in Hgrows, Hall.
  destruct Hall as [Hok Hattached].
  { intros row Hrow. apply Hrecent in Hrow as [? ?]. by apply Hscheduled. }
  match goal with |- exists s', ?run = _ /\ _ => destruct run as [outcome s'] eqn:Hrun end.
  cbn [fst snd] in *. subst outcome. exists s'. split; [done|]. split.
  - intros row Hrow Hafter. apply Hattached. apply Hrecent. by split.
  - intros key. by apply attachedKey_grows.
Qed.

(** X19: a row of the table that departs after yesterday and has no
    crossing in the schedule map makes the backfill throw the TypeError of
    a write to undefined; the table is as before. *)
Theorem backfillCrossings_throws_on_unscheduled_row
  (yesterday : Z -> Z) (now : Z) (s : State) (row : Capacity.t) :
  row ∈ table s ->
  yesterday now < Capacity.departureTime row ->
  crossingAt s (Capacity.departureId row) (Capacity.arrivalId row)
    (string_of_Z (Capacity.departureTime row)) = None ->
  (backfillCrossings yesterday now s).1
  = Throw (TypeError "Cannot set property 'capacity' of undefined")
  /\ table (backfillCrossings yesterday now s).2 = table s.
Proof.
  intros Hrow Hafter Hat. unfold backfillCrossings, findAll, bind at 1, gets.
  set (recent := List.filter (fun capacity => yesterday now <? Capacity.departureTime capacity)
                   (table s)).
  assert (Hrecent : row ∈ recent).
  { unfold recent. rewrite list_elem_of_In, filter_In, Z.ltb_lt, <- list_elem_of_In. by split. }
  destruct (each_backfill recent s) as (_ & Htable & _ & Hnone). cbv zeta in Htable, Hnone.
  split; [|exact Htable]. apply Hnone. by exists row.
Qed.

(** ** Terminals *)

Lemma get_field_None (o : obj) (k : string) : k ∉ o.*1 -> get_field o k = None.
Proof.
  induction o as [|[k' v] rest IH]; simpl; [done|]. intros Hk.
  apply not_elem_of_cons in Hk as [Hne Hk].
  destruct (String.eqb_spec k' k) as [->|_]; [done|]. by apply IH.
Qed.

(** [_.assign] with a source that has each name once: the properties of the
    source are the source's, the others are kept. *)
Lemma get_field_assign (data o : obj) (k : string) :
  NoDup data.*1 ->
  get_field (assign o data) k
  = match get_field data k with Some v => Some v | None => get_field o k end.
Proof.
  unfold assign. revert o. induction data as [|[k1 v1] rest IH]; intros o Hnodup; [done|].
  apply NoDup_cons in Hnodup as [Hk1 Hnodup]. simpl. rewrite IH by done.
  destruct (String.eqb_spec k1 k) as [->|Hne].
  - rewrite (get_field_None rest k Hk1). apply get_field_set_field_eq.
  - destruct (get_field rest k); [done|]. by apply get_field_set_field_ne.
Qed.

(** Merging the override of a map link into a terminal that has a location
    replaces the link of the location and nothing else. *)
Lemma merge_link (o location : obj) (url : string) :
  get_field o "location" = Some (VObj location) ->
  merge o [("location", VObj [("link", VStr url)])]
  = set_field "location" (VObj (set_field "link" (VStr url) location)) o.
Proof. intros H. unfold merge. simpl. rewrite H. reflexivity. Qed.

Lemma TERMINAL_DATA_OVERRIDES_link (id : Z) (overrides : obj) :
  TERMINAL_DATA_OVERRIDES id = Some overrides ->
  exists url, overrides = [("location", VObj [("link", VStr url)])].
Proof.
  unfold TERMINAL_DATA_OVERRIDES. intros H.
  repeat (case_match; [injection H as <-; by eexists|]). discriminate.
Qed.

Lemma terminalStatic_NoDup (getCameras : Z -> value) (terminal : TerminalVerbose.t) :
  NoDup (terminalStatic getCameras terminal).*1.
Proof. simpl. apply (bool_decide_unpack _). by vm_compute. Qed.

(** X20: what a terminals refresh stores for one upstream terminal.  The
    properties of the object literal are upstream's and replace what the
    cache held; the properties the literal does not name ([mates]) are kept.
    The location is upstream's too, but for the terminals that have an
    override (5, 13, 15, 17 and 18) its link is the link of the override,
    whatever link upstream gives. *)
Theorem assignTerminal_static_and_override
  (getCameras : Z -> value) (terminal : TerminalVerbose.t) (s : State) :
  let id := TerminalVerbose.TerminalID terminal in
  let data := terminalStatic getCameras terminal in
  let run := assignTerminal id data s in
  exists stored location,
    run.1 = Ok tt
    /\ terminalsById run.2 !! id = Some stored
    /\ (forall other, other ≠ id -> terminalsById run.2 !! other = terminalsById s !! other)
    /\ (forall name, name ≠ "location" ->
          get_field stored name
          = match get_field data name with
            | Some v => Some v
            | None => get_field (default [] (terminalsById s !! id)) name
            end)
    /\ get_field stored "location" = Some (VObj location)
    /\ prop location "latitude" = prop (TerminalVerbose.data terminal) "Latitude"
    /\ prop location "longitude" = prop (TerminalVerbose.data terminal) "Longitude"
    /\ prop location "address"
       = VObj [ ("line1", prop (TerminalVerbose.data terminal) "AddressLineOne");
                ("line2", prop (TerminalVerbose.data terminal) "AddressLineTwo");
                ("city", prop (TerminalVerbose.data terminal) "City");
                ("state", prop (TerminalVerbose.data terminal) "State");
                ("zip", prop (TerminalVerbose.data terminal) "ZipCode") ]
    /\ prop location "link"
       = match TERMINAL_DATA_OVERRIDES id with
         | Some overrides =>
             match prop overrides "location" with
             | VObj o => prop o "link"
             | _ => VUndefined
             end
         | None => prop (TerminalVerbose.data terminal) "MapLink"
         end.
Proof.
  intros id data run.
  set (before := default [] (terminalsById s !! id)).
  set (assigned := assign before data).
  assert (Hassigned : forall name,
    get_field assigned name
    = match get_field data name with Some v => Some v | None => get_field before name end).
  { intros name. apply get_field_assign, terminalStatic_NoDup. }
  assert (Hlocation : exists upstream,
    get_field data "location" = Some (VObj upstream)
    /\ prop upstream "link" = prop (TerminalVerbose.data terminal) "MapLink"
    /\ prop upstream "latitude" = prop (TerminalVerbose.data terminal) "Latitude"
    /\ prop upstream "longitude" = prop (TerminalVerbose.data terminal) "Longitude"
    /\ prop upstream "address"
       = VObj [ ("line1", prop (TerminalVerbose.data terminal) "AddressLineOne");
                ("line2", prop (TerminalVerbose.data terminal) "AddressLineTwo");
                ("city", prop (TerminalVerbose.data terminal) "City");
                ("state", prop (TerminalVerbose.data terminal) "State");
                ("zip", prop (TerminalVerbose.data terminal) "ZipCode") ]).
  { eexists. split; [reflexivity|]. by repeat split. }
  destruct Hlocation as (upstream & Hupstream & Hlink & Hlatitude & Hlongitude & Haddress).
  assert (Hstored : terminalsById run.2 !! id
                    = Some (match TERMINAL_DATA_OVERRIDES id with
                            | Some overrides => merge assigned overrides
                            | None => assigned
                            end)
                    /\ forall other, other ≠ id ->
                         terminalsById run.2 !! other = terminalsById s !! other).
  { unfold run, assignTerminal, initTerminal, bind, modify. cbn [fst snd].
    unfold assigned, before.
    destruct (terminalsById s !! id) as [o|] eqn:Hid; cbn [terminalsById set_terminalsById].
    - split; [by rewrite lookup_alter_eq, Hid|].
      intros other Hne. by rewrite lookup_alter_ne.
    - split; [by rewrite lookup_alter_eq, lookup_insert_eq|].
      intros other Hne. rewrite lookup_alter_ne by done. by rewrite lookup_insert_ne. }
  destruct Hstored as [Hstored Hothers]. rewrite Hstored.
  destruct (TERMINAL_DATA_OVERRIDES id) as [overrides|] eqn:Hoverrides.
  - destruct (TERMINAL_DATA_OVERRIDES_link id overrides Hoverrides) as [url ->].
    assert (Hat : get_field assigned "location" = Some (VObj upstream))
      by (by rewrite Hassigned, Hupstream).
    rewrite (merge_link assigned upstream url Hat).
    eexists _, (set_field "link" (VStr url) upstream).
    split; [done|]. split; [done|]. split; [exact Hothers|]. split.
    { intros name Hname. rewrite get_field_set_field_ne by done. apply Hassigned. }
    split; [apply get_field_set_field_eq|].
    rewrite !prop_set_field_ne by discriminate.
    repeat (split; [done|]). by rewrite prop_set_field_eq.
  - exists assigned, upstream.
    split; [done|]. split; [done|]. split; [exact Hothers|]. split.
    { intros name _. apply Hassigned. }
    split; [by rewrite Hassigned, Hupstream|]. done.
Qed.



(** ** Estimates and departures *)

(** X22: recomputing the estimates twice gives what recomputing them once
    gives: the estimate of a crossing depends on its time and on last
    week's capacities, and the recomputation changes neither. *)
Theorem updateEstimates_idempotent (minusWeek : Z -> Z) (s : State)
  (departureId arrivalId : Z) (key : string) :
  let once := (updateEstimates minusWeek s).2 in
  let twice := (updateEstimates minusWeek once).2 in
  crossingAt twice departureId arrivalId key = crossingAt once departureId arrivalId key
  /\ previousCapacityByTerminal twice = previousCapacityByTerminal s
  /\ (forall crossing, crossingAt once departureId arrivalId key = Some crossing ->
        exists before,
          crossingAt s departureId arrivalId key = Some before
          /\ crossing = Crossing.with_estimate (Crossing.estimate crossing) before).
Proof.
  intros once twice. unfold twice, once. rewrite !crossingAt_updateEstimates.
  split; [|split].
  - by destruct (crossingAt s departureId arrivalId key) as [[]|].
  - reflexivity.
  - intros crossing Hat.
    destruct (crossingAt s departureId arrivalId key) as [before|]; [|discriminate].
    simpl in Hat. injection Hat as <-. by exists before.
Qed.

(** X23: a capacity has passed when its scheduled departure moved by its
    delay lies before the wall clock; no delay and a delay of zero count
    the same.  Once passed it stays passed as the clock advances, and a
    later vessel passes later. *)
Theorem hasPassed_by_estimated_departure (now : Z) (capacity : Capacity.t) :
  (hasPassed now capacity = true
   <-> (Capacity.departureTime capacity + default 0 (Capacity.departureDelta capacity)) * 1000
       < now)
  /\ (forall later, now <= later ->
        hasPassed now capacity = true -> hasPassed later capacity = true)
  /\ (forall driveUp reservable,
        hasPassed now (Capacity.with_counts driveUp reservable capacity)
        = hasPassed now capacity).
Proof.
  assert (Hexact : forall clock,
    hasPassed clock capacity = true
    <-> (Capacity.departureTime capacity + default 0 (Capacity.departureDelta capacity)) * 1000
        < clock).
  { intros clock. unfold hasPassed. rewrite Z.ltb_lt.
    destruct (Capacity.departureDelta capacity) as [delta|]; simpl; [|lia].
    destruct (Z.eqb_spec delta 0) as [->|_]; lia. }
  split; [apply Hexact|]. split; [|done].
  intros later Hle. rewrite !Hexact. lia.
Qed.

(** ** Waiting for a refresh, in general *)



(** * The further properties on concrete runs *)

Lemma oneVessel_wf : vesselsWf Scenario.oneVessel.
Proof.
  intros id l H. change (vesselsById Scenario.oneVessel) with ({[ 7 := 1%positive ]} : gmap Z loc) in *.
  apply lookup_singleton_Some in H as [<- <-]. split; [by eexists|].
  intros id' H'. by apply lookup_singleton_Some in H' as [<- _].
Qed.

Lemma beforeReading_wellKeyed : wellKeyed Scenario.beforeReading.
Proof.
  intros departureId arrivalId key crossing H. unfold routeSchedule in H.
  change (scheduleByTerminal Scenario.beforeReading)
    with ({[ 1 := {[ 2 := Scenario.route12 ]} ]} : gmap Z (gmap Z (gmap string Crossing.t))) in H.
  destruct (decide (departureId = 1)) as [->|Hd];
    [rewrite lookup_singleton_eq in H|rewrite lookup_singleton_ne in H by done];
    simpl in H; [|by rewrite lookup_empty in H].
  destruct (decide (arrivalId = 2)) as [->|Ha];
    [rewrite lookup_singleton_eq in H|rewrite lookup_singleton_ne in H by done];
    simpl in H; [|by rewrite lookup_empty in H].
  unfold Scenario.route12 in H.
  destruct (decide (key = "1000")) as [->|H1].
  { rewrite lookup_insert_eq in H. by injection H as <-. }
  rewrite lookup_insert_ne in H; [|done].
  destruct (decide (key = "2000")) as [->|H2].
  { rewrite lookup_singleton_eq in H. by injection H as <-. }
  rewrite lookup_singleton_ne in H; done.
Qed.

Lemma updateSchedule_rebuilds_mates_witness :
  let s' := (updateSchedule Scenario.lastWeek Scenario.dayBefore 0 Scenario.matesAt43
               Scenario.refreshedAt42).2 in
  ascending None (matesByTerminalId s')
  /\ forall id, lookupMates id (matesByTerminalId s')
                = arrivalsOf id [Mate.mk 1 2; Mate.mk 2 1; Mate.mk 1 3].
Proof.
  apply (updateSchedule_rebuilds_mates Scenario.lastWeek Scenario.dayBefore 0
           Scenario.matesAt43 Scenario.refreshedAt42 (VNum 43)); reflexivity.
Defined.



Lemma updateCache_keeps_live_fields_witness :
  let s' := (updateCache Scenario.lastWeek Scenario.dayBefore (fun _ => VNull) 0
               Scenario.upstreamAt42 Scenario.oneVessel).2 in
  vesselsWf s' /\ keepsOutside staticNames 7 1%positive Scenario.delayedVessel s'.
Proof.
  apply (updateCache_keeps_live_fields Scenario.lastWeek Scenario.dayBefore (fun _ => VNull) 0
           Scenario.upstreamAt42 Scenario.oneVessel 7 1%positive Scenario.delayedVessel).
  - exact oneVessel_wf.
  - reflexivity.
  - reflexivity.
Defined.

Lemma updateCrossings_keeps_static_fields_witness :
  let s' := (updateCrossings Scenario.lastWeek 3000 (Scenario.poll true)
               Scenario.oneVessel).2 in
  vesselsWf s' /\ keepsOutside timingNames 7 1%positive Scenario.delayedVessel s'.
Proof.
  apply (updateCrossings_keeps_static_fields Scenario.lastWeek 3000 (Scenario.poll true)
           Scenario.oneVessel 7 1%positive Scenario.delayedVessel).
  - exact oneVessel_wf.
  - reflexivity.
  - reflexivity.
Defined.

Lemma recordVesselTiming_delay_witness :
  exists (s' : State) (o : obj),
    recordVesselTiming 3000 Scenario.lateVessel Scenario.oneVessel = (Ok tt, s')
    /\ vesselObject s' 7 = Some o
    /\ prop o "departureDelta" = VNum 120.
Proof.
  destruct (recordVesselTiming_delay 3000 Scenario.lateVessel Scenario.oneVessel
              1%positive Scenario.delayedVessel)
    as (s' & o & Hrun & Hobject & Hdelay & _); [reflexivity|reflexivity|].
  exists s', o. split; [exact Hrun|]. split; [exact Hobject|].
  apply (Hdelay 1000 1120); [reflexivity|reflexivity|lia|lia].
Defined.

Lemma updateCrossings_stops_at_unknown_docked_vessel_witness :
  let stopped := set_requests (requests initialState ++ [API_VESSELS_LOCATIONS])%list
                   initialState in
  recordTiming 3000 (Scenario.poll true) initialState
    = (Throw (TypeError "Cannot read property 'isAtDock' of undefined"), stopped)
  /\ updateCrossings Scenario.lastWeek 3000 (Scenario.poll true) initialState
     = (Throw (TypeError "Cannot read property 'isAtDock' of undefined"), stopped).
Proof.
  apply (updateCrossings_stops_at_unknown_docked_vessel Scenario.lastWeek 3000
           (Scenario.poll true) initialState
           (VesselLocation.mk 7 VNull VNull VNull (VBool true) []) []); reflexivity.
Defined.

Lemma failed_refresh_is_not_retried_witness :
  (exists s1,
     updateVessels Scenario.upstreamAt42 initialState
       = (Throw (RequestError API_VESSELS_VERBOSE), s1)
     /\ FlushDates.vessels (cacheFlushDates s1) = VNum 42
     /\ updateVessels Scenario.upstreamAt42 s1
        = (Ok tt, set_requests (requests s1 ++ [API_VESSELS_CACHE])%list s1))
  /\ (exists s1,
        updateSchedule Scenario.lastWeek Scenario.dayBefore 0 Scenario.upstreamAt42 initialState
          = (Throw (RequestError apiScheduleMates), s1)
        /\ FlushDates.schedule (cacheFlushDates s1) = VNum 42
        /\ updateSchedule Scenario.lastWeek Scenario.dayBefore 0 Scenario.upstreamAt42 s1
           = (Ok tt, set_requests (requests s1 ++ [API_SCHEDULE_CACHE])%list s1))
  /\ (exists s1,
        updateTerminals (fun _ => VNull) Scenario.upstreamAt42 initialState
          = (Throw (RequestError API_TERMINALS_VERBOSE), s1)
        /\ FlushDates.terminals (cacheFlushDates s1) = VNum 42
        /\ updateTerminals (fun _ => VNull) Scenario.upstreamAt42 s1
           = (Ok tt, set_requests (requests s1 ++ [API_TERMINALS_CACHE])%list s1)).
Proof.
  destruct (failed_refresh_is_not_retried Scenario.lastWeek Scenario.dayBefore (fun _ => VNull) 0
              Scenario.upstreamAt42 initialState (VNum 42) eq_refl)
    as (Hvessels & Hschedule & Hterminals).
  split; [|split].
  - destruct (Hvessels eq_refl eq_refl eq_refl) as (s1 & H1 & H2 & _ & _ & H3).
    by exists s1.
  - destruct (Hschedule eq_refl eq_refl eq_refl) as (s1 & H1 & H2 & _ & _ & H3).
    by exists s1.
  - destruct (Hterminals eq_refl eq_refl eq_refl) as (s1 & H1 & H2 & _ & H3).
    by exists s1.
Defined.

Lemma updateRoute_edges_witness :
  updateRoute Scenario.lastWeek 0 Scenario.upstreamAt42 1 2 initialState
  = (Throw (RequestError (apiScheduleToday 1 2)),
     set_requests (requests initialState ++ [apiScheduleToday 1 2])%list initialState).
Proof.
  destruct (updateRoute_edges Scenario.lastWeek 0 Scenario.upstreamAt42 1 2 initialState)
    as (Hfailed & _).
  apply Hfailed. reflexivity.
Defined.

Lemma updateRoute_stores_bare_crossings_witness :
  let run := updateRoute Scenario.lastWeek 1500000 Scenario.todayOneToTwo 1 2
               Scenario.oneVessel in
  exists crossing scheduleData others,
    crossingAt run.2 1 2 "2000" = Some crossing
    /\ Upstream.scheduleToday Scenario.todayOneToTwo 1 2 = Some (scheduleData :: others)
    /\ bareCrossing 1500000 (Combo.Times scheduleData) Scenario.oneVessel run.2 crossing.
Proof.
  intros run.
  exists (Crossing.mk true false false 2000 (Some 3%positive) None EstimateUnset).
  destruct (updateRoute_stores_bare_crossings Scenario.lastWeek 1500000
              Scenario.todayOneToTwo 1 2 Scenario.oneVessel run.2 "2000"
              (Crossing.mk true false false 2000 (Some 3%positive) None EstimateUnset))
    as (scheduleData & others & Hup & Hbare);
    [exact oneVessel_wf | reflexivity | reflexivity |].
  exists scheduleData, others. split; [reflexivity|]. by split.
Defined.

Lemma updateRoute_stores_every_departure_witness :
  let run := updateRoute Scenario.lastWeek 1500000 Scenario.todayOneToTwo 1 2
               Scenario.oneVessel in
  (forall departure,
     departure ∈ [Departure.mk 1000 (VNum 3) 7; Departure.mk 2000 (VNum 1) 7;
                  Departure.mk 3000 (VNum 2) 8] ->
     exists crossing,
       crossingAt run.2 1 2 (string_of_Z (Departure.DepartingTime departure)) = Some crossing
       /\ Crossing.time crossing = Departure.DepartingTime departure)
  /\ (forall departureId arrivalId,
        (departureId, arrivalId) ≠ (1, 2) ->
        routeSchedule run.2 departureId arrivalId
        = routeSchedule Scenario.oneVessel departureId arrivalId).
Proof.
  intros run.
  apply (updateRoute_stores_every_departure Scenario.lastWeek 1500000
           Scenario.todayOneToTwo 1 2 Scenario.oneVessel run.2
           (Combo.mk [Departure.mk 1000 (VNum 3) 7; Departure.mk 2000 (VNum 1) 7;
                      Departure.mk 3000 (VNum 2) 8]) []); reflexivity.
Defined.

Lemma updateRoute_keeps_known_previous_capacity_witness :
  previousCapacityByTerminal
    (updateRoute Scenario.lastWeek 1500000 Scenario.todayOneToTwo 1 2 Scenario.twoSailings).2
  = previousCapacityByTerminal Scenario.twoSailings.
Proof.
  apply (updateRoute_keeps_known_previous_capacity Scenario.lastWeek 1500000
           Scenario.todayOneToTwo 1 2 Scenario.twoSailings).
  reflexivity.
Defined.

Lemma updateRoute_indexes_last_week_witness :
  let run := updateRoute Scenario.lastWeek 1500000 Scenario.todayOneToTwo 1 2
               Scenario.withLastWeekRow in
  exists r,
    r ∈ table Scenario.withLastWeekRow
    /\ same_key r Scenario.lastWeekRow = true
    /\ previousCapacityAt (previousCapacityByTerminal run.2) 1 2 (2000 - Scenario.week)
       = Some r.
Proof.
  intros run.
  destruct (updateRoute_indexes_last_week Scenario.lastWeek 1500000
              Scenario.todayOneToTwo 1 2 Scenario.withLastWeekRow run.2
              (Departure.mk 1000 (VNum 3) 7)
              [Departure.mk 2000 (VNum 1) 7; Departure.mk 3000 (VNum 2) 8] [])
    as [Hin _]; [reflexivity | reflexivity | reflexivity |].
  apply (Hin Scenario.lastWeekRow).
  - apply list_elem_of_singleton. reflexivity.
  - split; vm_compute; discriminate.
Defined.


Lemma backfillCrossings_attaches_recent_rows_witness :
  exists s',
    backfillCrossings Scenario.dayBefore 0 Scenario.beforeReading = (Ok tt, s')
    /\ attachedKey s' (1, 2, 1000).
Proof.
  destruct (backfillCrossings_attaches_recent_rows Scenario.dayBefore 0 Scenario.beforeReading)
    as (s' & Hrun & Hattached & _).
  - intros row Hrow _. apply list_elem_of_singleton in Hrow. subst row.
    exists (Scenario.sailing 1000 (Some 1%positive)). reflexivity.
  - exists s'. split; [exact Hrun|].
    apply (Hattached Scenario.earlierCapacity); [apply list_elem_of_singleton; reflexivity|].
    vm_compute. reflexivity.
Defined.

Lemma backfillCrossings_throws_on_unscheduled_row_witness :
  (backfillCrossings Scenario.dayBefore 0 Scenario.unscheduledRow).1
  = Throw (TypeError "Cannot set property 'capacity' of undefined")
  /\ table (backfillCrossings Scenario.dayBefore 0 Scenario.unscheduledRow).2
     = table Scenario.unscheduledRow.
Proof.
  apply (backfillCrossings_throws_on_unscheduled_row Scenario.dayBefore 0
           Scenario.unscheduledRow Scenario.earlierCapacity).
  - apply list_elem_of_singleton. reflexivity.
  - vm_compute. reflexivity.
  - reflexivity.
Defined.



Lemma recordCapacity_never_corrects_witness :
  exists pending s',
    startAll (readings [TerminalSpace.mk 1
                          [DepartingSpace.mk 2000 7 false
                             [ArrivalSpace.mk 2 3 true true 0 20]]])
      (set_requests (requests Scenario.beforeReading ++ [API_TERMINALS_SPACE])%list
         Scenario.beforeReading) = (Ok pending, s')
    /\ recordCapacity Scenario.clock (Scenario.spaceFeed 2000) Scenario.beforeReading
       = (Ok tt, s').
Proof.
  apply (recordCapacity_never_corrects Scenario.clock (Scenario.spaceFeed 2000)
           Scenario.beforeReading).
  - exact beforeReading_wellKeyed.
  - reflexivity.
Defined.

Lemma recordVesselTiming_dockedTime_witness :
  exists (s' : State) (o : obj),
    recordVesselTiming 3000 (VesselLocation.mk 7 VNull VNull VNull (VBool true) [])
      Scenario.oneVessel = (Ok tt, s')
    /\ vesselObject s' 7 = Some o
    /\ prop o "isAtDock" = VBool true
    /\ prop o "dockedTime" = VDate 3000.
Proof.
  apply (recordVesselTiming_dockedTime 3000
           (VesselLocation.mk 7 VNull VNull VNull (VBool true) [])
           Scenario.oneVessel 1%positive Scenario.delayedVessel); reflexivity.
Defined.

Lemma vessel_accessors_never_wait_witness :
  Async.getVessels Scenario.vesselsRefreshing Scenario.vesselsHistory 2
  = Some (Ok (vesselsById (Scenario.vesselsHistory 2)))
  /\ Async.getVessel 7 false Scenario.vesselsRefreshing Scenario.vesselsHistory 2
     = Some (Ok (vesselsById (Scenario.vesselsHistory 2) !! 7)).
Proof.
  apply (vessel_accessors_never_wait Scenario.vesselsRefreshing Scenario.vesselsHistory 2 7).
  apply Async.reachable_refresh; [left|apply Async.reachable_initially].
Defined.

Lemma updateCache_skipped_on_same_flush_dates_witness :
  updateCache Scenario.lastWeek Scenario.dayBefore (fun _ => VNull) 0
    Scenario.upstreamAt42 Scenario.refreshedAt42
  = (Ok tt,
     set_requests
       (requests Scenario.refreshedAt42
          ++ [API_VESSELS_CACHE; API_SCHEDULE_CACHE; API_TERMINALS_CACHE])%list
       Scenario.refreshedAt42).
Proof.
  apply (updateCache_skipped_on_same_flush_dates Scenario.lastWeek Scenario.dayBefore
           (fun _ => VNull) 0 Scenario.upstreamAt42 Scenario.refreshedAt42
           (VNum 42) (VNum 42) (VNum 42)); reflexivity.
Defined.
